(** * dedalus2/data/evaluator.py: scheduling, layout oscillation and output
      addressing of the Evaluator and its handlers.

    The development is a shallow embedding of [Evaluator], [Handler],
    [DictionaryHandler], [SystemHandler] and [FileHandler].  Python objects
    that are mutated in place (handlers, task dictionaries, fields) live in an
    explicit [State] and are referred to by position or by identifier, so the
    aliasing of the source is kept.  Exceptions and the unbounded [while] loop
    are results of a small state-and-error monad.

    Numbers: wall and simulation times are Python floats and are idealised as
    rationals ([Q]); [np.inf] is a constructor of its own.  Counters and
    cadence divisors are integers ([Z]). *)

From Stdlib Require Import ZArith QArith Qround Lia.
From stdpp Require Import gmap strings list.

Local Open Scope Z_scope.

(** ** Python results *)

Inductive exn := ZeroDivisionError | KeyError | AttributeError.

(** What running a piece of the program gives: a value, an exception, or a
    loop that is still running when the step budget of the model is used up. *)
Inductive result (A : Type) :=
| Done (a : A)
| Raised (e : exn)
| OutOfFuel.
Arguments Done {A} a.
Arguments Raised {A} e.
Arguments OutOfFuel {A}.

(** ** Numbers *)

(** A cadence threshold: a finite number, or [np.inf] (the default). *)
Inductive cadence := Fin (d : Q) | Inf.

(** [x // d] on Python floats.  Dividing by [np.inf] gives [0.0] for a
    non-negative [x] and [-1.0] for a negative one; dividing by zero raises. *)
Definition floordiv (x : Q) (d : cadence) : result Z :=
  match d with
  | Inf => Done (if Qle_bool 0 x then 0 else -1)
  | Fin q => if Qeq_bool q 0 then Raised ZeroDivisionError
             else Done (Qfloor (x / q))
  end.

(** [max_writes]: an integer, or [np.inf] (the default). *)
Inductive limit := Lim (n : Z) | Unlimited.

(** [(n % m) == 0] for an integer [n]; [n % np.inf] is [n] itself for
    [n >= 0] and [inf] below, so it is zero only at [n = 0]. *)
Definition mod_is_zero (n : Z) (m : limit) : result bool :=
  match m with
  | Unlimited => Done (n =? 0)
  | Lim k => if k =? 0 then Raised ZeroDivisionError
             else Done (n mod k =? 0)
  end.

(** ** Fields and layouts *)

(** A layout is identified by its index, from [0] (coefficient space) to
    [Lmax] (grid space).  A field is identified by a number; [Layouts] gives
    the index of the current layout of every field. *)
Definition Layouts := nat -> nat.

Definition set_layout (f : nat) (l : nat) (ls : Layouts) : Layouts :=
  fun g => if decide (g = f) then l else ls g.

(** Modelled from the spec: the Field collaborator (dedalus2/data/field.py is
    not part of the sources).  [require_coeff_space] and [require_layout]
    put the field in the layout asked for; [towards_grid_space] and
    [towards_coeff_space] move it one layout step.  The spec does not say
    what a step past the last layout does: the model keeps the index within
    [0 .. Lmax]. *)
Definition require_coeff_space (f : nat) (ls : Layouts) : Layouts :=
  set_layout f 0%nat ls.

Definition require_layout (f : nat) (l : nat) (ls : Layouts) : Layouts :=
  set_layout f l ls.

Definition towards_grid_space (Lmax : nat) (f : nat) (ls : Layouts) : Layouts :=
  set_layout f (Nat.min Lmax (S (ls f))) ls.

Definition towards_coeff_space (f : nat) (ls : Layouts) : Layouts :=
  set_layout f (Nat.pred (ls f)) ls.

(** Modelled from the spec: the operator-tree collaborator
    (dedalus2/data/operators.py is not part of the sources).  [field_set] is
    the set of fields the tree reads, a pure function of the tree;
    [attempt id] gives the resolved field, or [None] when the tree is not
    computable in the current layouts. *)
Record Operator := {
  field_set : list nat;
  attempt : Q -> Layouts -> option nat;
}.

(** ** Tasks and handlers *)

(** The task dictionary built by [Handler.add_task].  Its ['out'] entry is
    written during evaluation and lives in [outs] of the [State], under the
    identity [tid] of the dictionary. *)
Record Task := {
  operator : Operator;
  layout : nat;
  name : string;
  tid : nat;
}.

(** The attributes of a [FileHandler].  A path is identified by the file
    number it was built from; [containers] is the handler's folder: the
    ['writes'] attribute of every file created so far. *)
Record FileHandler := {
  max_writes : limit;
  max_size : Z;
  parallel : bool;
  file_num : Z;
  current_path : option Z;
  total_write_num : Z;
  file_write_num : Z;
  containers : gmap Z Z;
}.

(** Modelled from the spec: the FieldSystem collaborator
    (dedalus2/data/system.py is not part of the sources).  The spec says of
    it only that the sink gathers the resolved outputs into a flat vector.
    The vector is not modelled; what [gather] does to the layouts of the
    fields is left open, and is a component of the system object. *)
Record FieldSystem := {
  system_fields : list nat;
  gather : Layouts -> Layouts;
}.

(** What a handler does with its outputs: the [fields] dictionary of a
    [DictionaryHandler], the [system] attribute of a [SystemHandler], the
    attributes of a [FileHandler].  [system] is set by
    [SystemHandler.build_system] only: until then the handler has no such
    attribute ([None]). *)
Inductive Sink :=
| DictionarySink (fields : gmap string nat)
| SystemSink (system : option FieldSystem)
| FileSink (fh : FileHandler).

Record Handler := {
  group : option string;
  wall_dt : cadence;
  sim_dt : cadence;
  iter : cadence;
  tasks : list Task;
  last_wall_div : Z;
  last_sim_div : Z;
  last_iter_div : Z;
  sink : Sink;
}.

(** [Handler.__init__]. *)
Definition Handler_init (group : option string) (wall_dt sim_dt iter : cadence)
    (sink : Sink) : Handler :=
  {| group := group; wall_dt := wall_dt; sim_dt := sim_dt; iter := iter;
     tasks := [];
     last_wall_div := -1; last_sim_div := -1; last_iter_div := -1;
     sink := sink |}.

(** [FileHandler.__init__], the part that sets the counters. *)
Definition FileHandler_init (max_writes : limit) (max_size : Z) (parallel : bool)
    : FileHandler :=
  {| max_writes := max_writes; max_size := max_size; parallel := parallel;
     file_num := 0; current_path := None;
     total_write_num := 0; file_write_num := 0; containers := ∅ |}.

Definition default_max_size : Z := 2 ^ 30.

Definition add_task_to (t : Task) (h : Handler) : Handler :=
  {| group := group h; wall_dt := wall_dt h; sim_dt := sim_dt h; iter := iter h;
     tasks := tasks h ++ [t];
     last_wall_div := last_wall_div h; last_sim_div := last_sim_div h;
     last_iter_div := last_iter_div h; sink := sink h |}.

Definition set_divisors (wd sd id : Z) (h : Handler) : Handler :=
  {| group := group h; wall_dt := wall_dt h; sim_dt := sim_dt h; iter := iter h;
     tasks := tasks h;
     last_wall_div := wd; last_sim_div := sd; last_iter_div := id;
     sink := sink h |}.

Definition set_sink (k : Sink) (h : Handler) : Handler :=
  {| group := group h; wall_dt := wall_dt h; sim_dt := sim_dt h; iter := iter h;
     tasks := tasks h;
     last_wall_div := last_wall_div h; last_sim_div := last_sim_div h;
     last_iter_div := last_iter_div h; sink := k |}.

(** The cadence state of a handler. *)
Definition divisors (h : Handler) : Z * Z * Z :=
  (last_wall_div h, last_sim_div h, last_iter_div h).

(** ** The state of a run *)

(** [handlers] and [groups] are the attributes of the [Evaluator]; a handler
    is referred to by its position in [handlers], so the lists in [groups]
    alias the registry as in the source.  Every position is an object of its
    own, as with the [add_*_handler] methods, which create the handler they
    register.  [layouts] is the current layout of
    every field, [outs] the ['out'] entry of every task dictionary that has
    one. *)
Record State := {
  Lmax : nat;
  handlers : list Handler;
  groups : gmap string (list nat);
  layouts : Layouts;
  outs : gmap nat nat;
}.

Definition Evaluator_init (Lmax : nat) (ls : Layouts) : State :=
  {| Lmax := Lmax; handlers := []; groups := ∅; layouts := ls; outs := ∅ |}.

Definition with_handlers (hs : list Handler) (s : State) : State :=
  {| Lmax := Lmax s; handlers := hs; groups := groups s;
     layouts := layouts s; outs := outs s |}.

Definition with_groups (g : gmap string (list nat)) (s : State) : State :=
  {| Lmax := Lmax s; handlers := handlers s; groups := g;
     layouts := layouts s; outs := outs s |}.

Definition with_layouts (ls : Layouts) (s : State) : State :=
  {| Lmax := Lmax s; handlers := handlers s; groups := groups s;
     layouts := ls; outs := outs s |}.

Definition with_outs (o : gmap nat nat) (s : State) : State :=
  {| Lmax := Lmax s; handlers := handlers s; groups := groups s;
     layouts := layouts s; outs := o |}.

(** ** The monad of the evaluator's methods *)

Definition M (A : Type) : Type := State -> result A * State.

#[global] Instance M_ret : MRet M := fun A a s => (Done a, s).

#[global] Instance M_bind : MBind M := fun A B k m s =>
  match m s with
  | (Done a, s') => k a s'
  | (Raised e, s') => (Raised e, s')
  | (OutOfFuel, s') => (OutOfFuel, s')
  end.

Definition raise {A} (e : exn) : M A := fun s => (Raised e, s).
Definition modify (f : State -> State) : M unit := fun s => (Done tt, f s).
Definition lift {A} (r : result A) : M A := fun s => (r, s).

(** [for x in xs: body x]. *)
Fixpoint for_each {A} (body : A -> M unit) (xs : list A) : M unit :=
  match xs with
  | [] => mret tt
  | x :: rest => body x ;; for_each body rest
  end.

(** ** Evaluator: the registry *)

(** [Evaluator.add_handler]: append, and register with the group if any
    ([groups] is a [defaultdict(list)]). *)
Definition add_handler (h : Handler) (s : State) : State :=
  let i := length (handlers s) in
  let s1 := with_handlers (handlers s ++ [h]) s in
  match group h with
  | None => s1
  | Some g => with_groups (<[g := default [] (groups s !! g) ++ [i]]> (groups s)) s1
  end.

(** ** Evaluator.evaluate_scheduled: which handlers are due *)

(** The body of the loop over [self.handlers]: the three cadence divisors,
    the comparison with the divisors of the last evaluation, and the update.
    [true] says that the handler was appended to [scheduled_handlers]. *)
Definition schedule_handler (wall_time sim_time : Q) (iteration : Z)
    (h : Handler) : result (bool * Handler) :=
  match floordiv wall_time (wall_dt h) with
  | Done wall_div =>
    match floordiv sim_time (sim_dt h) with
    | Done sim_div =>
      match floordiv (inject_Z iteration) (iter h) with
      | Done iter_div =>
        let wall_up := last_wall_div h <? wall_div in
        let sim_up := last_sim_div h <? sim_div in
        let iter_up := last_iter_div h <? iter_div in
        if wall_up || sim_up || iter_up
        then Done (true, set_divisors wall_div sim_div iter_div h)
        else Done (false, h)
      | Raised e => Raised e
      | OutOfFuel => OutOfFuel
      end
    | Raised e => Raised e
    | OutOfFuel => OutOfFuel
    end
  | Raised e => Raised e
  | OutOfFuel => OutOfFuel
  end.

(** The loop itself, from position [i] on: the positions scheduled, and the
    handlers as the loop leaves them (also when a division raises). *)
Fixpoint select_scheduled (wall_time sim_time : Q) (iteration : Z)
    (i : nat) (hs : list Handler) : result (list nat) * list Handler :=
  match hs with
  | [] => (Done [], [])
  | h :: rest =>
    match schedule_handler wall_time sim_time iteration h with
    | Done (fired, h') =>
      let '(r, rest') := select_scheduled wall_time sim_time iteration (S i) rest in
      (match r with
       | Done l => Done (if fired then i :: l else l)
       | Raised e => Raised e
       | OutOfFuel => OutOfFuel
       end, h' :: rest')
    | Raised e => (Raised e, h :: rest)
    | OutOfFuel => (OutOfFuel, h :: rest)
    end
  end.

Definition scheduled_handlers (wall_time sim_time : Q) (iteration : Z)
    : M (list nat) := fun s =>
  let '(r, hs) := select_scheduled wall_time sim_time iteration 0 (handlers s) in
  (r, with_handlers hs s).

(** ** Evaluator.get_fields and Evaluator.attempt_tasks *)

(** [OrderedSet]: insertion order, no repeats. *)
Definition oset_add (x : nat) (s : list nat) : list nat :=
  if decide (x ∈ s) then s else s ++ [x].

Definition oset_update (s xs : list nat) : list nat :=
  foldl (fun acc x => oset_add x acc) s xs.

Definition get_fields (ts : list Task) : list nat :=
  foldl (fun acc t => oset_update acc (field_set (operator t))) [] ts.

(** [attempt_tasks]: the tasks left unfinished; a finished one gets its ['out']. *)
Fixpoint attempt_tasks (id : Q) (ts : list Task) (s : State) : list Task * State :=
  match ts with
  | [] => ([], s)
  | t :: rest =>
    match attempt (operator t) id (layouts s) with
    | None => let '(u, s') := attempt_tasks id rest s in (t :: u, s')
    | Some out => attempt_tasks id rest (with_outs (<[tid t := out]> (outs s)) s)
    end
  end.

(** ** Evaluator.evaluate_handlers: the layout oscillation *)

(** The variables of the [while tasks:] loop. *)
Record Osc := {
  osc_L : Z;
  osc_dL : Z;
  osc_tasks : list Task;
}.

(** "Change direction at first and last layouts". *)
Definition turn (Lmax : nat) (L dL : Z) : Z :=
  if L =? 0 then 1 else if L =? Z.of_nat Lmax then -1 else dL.

Definition transform (Lmax : nat) (dL : Z) (ls : Layouts) (f : nat) : Layouts :=
  if 0 <? dL then towards_grid_space Lmax f ls else towards_coeff_space f ls.

(** One pass through the body of the loop. *)
Definition osc_body (id : Q) (o : Osc) (s : State) : Osc * State :=
  let dL := turn (Lmax s) (osc_L o) (osc_dL o) in
  let fields := get_fields (osc_tasks o) in
  let s1 := with_layouts (foldl (transform (Lmax s) dL) (layouts s) fields) s in
  let '(u, s2) := attempt_tasks id (osc_tasks o) s1 in
  ({| osc_L := osc_L o + dL; osc_dL := dL; osc_tasks := u |}, s2).

(** The loop after [n] passes, stopping when no task is left. *)
Fixpoint osc_rounds (id : Q) (n : nat) (o : Osc) (s : State) : Osc * State :=
  match n with
  | O => (o, s)
  | S k =>
    match osc_tasks o with
    | [] => (o, s)
    | _ :: _ => let '(o', s') := osc_body id o s in osc_rounds id k o' s'
    end
  end.

(** The loop run with a step budget: the source has no bound of its own. *)
Fixpoint oscillate (fuel : nat) (id : Q) (o : Osc) : M unit := fun s =>
  match osc_tasks o with
  | [] => (Done tt, s)
  | _ :: _ =>
    match fuel with
    | O => (OutOfFuel, s)
    | S k => let '(o', s') := osc_body id o s in oscillate k id o' s'
    end
  end.

Definition handler_tasks (s : State) (i : nat) : list Task :=
  match handlers s !! i with
  | Some h => tasks h
  | None => []
  end.

(** [[t for h in handlers for t in h.tasks]]. *)
Definition all_tasks (s : State) (hs : list nat) : list Task :=
  flat_map (handler_tasks s) hs.

(** The first two attempts: in the current layouts, then with every field of
    the unfinished tasks in coefficient space.  The result is the state of
    the loop at its entry ([L = 0]; [dL] is not yet bound). *)
Definition first_attempts (id : Q) (ts : list Task) (s : State) : Osc * State :=
  let '(u1, s1) := attempt_tasks id ts s in
  let s2 := with_layouts (foldl (fun ls f => require_coeff_space f ls)
                                (layouts s1) (get_fields u1)) s1 in
  let '(u2, s3) := attempt_tasks id u1 s2 in
  ({| osc_L := 0; osc_dL := 0; osc_tasks := u2 |}, s3).

(** [task['out']]: a [KeyError] when the entry is missing. *)
Definition task_out (t : Task) : M nat := fun s =>
  match outs s !! tid t with
  | Some f => (Done f, s)
  | None => (Raised KeyError, s)
  end.

(** "Transform all outputs to coefficient layout to dealias". *)
Definition dealias_task (t : Task) : M unit :=
  f ← task_out t;
  modify (fun s => with_layouts (require_coeff_space f (layouts s)) s).

Definition dealias (hs : list nat) : M unit :=
  for_each (fun i => fun s => for_each dealias_task (handler_tasks s i) s) hs.

(** Everything [evaluate_handlers] does before the first [process]. *)
Definition resolve (fuel : nat) (hs : list nat) (sim_time : Q) : M unit := fun s =>
  let '(o, s1) := first_attempts sim_time (all_tasks s hs) s in
  (oscillate fuel sim_time o ;; dealias hs) s1.

(** ** FileHandler: file limits *)

(** What the operating system and the other processes of the communicator
    answer during one [process] call: the size of the current file, and the
    size-limit flags the other ranks bring to the reduction. *)
Record Stat := {
  st_size : Z;
  peers : list bool;
}.

(** [comm.Allreduce(MPI.IN_PLACE, self._sl_array, op=MPI.LOR)]. *)
Definition Allreduce_LOR (mine : bool) (others : list bool) : bool :=
  mine || existsb id others.

(** [FileHandler.check_file_limits]. *)
Definition check_file_limits (fh : FileHandler) (io : Stat) : result bool :=
  match mod_is_zero (total_write_num fh) (max_writes fh) with
  | Done write_limit =>
    let size_limit := max_size fh <=? st_size io in
    let size_limit :=
      if parallel fh then size_limit else Allreduce_LOR size_limit (peers io) in
    Done (write_limit || size_limit)
  | Raised e => Raised e
  | OutOfFuel => OutOfFuel
  end.

(** [FileHandler.new_file]: the file created, and the handler. *)
Definition new_file (fh : FileHandler) : Z * FileHandler :=
  let n := file_num fh + 1 in
  (n, {| max_writes := max_writes fh; max_size := max_size fh;
         parallel := parallel fh;
         file_num := n; current_path := Some n;
         total_write_num := total_write_num fh; file_write_num := 0;
         containers := <[n := 0]> (containers fh) |}).

(** [FileHandler.get_file]: the file opened, and the handler. *)
Definition get_file (fh : FileHandler) (io : Stat) : result (Z * FileHandler) :=
  match current_path fh with
  | None => Done (new_file fh)
  | Some path =>
    match check_file_limits fh io with
    | Done true => Done (new_file fh)
    | Done false => Done (path, fh)
    | Raised e => Raised e
    | OutOfFuel => OutOfFuel
    end
  end.

(** [FileHandler.process] up to [file.attrs['writes'] = self.file_write_num]. *)
Definition begin_write (fh : FileHandler) (io : Stat) : result FileHandler :=
  match get_file fh io with
  | Done (file, fh1) =>
    let w := file_write_num fh1 + 1 in
    Done {| max_writes := max_writes fh1; max_size := max_size fh1;
            parallel := parallel fh1;
            file_num := file_num fh1; current_path := current_path fh1;
            total_write_num := total_write_num fh1 + 1; file_write_num := w;
            containers := <[file := w]> (containers fh1) |}
  | Raised e => Raised e
  | OutOfFuel => OutOfFuel
  end.

(** A run of [process] calls of one handler, one [Stat] per call. *)
Fixpoint writes (fh : FileHandler) (ios : list Stat) : result FileHandler :=
  match ios with
  | [] => Done fh
  | io :: rest =>
    match begin_write fh io with
    | Done fh' => writes fh' rest
    | Raised e => Raised e
    | OutOfFuel => OutOfFuel
    end
  end.

(** The same [get_file] on every process of the communicator: each process
    has its own handler and the size of its own file, and brings its local
    size-limit flag to the reduction. *)
Definition local_size_limit (p : FileHandler * Z) : bool :=
  max_size (fst p) <=? snd p.

Definition group_stat (procs : list (FileHandler * Z)) (rank : nat) : Stat :=
  {| st_size := default 0 (snd <$> procs !! rank);
     peers := local_size_limit <$> delete rank procs |}.

Definition group_get_file (procs : list (FileHandler * Z))
    : list (result (Z * FileHandler)) :=
  imap (fun rank p => get_file (fst p) (group_stat procs rank)) procs.

(** ** Handler.process *)

(** [task['out'].require_layout(task['layout'])]. *)
Definition require_task_layout (t : Task) : M nat :=
  out ← task_out t;
  modify (fun s => with_layouts (require_layout out (layout t) (layouts s)) s) ;;
  mret out.

(** [self.fields[task['name']] = task['out']] of the handler at position [i]. *)
Definition dictionary_store (i : nat) (t : Task) (out : nat) : M unit :=
  modify (fun s =>
    with_handlers
      (alter (fun h => match sink h with
                       | DictionarySink d =>
                           set_sink (DictionarySink (<[name t := out]> d)) h
                       | _ => h
                       end) i (handlers s)) s).

(** [DictionaryHandler.process]. *)
Definition process_dictionary (i : nat) : M unit := fun s =>
  for_each (fun t => out ← require_task_layout t; dictionary_store i t out)
           (handler_tasks s i) s.

(** [FileHandler.process]; the datasets themselves are not modelled, the
    layout change made before each write is. *)
Definition process_file (io : Stat) (i : nat) (fh : FileHandler) : M unit := fun s =>
  match begin_write fh io with
  | Done fh' =>
    (modify (fun s => with_handlers (alter (set_sink (FileSink fh')) i (handlers s)) s) ;;
     for_each (fun t => require_task_layout t ;; mret tt) (handler_tasks s i)) s
  | Raised e => (Raised e, s)
  | OutOfFuel => (OutOfFuel, s)
  end.

(** [SystemHandler.process]: [self.system.gather()].  Reading [self.system]
    raises [AttributeError] when [build_system] was never called. *)
Definition process_system (system : option FieldSystem) : M unit :=
  match system with
  | None => raise AttributeError
  | Some sys => modify (fun s => with_layouts (gather sys (layouts s)) s)
  end.

(** [handler.process(wall_time, sim_time, iteration)] for the handler at
    position [i]. *)
Definition process (env : nat -> Stat) (i : nat)
    (wall_time sim_time : Q) (iteration : Z) : M unit := fun s =>
  match handlers s !! i with
  | None => (Done tt, s)
  | Some h =>
    match sink h with
    | DictionarySink _ => process_dictionary i s
    | SystemSink system => process_system system s
    | FileSink fh => process_file (env i) i fh s
    end
  end.

(** ** Evaluator.evaluate_handlers, evaluate_group, evaluate_scheduled *)

Definition evaluate_handlers (fuel : nat) (env : nat -> Stat) (hs : list nat)
    (wall_time sim_time : Q) (iteration : Z) : M unit :=
  resolve fuel hs sim_time ;;
  for_each (fun i => process env i wall_time sim_time iteration) hs.

(** [self.groups[group]] on a [defaultdict(list)] enters a missing key. *)
Definition evaluate_group (fuel : nat) (env : nat -> Stat) (g : string)
    (wall_time sim_time : Q) (iteration : Z) : M unit := fun s =>
  let hs := default [] (groups s !! g) in
  evaluate_handlers fuel env hs wall_time sim_time iteration
    (with_groups (<[g := hs]> (groups s)) s).

Definition evaluate_scheduled (fuel : nat) (env : nat -> Stat)
    (wall_time sim_time : Q) (iteration : Z) : M unit :=
  scheduled ← scheduled_handlers wall_time sim_time iteration;
  evaluate_handlers fuel env scheduled wall_time sim_time iteration.

(** ** FileHandler.get_write_stats *)

(** The arrays of a layout object, one entry per axis. *)
Record LayoutShape := {
  global_shape : list Z;
  shape : list Z;
  start : list Z;
}.

(** [a[mask] = v] on a copy of [a]. *)
Definition mask_assign (a : list Z) (mask : list bool) (v : Z) : list Z :=
  zip_with (fun x (m : bool) => if m then v else x) a mask.

Definition mask_and (a b : list bool) : list bool := zip_with andb a b.
Definition mask_not (a : list bool) : list bool := negb <$> a.

Definition get_write_stats (fh : FileHandler) (l : LayoutShape)
    (constant : list bool) (index : Z)
    : list Z * list Z * list Z * list Z * list Z :=
  let gshape := global_shape l in
  let lshape := shape l in
  let first := (fun x => x =? 0) <$> start l in
  let write_count :=
    mask_assign (mask_assign lshape (mask_and constant first) 1)
                (mask_and constant (mask_not first)) 0 in
  let global_nc_shape := mask_assign gshape constant 1 in
  let global_nc_start :=
    mask_assign (start l) (mask_and constant (mask_not first)) 1 in
  if parallel fh
  then (global_nc_shape, global_nc_start, global_nc_shape, global_nc_start,
        write_count)
  else (global_nc_shape, global_nc_start, write_count,
        (fun x => 0 * x) <$> start l, write_count).

(** ** FileHandler.get_hdf5_spaces *)

(** An HDF5 dataspace with its hyperslab selection:
    [h5py.h5s.create_simple(shape)] followed by
    [select_hyperslab(start, count)]. *)
Record Space := {
  space_shape : list Z;
  select_start : list Z;
  select_count : list Z;
}.

(** The memory space and the file space of one write. *)
Definition get_hdf5_spaces (fh : FileHandler) (l : LayoutShape)
    (constant : list bool) (index : Z) : Space * Space :=
  let lshape := shape l in
  let '(gnc_shape, gnc_start, write_shape, write_start, write_count) :=
    get_write_stats fh l constant index in
  ({| space_shape := lshape;
      select_start := (fun x => 0 * x) <$> start l;
      select_count := write_count |},
   {| space_shape := (index + 1) :: write_shape;
      select_start := index :: write_start;
      select_count := 1 :: write_count |}).

(** ** Vocabulary of the statements *)

(** A cadence that can be divided by. *)
Definition no_zero (c : cadence) : Prop :=
  match c with
  | Fin q => ~ (q == 0)%Q
  | Inf => True
  end.

Definition well_configured (h : Handler) : Prop :=
  no_zero (wall_dt h) /\ no_zero (sim_dt h) /\ no_zero (iter h).

(** The divisor of one channel as the spec has it, [floor(time / cadence)].
    Over an unset (infinite) cadence the quotient is zero: the divisor is
    [0] at a time that is not negative (and [-1] at a negative one, the
    floor Python takes of a quotient below zero). *)
Definition divisor (time : Q) (c : cadence) : Z :=
  match c with
  | Fin d => Qfloor (time / d)
  | Inf => if Qle_bool 0 time then 0 else -1
  end.

(** Some divisor strictly exceeds the one recorded at the last firing. *)
Definition due (h : Handler) (wall_div sim_div iter_div : Z) : Prop :=
  last_wall_div h < wall_div \/ last_sim_div h < sim_div \/
  last_iter_div h < iter_div.

(** Successive calls of the scheduling loop of [evaluate_scheduled], each
    with its [(wall_time, sim_time, iteration)]: the positions selected by
    each call. *)
Fixpoint schedule_calls (calls : list (Q * Q * Z)) (s : State)
    : list (result (list nat)) :=
  match calls with
  | [] => []
  | (wall_time, sim_time, iteration) :: rest =>
    let '(r, s') := scheduled_handlers wall_time sim_time iteration s in
    r :: schedule_calls rest s'
  end.

Definition time_not_negative (c : Q * Q * Z) : Prop :=
  (0 <= fst (fst c))%Q /\ (0 <= snd (fst c))%Q /\ 0 <= snd c.

(** An evaluator with one handler and no task. *)
Definition lone_handler (wall_dt sim_dt iter : cadence) : State :=
  add_handler (Handler_init None wall_dt sim_dt iter (SystemSink None))
              (Evaluator_init 1 (fun _ => 0%nat)).

(** The scheduling data of a handler: its cadences and its recorded
    divisors. *)
Definition cadence_state (h : Handler) : cadence * cadence * cadence * (Z * Z * Z) :=
  (wall_dt h, sim_dt h, iter h, divisors h).

Definition cadences (s : State) := cadence_state <$> handlers s.

(** The task dictionary has its ['out'] entry. *)
Definition has_out (s : State) (t : Task) : Prop := is_Some (outs s !! tid t).

(** One layout step of a field, in the direction [dL]. *)
Definition layout_step (Lmax : nat) (dL : Z) (l : nat) : nat :=
  if 0 <? dL then Nat.min Lmax (S l) else Nat.pred l.

(** Every field the operator reads is in the layout of index [k]. *)
Definition fields_at (ls : Layouts) (op : Operator) (k : nat) : Prop :=
  forall f, f ∈ field_set op -> ls f = k.

(** The operator tree resolves whenever its fields are all in layout [k];
    it cannot resolve while its fields are all in layout [k]. *)
Definition resolvable_at (id : Q) (op : Operator) (k : nat) : Prop :=
  forall ls, fields_at ls op k -> attempt op id ls <> None.

Definition blocked_at (id : Q) (op : Operator) (k : nat) : Prop :=
  forall ls, fields_at ls op k -> attempt op id ls = None.

(** ** Small evaluators used as concrete inputs *)

(** An operator on the field [arg], computable when [arg] is in the layout
    of index [k] and in no other; its result is the field [out]. *)
Definition computable_in (k arg out : nat) : Operator :=
  {| field_set := [arg];
     attempt := fun _ ls => if decide (ls arg = k) then Some out else None |}.

(** An operator on the field [arg], computable when [arg] is in the layout
    of index [k] while the field [other], which it does not read, is in the
    layout of index [j]; its result is the field [out]. *)
Definition computable_with (k arg j other out : nat) : Operator :=
  {| field_set := [arg];
     attempt := fun _ ls =>
       if decide (ls arg = k /\ ls other = j) then Some out else None |}.

(** An operator on the field [arg] that no layout makes computable. *)
Definition unresolvable (arg : nat) : Operator :=
  {| field_set := [arg]; attempt := fun _ _ => None |}.

(** An evaluator over [Lmax + 1] layouts with one [DictionaryHandler]
    holding one task, asked for in grid space; every field starts in
    coefficient space. *)
Definition one_task (Lmax : nat) (op : Operator) : State :=
  add_handler
    (add_task_to {| operator := op; layout := Lmax; name := "task"; tid := 0 |}
       (Handler_init None Inf Inf Inf (DictionarySink ∅)))
    (Evaluator_init Lmax (fun _ => 0%nat)).

(** An evaluator over [Lmax + 1] layouts with one [DictionaryHandler]
    holding the tasks [ts]; every field starts in coefficient space. *)
Definition evaluator_with (Lmax : nat) (ts : list Task) : State :=
  add_handler
    (foldl (fun h t => add_task_to t h)
           (Handler_init None Inf Inf Inf (DictionarySink ∅)) ts)
    (Evaluator_init Lmax (fun _ => 0%nat)).

Definition no_stat : nat -> Stat := fun _ => {| st_size := 0; peers := [] |}.

(** The size limit is not reached at this call: on this process in collective
    mode, on no process of the communicator in independent mode. *)
Definition below_size_limit (max_size : Z) (parallel : bool) (io : Stat) : Prop :=
  (if parallel then max_size <=? st_size io
   else Allreduce_LOR (max_size <=? st_size io) (peers io)) = false.

(** The counters of a [FileHandler] whose files were rolled by the write
    limit [N] only: before the first write, or with [file_write_num] writes in
    the current file and [N] in each of the files before it. *)
Definition rolled (N : Z) (fh : FileHandler) : Prop :=
  ((file_num fh = 0 /\ current_path fh = None /\
    total_write_num fh = 0 /\ file_write_num fh = 0) \/
   (1 <= file_num fh /\ current_path fh = Some (file_num fh) /\
    1 <= file_write_num fh <= N /\
    total_write_num fh = (file_num fh - 1) * N + file_write_num fh)) /\
  forall j : Z,
    containers fh !! j =
      if decide (1 <= j < file_num fh) then Some N
      else if decide (j = file_num fh /\ 1 <= j) then Some (file_write_num fh)
      else None.

(** [m] does not change the observation [obs] of the state, whatever its
    result. *)
Definition preserves {X} (obs : State -> X) {A} (m : M A) : Prop :=
  forall s, obs (snd (m s)) = obs s.

(** The fields of the pending tasks are all in layout [m], where no pending
    task is computable; when a task is pending the loop variable [L] is [m]
    and, past the first layout, the direction is towards grid space. *)
Definition lockstep (id : Q) (m : nat) (o : Osc) (s : State) : Prop :=
  (forall t, t ∈ osc_tasks o ->
     fields_at (layouts s) (operator t) m /\
     attempt (operator t) id (layouts s) = None) /\
  (osc_tasks o = [] \/
   (osc_L o = Z.of_nat m /\ (m <> 0%nat -> osc_dL o = 1))).

(** [L] is a layout index, and between the boundaries the direction is set. *)
Definition in_range (Lmax : nat) (o : Osc) : Prop :=
  0 <= osc_L o <= Z.of_nat Lmax /\
  (0 < osc_L o < Z.of_nat Lmax -> osc_dL o = 1 \/ osc_dL o = -1).

(** The operator tree reads no field but those of its [field_set]: whether
    it resolves depends on the layouts of these alone. *)
Definition reads_only_its_fields (id : Q) (op : Operator) : Prop :=
  forall ls ls' : Layouts,
    (forall f, f ∈ field_set op -> ls f = ls' f) ->
    attempt op id ls = attempt op id ls'.

(** The layout index that [n] passes of the loop lead to: from [0] up to
    [Lmax], down to [0], and up again. *)
Definition wave (Lmax n : nat) : nat :=
  let m := (n mod (2 * Lmax))%nat in
  if (m <=? Lmax)%nat then m else (2 * Lmax - m)%nat.

(** Pass [n + 1] goes towards grid space. *)
Definition wave_up (Lmax n : nat) : bool := (n mod (2 * Lmax) <? Lmax)%nat.

(** The variables of the loop are at position [m] of the wave. *)
Definition on_wave (Lmax m : nat) (o : Osc) : Prop :=
  osc_L o = Z.of_nat (wave Lmax m) /\
  ((0 < wave Lmax m < Lmax)%nat ->
   osc_dL o = if wave_up Lmax m then 1 else -1).

(** A loop body that puts the ['out'] of its task in the layout asked for,
    and touches no other layout and no ['out'] entry. *)
Definition lays_out (body : Task -> M unit) : Prop :=
  forall t s out, outs s !! tid t = Some out ->
    exists s', body t s = (Done tt, s') /\ outs s' = outs s /\
               layouts s' = require_layout out (layout t) (layouts s).

(** What the [process] of a handler goes by: its tasks, and for a
    [SystemHandler] its system. *)
Definition process_kind (h : Handler) : list Task * option (option FieldSystem) :=
  (tasks h, match sink h with SystemSink system => Some system | _ => None end).

(** The handler at position [j] does not move the field [f] when it is
    processed: [f] is not the ['out'] of one of its tasks (a
    [DictionaryHandler] or a [FileHandler]), or its system leaves [f] where
    it is when gathering (a [SystemHandler]). *)
Definition leaves (s : State) (j : nat) (f : nat) : Prop :=
  match handlers s !! j with
  | None => True
  | Some h =>
    match sink h with
    | SystemSink None => True
    | SystemSink (Some sys) => forall ls, gather sys ls f = ls f
    | _ => forall t, t ∈ tasks h -> outs s !! tid t <> Some f
    end
  end.

(** ** The registry as a run builds it *)

(** The handlers added one after the other, as the [add_*_handler] methods
    do. *)
Definition add_handlers (hs : list Handler) (s : State) : State :=
  foldl (fun s h => add_handler h s) s hs.

(** The positions, from [k] on, of the handlers declared with the group [g]. *)
Fixpoint positions_from (k : nat) (g : string) (hs : list Handler) : list nat :=
  match hs with
  | [] => []
  | h :: rest =>
    if decide (group h = Some g) then k :: positions_from (S k) g rest
    else positions_from (S k) g rest
  end.

(** [self.groups[g]] read without entering the key. *)
Definition group_members (s : State) (g : string) : list nat :=
  default [] (groups s !! g).

(** What the scheduling loop never writes: everything of a handler but its
    recorded divisors. *)
Definition configuration (h : Handler)
    : option string * cadence * cadence * cadence * list Task * Sink :=
  (group h, wall_dt h, sim_dt h, iter h, tasks h, sink h).

(** Strictly increasing positions. *)
Fixpoint increasing_from (k : nat) (l : list nat) : Prop :=
  match l with
  | [] => True
  | x :: rest => (k <= x)%nat /\ increasing_from (S x) rest
  end.

(** The writes recorded in the files of a handler, all files together. *)
Definition written (files : gmap Z Z) : Z :=
  map_fold (fun _ w acc => w + acc) 0 files.

(** The size limit is reached at this call. *)
Definition at_size_limit (fh : FileHandler) (io : Stat) : Prop :=
  (if parallel fh then max_size fh <=? st_size io
   else Allreduce_LOR (max_size fh <=? st_size io) (peers io)) = true.

(** The hyperslab selected along the axis [k] lies within the dataspace. *)
Definition selection_within (sp : Space) (k : nat) : Prop :=
  exists n s c,
    space_shape sp !! k = Some n /\ select_start sp !! k = Some s /\
    select_count sp !! k = Some c /\ 0 <= s /\ 0 <= c /\ s + c <= n.

(** The counters of a [FileHandler] agree with its files: the files are
    numbered [1 .. file_num], each holds at least one write, the current one
    [file_write_num] of them, and all together [total_write_num]. *)
Definition accounted (fh : FileHandler) : Prop :=
  total_write_num fh = written (containers fh) /\
  (forall j, is_Some (containers fh !! j) <-> 1 <= j <= file_num fh) /\
  (forall j w, containers fh !! j = Some w -> 1 <= w) /\
  ((current_path fh = None /\ file_num fh = 0) \/
   (current_path fh = Some (file_num fh) /\
    containers fh !! file_num fh = Some (file_write_num fh))).

(** The dictionary of a [DictionaryHandler] after it has stored the tasks
    [ts], in their order, each under its name. *)
Definition stored (s : State) (ts : list Task) (d : gmap string nat)
    : gmap string nat :=
  foldl (fun d t => match outs s !! tid t with
                    | Some out => <[name t := out]> d
                    | None => d
                    end) d ts.

(** The handler is a [DictionaryHandler]. *)
Definition is_dictionary (h : Handler) : Prop :=
  match sink h with
  | DictionarySink _ => True
  | _ => False
  end.

(** * Scheduling *)

Section Scheduling.

Variables (wall_time sim_time : Q) (iteration : Z).

Lemma floordiv_no_zero (x : Q) (c : cadence) :
  no_zero c -> exists d, floordiv x c = Done d.
Proof.
  destruct c as [q|]; simpl; intros Hq; [|eauto].
  destruct (Qeq_bool q 0) eqn:E; [|eauto].
  apply Qeq_bool_iff in E. contradiction.
Qed.

Lemma schedule_handler_due (h : Handler) (wd sd id : Z) :
  floordiv wall_time (wall_dt h) = Done wd ->
  floordiv sim_time (sim_dt h) = Done sd ->
  floordiv (inject_Z iteration) (iter h) = Done id ->
  due h wd sd id ->
  schedule_handler wall_time sim_time iteration h
    = Done (true, set_divisors wd sd id h).
Proof.
  intros Hw Hs Hi Hd. unfold schedule_handler. rewrite Hw, Hs, Hi.
  assert ((last_wall_div h <? wd) || (last_sim_div h <? sd)
          || (last_iter_div h <? id) = true) as ->; [|reflexivity].
  unfold due in Hd. rewrite !orb_true_iff, !Z.ltb_lt. tauto.
Qed.

Lemma schedule_handler_not_due (h : Handler) (wd sd id : Z) :
  floordiv wall_time (wall_dt h) = Done wd ->
  floordiv sim_time (sim_dt h) = Done sd ->
  floordiv (inject_Z iteration) (iter h) = Done id ->
  ~ due h wd sd id ->
  schedule_handler wall_time sim_time iteration h = Done (false, h).
Proof.
  intros Hw Hs Hi Hd. unfold schedule_handler. rewrite Hw, Hs, Hi.
  assert ((last_wall_div h <? wd) || (last_sim_div h <? sd)
          || (last_iter_div h <? id) = false) as ->; [|reflexivity].
  unfold due in Hd. rewrite !orb_false_iff, !Z.ltb_ge. lia.
Qed.

Lemma schedule_handler_total (h : Handler) :
  well_configured h ->
  exists wd sd id,
    floordiv wall_time (wall_dt h) = Done wd /\
    floordiv sim_time (sim_dt h) = Done sd /\
    floordiv (inject_Z iteration) (iter h) = Done id /\
    ((due h wd sd id /\
      schedule_handler wall_time sim_time iteration h
        = Done (true, set_divisors wd sd id h)) \/
     (~ due h wd sd id /\
      schedule_handler wall_time sim_time iteration h = Done (false, h))).
Proof.
  intros (Hw & Hs & Hi).
  destruct (floordiv_no_zero wall_time _ Hw) as [wd Ewd].
  destruct (floordiv_no_zero sim_time _ Hs) as [sd Esd].
  destruct (floordiv_no_zero (inject_Z iteration) _ Hi) as [id Eid].
  exists wd, sd, id. repeat split; try assumption.
  destruct (decide (due h wd sd id)) as [Hd|Hd].
  - left. split; [assumption|]. by apply (schedule_handler_due h wd sd id).
  - right. split; [assumption|]. by apply (schedule_handler_not_due h wd sd id).
Qed.

(** The scheduling loop started at position [k]: it raises nothing on
    well-configured handlers, selects exactly the positions of the handlers
    that are due, and rewrites the divisors of those only. *)
Lemma select_scheduled_spec (hs : list Handler) :
  Forall well_configured hs ->
  forall k : nat,
  exists sched hs',
    select_scheduled wall_time sim_time iteration k hs = (Done sched, hs') /\
    (forall x, x ∈ sched -> (k <= x)%nat) /\
    forall (j : nat) (h : Handler), hs !! j = Some h ->
      exists wd sd id,
        floordiv wall_time (wall_dt h) = Done wd /\
        floordiv sim_time (sim_dt h) = Done sd /\
        floordiv (inject_Z iteration) (iter h) = Done id /\
        ((k + j)%nat ∈ sched <-> due h wd sd id) /\
        (due h wd sd id -> hs' !! j = Some (set_divisors wd sd id h)) /\
        (~ due h wd sd id -> hs' !! j = Some h).
Proof.
  induction 1 as [|h hs Hh Hhs IH]; intros k.
  - exists [], []. split; [reflexivity|]. split; [intros x Hx; inversion Hx|].
    intros j h Hj. discriminate.
  - destruct (IH (S k)) as (sched & hs' & Esel & Hlow & Hspec).
    destruct (schedule_handler_total h Hh)
      as (wd & sd & id & Ew & Es & Ei & [[Hd Eh]|[Hd Eh]]).
    + exists (k :: sched), (set_divisors wd sd id h :: hs').
      split; [simpl; rewrite Eh, Esel; reflexivity|].
      split.
      { intros x Hx. apply elem_of_cons in Hx as [->|Hx]; [lia|].
        apply Hlow in Hx. lia. }
      intros [|j] h0 Hj; simpl in Hj.
      * injection Hj as <-. exists wd, sd, id.
        repeat split; try assumption; try tauto.
        -- intros _. replace (k + 0)%nat with k by lia. apply elem_of_cons. by left.
      * destruct (Hspec j h0 Hj) as (wd' & sd' & id' & ? & ? & ? & Hiff & ? & ?).
        exists wd', sd', id'. repeat split; try assumption.
        -- intros Hin. apply Hiff. apply elem_of_cons in Hin as [Heq|Hin]; [lia|].
           replace (S k + j)%nat with (k + S j)%nat by lia. exact Hin.
        -- intros Hdue. apply elem_of_cons. right.
           replace (k + S j)%nat with (S k + j)%nat by lia. by apply Hiff.
    + exists sched, (h :: hs').
      split; [simpl; rewrite Eh, Esel; reflexivity|].
      split.
      { intros x Hx. apply Hlow in Hx. lia. }
      intros [|j] h0 Hj; simpl in Hj.
      * injection Hj as <-. exists wd, sd, id.
        repeat split; try assumption; try tauto.
        -- intros Hin. replace (k + 0)%nat with k in Hin by lia.
           apply Hlow in Hin. lia.
      * destruct (Hspec j h0 Hj) as (wd' & sd' & id' & ? & ? & ? & Hiff & ? & ?).
        exists wd', sd', id'. repeat split; try assumption.
        -- intros Hin. apply Hiff.
           replace (S k + j)%nat with (k + S j)%nat by lia. exact Hin.
        -- intros Hdue.
           replace (k + S j)%nat with (S k + j)%nat by lia. by apply Hiff.
Qed.

End Scheduling.

(** The divisors the loop computes are those of the spec. *)
Lemma floordiv_divisor (x : Q) (c : cadence) :
  no_zero c -> floordiv x c = Done (divisor x c).
Proof.
  destruct c as [q|]; simpl; intros Hq; [|reflexivity].
  destruct (Qeq_bool q 0) eqn:E; [|reflexivity].
  apply Qeq_bool_iff in E. contradiction.
Qed.

Lemma divisor_Inf_not_negative (x : Q) : (0 <= x)%Q -> divisor x Inf = 0.
Proof. intros Hx. simpl. apply Qle_bool_iff in Hx. by rewrite Hx. Qed.

Lemma divisor_Inf_iteration (i : Z) : 0 <= i -> divisor (inject_Z i) Inf = 0.
Proof.
  intros Hi. apply divisor_Inf_not_negative.
  change 0%Q with (inject_Z 0). by rewrite <- Zle_Qle.
Qed.

Lemma divisor_Inf_le_0 (x : Q) : divisor x Inf <= 0.
Proof. simpl. destruct (Qle_bool 0 x); lia. Qed.

Lemma select_scheduled_well_configured (wt st : Q) (it : Z) (k : nat)
    (hs : list Handler) :
  Forall well_configured hs ->
  Forall well_configured (snd (select_scheduled wt st it k hs)).
Proof.
  intros Hok. revert k. induction Hok as [|h hs Hh Hhs IH]; intros k; simpl.
  { constructor. }
  unfold schedule_handler.
  destruct (floordiv wt (wall_dt h)); simpl; try (by constructor).
  destruct (floordiv st (sim_dt h)); simpl; try (by constructor).
  destruct (floordiv (inject_Z it) (iter h)); simpl; try (by constructor).
  specialize (IH (S k)).
  destruct (_ || _ || _);
    destruct (select_scheduled wt st it (S k) hs) as [r hs']; simpl in *;
    by constructor.
Qed.

(** One call of the scheduling loop over handlers that can all be divided
    by: the handler at each position is selected exactly when it is due for
    the divisors of the spec, and then records them. *)
Lemma scheduled_handlers_at (wt st : Q) (it : Z) (s : State) :
  Forall well_configured (handlers s) ->
  exists sched s',
    scheduled_handlers wt st it s = (Done sched, s') /\
    Forall well_configured (handlers s') /\
    forall (i : nat) (h : Handler), handlers s !! i = Some h ->
      let wd := divisor wt (wall_dt h) in
      let sd := divisor st (sim_dt h) in
      let id := divisor (inject_Z it) (iter h) in
      (i ∈ sched <-> due h wd sd id) /\
      (due h wd sd id -> handlers s' !! i = Some (set_divisors wd sd id h)) /\
      (~ due h wd sd id -> handlers s' !! i = Some h).
Proof.
  intros Hok.
  destruct (select_scheduled_spec wt st it _ Hok 0%nat)
    as (sched & hs' & Esel & _ & Hspec).
  pose proof (select_scheduled_well_configured wt st it 0 _ Hok) as Hok'.
  exists sched, (with_handlers hs' s). unfold scheduled_handlers.
  rewrite Esel in Hok' |- *. split; [reflexivity|]. split; [exact Hok'|].
  intros i h Hi. cbv zeta.
  destruct (Hspec i h Hi) as (wd' & sd' & id' & Ew & Es & Ei & Hiff & Hd & Hn).
  assert (well_configured h) as (Hw & Hs & Hit).
  { rewrite Forall_forall in Hok. apply Hok.
    by apply list_elem_of_lookup_2 with i. }
  rewrite (floordiv_divisor _ _ Hw) in Ew. injection Ew as <-.
  rewrite (floordiv_divisor _ _ Hs) in Es. injection Es as <-.
  rewrite (floordiv_divisor _ _ Hit) in Ei. injection Ei as <-.
  simpl in Hiff. tauto.
Qed.

Lemma floordiv_Inf_not_negative (x : Q) :
  (0 <= x)%Q -> floordiv x Inf = Done 0.
Proof.
  intros Hx. simpl. apply Qle_bool_iff in Hx. by rewrite Hx.
Qed.

Lemma floordiv_Inf_iteration (i : Z) :
  0 <= i -> floordiv (inject_Z i) Inf = Done 0.
Proof.
  intros Hi. apply floordiv_Inf_not_negative.
  change 0%Q with (inject_Z 0). by rewrite <- Zle_Qle.
Qed.

(** A registry of one handler: the loop is its body at position [0]. *)
Lemma scheduled_handlers_lone (wt st : Q) (it : Z) (s : State)
    (h h' : Handler) (fired : bool) :
  handlers s = [h] ->
  schedule_handler wt st it h = Done (fired, h') ->
  scheduled_handlers wt st it s
    = (Done (if fired then [0%nat] else []), with_handlers [h'] s).
Proof.
  intros Hs Hh. unfold scheduled_handlers. rewrite Hs. simpl. rewrite Hh.
  reflexivity.
Qed.

Ltac schedule_step :=
  erewrite scheduled_handlers_lone;
  [ | reflexivity
    | unfold schedule_handler; simpl wall_dt; simpl sim_dt; simpl iter;
      rewrite floordiv_Inf_not_negative by assumption;
      rewrite floordiv_Inf_iteration by assumption;
      reflexivity ].

Lemma sim_dt_scenario (w0 w1 w2 w3 w4 : Q) (i0 i1 i2 i3 i4 : Z) :
  Forall time_not_negative
    [(w0, 0%Q, i0); (w1, 1#2, i1); (w2, 1%Q, i2); (w3, 3#2, i3); (w4, 22#10, i4)] ->
  schedule_calls
    [(w0, 0%Q, i0); (w1, 1#2, i1); (w2, 1%Q, i2); (w3, 3#2, i3); (w4, 22#10, i4)]
    (lone_handler Inf (Fin 1) Inf)
  = [Done [0%nat]; Done []; Done [0%nat]; Done []; Done [0%nat]].
Proof.
  intros H.
  rewrite !Forall_cons in H. unfold time_not_negative in H. simpl in H.
  destruct H as ((? & _ & ?) & (? & _ & ?) & (? & _ & ?) & (? & _ & ?)
                 & (? & _ & ?) & _).
  unfold schedule_calls, lone_handler.
  do 5 schedule_step. reflexivity.
Qed.

(** C1. A handler is selected by the scheduling loop of
    [Evaluator.evaluate_scheduled] if and only if one of its three divisors
    [floor(wall_time / wall_dt)], [floor(sim_time / sim_dt)],
    [floor(iteration / iter)] strictly exceeds the divisor recorded at its
    last firing; a handler that fires has its three recorded divisors set to
    these fresh values, one that does not is left as it was.  A handler with
    [sim_dt = 1] and no other cadence, called at simulation times 0, 0.5, 1,
    1.5 and 2.2, is selected at the first, third and fifth call only. *)
Theorem C1_fires_iff_a_divisor_exceeds
    (s : State) (wall_time sim_time : Q) (iteration : Z)
    (i : nat) (h : Handler) :
  Forall well_configured (handlers s) ->
  handlers s !! i = Some h ->
  let wall_div := divisor wall_time (wall_dt h) in
  let sim_div := divisor sim_time (sim_dt h) in
  let iter_div := divisor (inject_Z iteration) (iter h) in
  (exists sched s',
     scheduled_handlers wall_time sim_time iteration s = (Done sched, s') /\
     (i ∈ sched <-> due h wall_div sim_div iter_div) /\
     (due h wall_div sim_div iter_div ->
        handlers s' !! i = Some (set_divisors wall_div sim_div iter_div h)) /\
     (~ due h wall_div sim_div iter_div -> handlers s' !! i = Some h))
  /\
  (forall (w0 w1 w2 w3 w4 : Q) (i0 i1 i2 i3 i4 : Z),
     Forall time_not_negative
       [(w0, 0%Q, i0); (w1, 1#2, i1); (w2, 1%Q, i2); (w3, 3#2, i3);
        (w4, 22#10, i4)] ->
     schedule_calls
       [(w0, 0%Q, i0); (w1, 1#2, i1); (w2, 1%Q, i2); (w3, 3#2, i3);
        (w4, 22#10, i4)]
       (lone_handler Inf (Fin 1) Inf)
     = [Done [0%nat]; Done []; Done [0%nat]; Done []; Done [0%nat]]).
Proof.
  intros Hok Hi wall_div sim_div iter_div. split; [|apply sim_dt_scenario].
  destruct (scheduled_handlers_at wall_time sim_time iteration s Hok)
    as (sched & s' & E & _ & Hat).
  exists sched, s'. split; [exact E|]. exact (Hat i h Hi).
Qed.

Lemma C1_witness :
  let s := lone_handler Inf (Fin (1#2)) Inf in
  let h := Handler_init None Inf (Fin (1#2)) Inf (SystemSink None) in
  (Forall well_configured (handlers s) /\ handlers s !! 0%nat = Some h) /\
  divisor (22#10) (sim_dt h) = 4 /\
  exists s',
    scheduled_handlers (1#2) (22#10) 7 s = (Done [0%nat], s') /\
    handlers s' !! 0%nat = Some (set_divisors 0 4 0 h).
Proof.
  intros s h.
  assert (Forall well_configured (handlers s)) as Hok.
  { repeat constructor. simpl. intros H. discriminate H. }
  assert (handlers s !! 0%nat = Some h) as Hi by reflexivity.
  split; [by split|]. split; [reflexivity|].
  destruct (C1_fires_iff_a_divisor_exceeds s (1#2) (22#10) 7 0 h Hok Hi)
    as [(sched & s' & E & _ & Hdue & _) _].
  exists s'. split.
  - rewrite E. f_equal. f_equal.
    assert (fst (scheduled_handlers (1#2) (22#10) 7 s) = Done [0%nat]) as H
      by reflexivity.
    rewrite E in H. simpl in H. by injection H.
  - apply Hdue. right. left. vm_compute. reflexivity.
Defined.

(** ** Infinite cadences *)

(** Dividing by [np.inf] never gives more than [0]. *)
Lemma floordiv_Inf_le_0 (x : Q) :
  exists d, floordiv x Inf = Done d /\ d <= 0.
Proof.
  simpl. destruct (Qle_bool 0 x); eexists; split; try reflexivity; lia.
Qed.

(** A handler without cadence, over successive calls at times that are not
    negative: the first call selects it if one of its recorded divisors is
    negative, and no later call selects it. *)
Lemma no_cadence_calls (i : nat) (calls : list (Q * Q * Z)) :
  Forall time_not_negative calls ->
  forall (s : State) (h : Handler),
    Forall well_configured (handlers s) ->
    handlers s !! i = Some h ->
    wall_dt h = Inf -> sim_dt h = Inf -> iter h = Inf ->
    forall k : nat, (k < length calls)%nat ->
      exists sched,
        schedule_calls calls s !! k = Some (Done sched) /\
        (i ∈ sched <-> k = 0%nat /\ due h 0 0 0).
Proof.
  induction 1 as [|[[wt st] it] calls (Hwt & Hst & Hit) _ IH];
    intros s h Hok Hi Hw Hs Hit' k Hk; [simpl in Hk; lia|].
  simpl in Hwt, Hst, Hit. cbn [schedule_calls].
  destruct (scheduled_handlers_at wt st it s Hok) as (sched & s' & E & Hok' & Hat).
  rewrite E. destruct (Hat i h Hi) as (Hiff & Hdue & Hnot).
  rewrite Hw, Hs, Hit' in Hiff, Hdue, Hnot.
  rewrite !divisor_Inf_not_negative in Hiff, Hdue, Hnot by assumption.
  rewrite divisor_Inf_iteration in Hiff, Hdue, Hnot by assumption.
  destruct k as [|k].
  { exists sched. split; [reflexivity|]. rewrite Hiff. tauto. }
  cbn [length] in Hk.
  assert (exists h', handlers s' !! i = Some h' /\
            wall_dt h' = Inf /\ sim_dt h' = Inf /\ iter h' = Inf /\
            ~ due h' 0 0 0) as (h' & Hi' & Hw' & Hs' & Hit'' & Hquiet).
  { destruct (decide (due h 0 0 0)) as [Hd|Hd].
    - exists (set_divisors 0 0 0 h). split; [by apply Hdue|].
      repeat split; try assumption. unfold due. simpl. lia.
    - exists h. split; [by apply Hnot|]. by repeat split. }
  destruct (IH s' h' Hok' Hi' Hw' Hs' Hit'' k) as (sched' & Ek & Hiff');
    [lia|].
  exists sched'. split; [exact Ek|]. rewrite Hiff'. split; [tauto|].
  intros [? _]. discriminate.
Qed.

(** C4, as the code has it.  On a channel whose cadence is infinite the
    divisor is never above [0]: within the scheduling loop, such a channel
    does not select a handler whose recorded divisor for it is [0] or more
    (the handler is selected exactly when another channel is due), and it
    does select it while the recorded divisor is negative (the initial [-1])
    and the time is not negative.  A handler with no cadence at all, in any
    registry, is therefore selected by the first call of the scheduling loop
    if one of its recorded divisors is still negative, and by no later
    call. *)
Theorem C4_infinite_cadence_fires_at_first_call_only
    (s : State) (i : nat) (h : Handler) :
  Forall well_configured (handlers s) ->
  handlers s !! i = Some h ->
  (forall (wall_time sim_time : Q) (iteration : Z),
     let wall_div := divisor wall_time (wall_dt h) in
     let sim_div := divisor sim_time (sim_dt h) in
     let iter_div := divisor (inject_Z iteration) (iter h) in
     exists sched s',
       scheduled_handlers wall_time sim_time iteration s = (Done sched, s') /\
       (wall_dt h = Inf ->
          (0 <= last_wall_div h ->
             (i ∈ sched <->
                last_sim_div h < sim_div \/ last_iter_div h < iter_div)) /\
          ((0 <= wall_time)%Q -> last_wall_div h < 0 -> i ∈ sched)) /\
       (sim_dt h = Inf ->
          (0 <= last_sim_div h ->
             (i ∈ sched <->
                last_wall_div h < wall_div \/ last_iter_div h < iter_div)) /\
          ((0 <= sim_time)%Q -> last_sim_div h < 0 -> i ∈ sched)) /\
       (iter h = Inf ->
          (0 <= last_iter_div h ->
             (i ∈ sched <->
                last_wall_div h < wall_div \/ last_sim_div h < sim_div)) /\
          (0 <= iteration -> last_iter_div h < 0 -> i ∈ sched))) /\
  (wall_dt h = Inf -> sim_dt h = Inf -> iter h = Inf ->
   forall calls : list (Q * Q * Z),
     Forall time_not_negative calls ->
     forall k : nat, (k < length calls)%nat ->
       exists sched,
         schedule_calls calls s !! k = Some (Done sched) /\
         (i ∈ sched <->
            k = 0%nat /\
            (last_wall_div h < 0 \/ last_sim_div h < 0 \/ last_iter_div h < 0))).
Proof.
  intros Hok Hi. split.
  - intros wall_time sim_time iteration wall_div sim_div iter_div.
    destruct (scheduled_handlers_at wall_time sim_time iteration s Hok)
      as (sched & s' & E & _ & Hat).
    destruct (Hat i h Hi) as (Hiff & _). fold wall_div sim_div iter_div in Hiff.
    unfold due in Hiff.
    exists sched, s'. split; [exact E|]. split; [|split].
    + intros Hinf.
      pose proof (divisor_Inf_le_0 wall_time) as Hle.
      pose proof (divisor_Inf_not_negative wall_time) as Hzero.
      rewrite <- Hinf in Hle, Hzero. fold wall_div in Hle, Hzero.
      split; [intros Hlast; rewrite Hiff; lia|].
      intros Ht Hlast. apply Hiff. specialize (Hzero Ht). lia.
    + intros Hinf.
      pose proof (divisor_Inf_le_0 sim_time) as Hle.
      pose proof (divisor_Inf_not_negative sim_time) as Hzero.
      rewrite <- Hinf in Hle, Hzero. fold sim_div in Hle, Hzero.
      split; [intros Hlast; rewrite Hiff; lia|].
      intros Ht Hlast. apply Hiff. specialize (Hzero Ht). lia.
    + intros Hinf.
      pose proof (divisor_Inf_le_0 (inject_Z iteration)) as Hle.
      pose proof (divisor_Inf_iteration iteration) as Hzero.
      rewrite <- Hinf in Hle, Hzero. fold iter_div in Hle, Hzero.
      split; [intros Hlast; rewrite Hiff; lia|].
      intros Ht Hlast. apply Hiff. specialize (Hzero Ht). lia.
  - intros Hw Hs Hit calls Hcalls k Hk.
    destruct (no_cadence_calls i calls Hcalls s h Hok Hi Hw Hs Hit k Hk)
      as (sched & E & Hiff).
    exists sched. split; [exact E|]. rewrite Hiff. unfold due. tauto.
Qed.

Lemma C4_witness :
  let h0 := Handler_init None Inf (Fin 1) Inf (DictionarySink ∅) in
  let h1 := Handler_init (Some "snapshots") Inf Inf Inf (SystemSink None) in
  let s := add_handlers [h0; h1] (Evaluator_init 1 (fun _ => 0%nat)) in
  let calls := [(0%Q, 0%Q, 0); (1#2, 1#3, 1); (5#2, 4#3, 2)] in
  (Forall well_configured (handlers s) /\ handlers s !! 1%nat = Some h1 /\
   Forall time_not_negative calls) /\
  schedule_calls calls s = [Done [0%nat; 1%nat]; Done []; Done [0%nat]] /\
  exists sched,
    schedule_calls calls s !! 0%nat = Some (Done sched) /\ 1%nat ∈ sched.
Proof.
  intros h0 h1 s calls.
  assert (Forall well_configured (handlers s)) as Hok.
  { repeat constructor. simpl. intros H. discriminate H. }
  assert (handlers s !! 1%nat = Some h1) as Hi by reflexivity.
  assert (Forall time_not_negative calls) as Hcalls.
  { repeat constructor; simpl; try lia; by intros ?. }
  split; [by repeat split|]. split; [reflexivity|].
  destruct (proj2 (C4_infinite_cadence_fires_at_first_call_only s 1 h1 Hok Hi)
              eq_refl eq_refl eq_refl calls Hcalls 0%nat)
    as (sched & E & Hiff); [simpl; lia|].
  exists sched. split; [exact E|]. apply Hiff. split; [reflexivity|].
  left. simpl. lia.
Defined.

(** C4, as the spec states it, fails: a handler created with the three
    default (infinite) cadences is selected by the first call of the
    scheduling loop at time zero. *)
Lemma C4_default_handler_fires :
  fst (scheduled_handlers 0 0 0 (lone_handler Inf Inf Inf)) = Done [0%nat].
Proof. reflexivity. Qed.

(** * What a method leaves unchanged *)

Section Frames.

Context {X : Type} (obs : State -> X).

Lemma preserves_ret {A} (a : A) : preserves obs (mret a).
Proof. intros s. reflexivity. Qed.

Lemma preserves_bind {A B} (m : M A) (k : A -> M B) :
  preserves obs m -> (forall a, preserves obs (k a)) -> preserves obs (m ≫= k).
Proof.
  intros Hm Hk s. unfold mbind, M_bind. specialize (Hm s).
  destruct (m s) as [[a|e|] s']; simpl in *; try assumption.
  rewrite Hk. assumption.
Qed.

Lemma preserves_modify (f : State -> State) :
  (forall s, obs (f s) = obs s) -> preserves obs (modify f).
Proof. intros Hf s. apply Hf. Qed.

Lemma preserves_reading {A B} (read : State -> B) (m : B -> M A) :
  (forall b, preserves obs (m b)) -> preserves obs (fun s => m (read s) s).
Proof. intros Hm s. apply Hm. Qed.

Lemma preserves_for_each {A} (body : A -> M unit) (xs : list A) :
  (forall x, preserves obs (body x)) -> preserves obs (for_each body xs).
Proof.
  intros Hb. induction xs as [|x xs IH]; simpl.
  - apply preserves_ret.
  - apply preserves_bind; [apply Hb|intros _; apply IH].
Qed.

Lemma preserves_task_out (t : Task) : preserves obs (task_out t).
Proof. intros s. unfold task_out. by destruct (outs s !! tid t). Qed.

Hypothesis obs_layouts : forall ls s, obs (with_layouts ls s) = obs s.
Hypothesis obs_outs : forall o s, obs (with_outs o s) = obs s.

Lemma preserves_attempt_tasks (id : Q) (ts : list Task) (s : State) :
  obs (snd (attempt_tasks id ts s)) = obs s.
Proof.
  revert s. induction ts as [|t ts IH]; intros s; simpl; [reflexivity|].
  destruct (attempt (operator t) id (layouts s)).
  - rewrite IH. apply obs_outs.
  - specialize (IH s). destruct (attempt_tasks id ts s). exact IH.
Qed.

Lemma preserves_osc_body (id : Q) (o : Osc) (s : State) :
  obs (snd (osc_body id o s)) = obs s.
Proof.
  unfold osc_body.
  match goal with
  | |- context [attempt_tasks ?i ?t ?s1] =>
      pose proof (preserves_attempt_tasks i t s1) as H;
      destruct (attempt_tasks i t s1)
  end.
  simpl in *. rewrite H. apply obs_layouts.
Qed.

Lemma preserves_oscillate (fuel : nat) (id : Q) (o : Osc) :
  preserves obs (oscillate fuel id o).
Proof.
  revert o. induction fuel as [|fuel IH]; intros o s; simpl;
    destruct (osc_tasks o); try reflexivity.
  pose proof (preserves_osc_body id o s) as H.
  destruct (osc_body id o s) as [o' s']. simpl in H.
  rewrite IH. exact H.
Qed.

Lemma preserves_first_attempts (id : Q) (ts : list Task) (s : State) :
  obs (snd (first_attempts id ts s)) = obs s.
Proof.
  unfold first_attempts.
  pose proof (preserves_attempt_tasks id ts s) as H1.
  destruct (attempt_tasks id ts s) as [u1 s1]. simpl in H1.
  match goal with
  | |- context [attempt_tasks ?i ?t ?s2] =>
      pose proof (preserves_attempt_tasks i t s2) as H2;
      destruct (attempt_tasks i t s2)
  end.
  simpl in *. rewrite H2, obs_layouts. exact H1.
Qed.

Lemma preserves_dealias (hs : list nat) : preserves obs (dealias hs).
Proof.
  apply preserves_for_each. intros i.
  apply (preserves_reading (fun s => handler_tasks s i)
           (fun ts => for_each dealias_task ts)).
  intros ts. apply preserves_for_each. intros t.
  apply preserves_bind; [apply preserves_task_out|].
  intros f. apply preserves_modify. intros s. apply obs_layouts.
Qed.

Lemma preserves_resolve (fuel : nat) (hs : list nat) (id : Q) :
  preserves obs (resolve fuel hs id).
Proof.
  intros s. unfold resolve.
  pose proof (preserves_first_attempts id (all_tasks s hs) s) as H.
  destruct (first_attempts id (all_tasks s hs) s) as [o s1]. simpl in H.
  rewrite <- H.
  apply (preserves_bind (oscillate fuel id o) (fun _ => dealias hs)).
  - apply preserves_oscillate.
  - intros _. apply preserves_dealias.
Qed.

Lemma preserves_require_task_layout (t : Task) :
  preserves obs (require_task_layout t).
Proof.
  apply preserves_bind; [apply preserves_task_out|]. intros f.
  apply preserves_bind; [|intros _; apply preserves_ret].
  apply preserves_modify. intros s. apply obs_layouts.
Qed.

End Frames.

(** * Group evaluation and the cadence state *)

Lemma cadences_alter (f : Handler -> Handler) (i : nat) (hs : list Handler) :
  (forall h, cadence_state (f h) = cadence_state h) ->
  cadence_state <$> alter f i hs = cadence_state <$> hs.
Proof.
  intros Hf. revert i. induction hs as [|h hs IH]; intros [|i]; simpl;
    try reflexivity.
  - by rewrite Hf.
  - f_equal. apply IH.
Qed.

Lemma cadence_state_set_sink (k : Sink) (h : Handler) :
  cadence_state (set_sink k h) = cadence_state h.
Proof. reflexivity. Qed.

Lemma preserves_cadences_process (env : nat -> Stat) (i : nat)
    (wt st : Q) (it : Z) :
  preserves cadences (process env i wt st it).
Proof.
  assert (forall t, preserves cadences (require_task_layout t)) as Hreq.
  { intros t. by apply preserves_require_task_layout. }
  intros s. unfold process.
  destruct (handlers s !! i) as [h|]; [|reflexivity].
  destruct (sink h) as [d|[sys|]|fh]; [| reflexivity | reflexivity |].
  - revert s.
    apply (preserves_reading cadences (fun s => handler_tasks s i)
             (fun ts => for_each
                (fun t => out ← require_task_layout t; dictionary_store i t out)
                ts)).
    intros ts. apply preserves_for_each. intros t.
    apply preserves_bind; [apply Hreq|]. intros out.
    apply preserves_modify. intros s. unfold cadences. simpl.
    apply cadences_alter. intros h0. by destruct (sink h0).
  - unfold process_file. destruct (begin_write fh (env i)) as [fh'|e|];
      try reflexivity.
    revert s.
    apply (preserves_reading cadences (fun s => handler_tasks s i)
             (fun ts => modify (fun s => with_handlers
                          (alter (set_sink (FileSink fh')) i (handlers s)) s) ;;
                        for_each (fun t => require_task_layout t ;; mret tt) ts)).
    intros ts. apply preserves_bind.
    + apply preserves_modify. intros s. unfold cadences. simpl.
      apply cadences_alter. intros h0. reflexivity.
    + intros _. apply preserves_for_each. intros t.
      apply preserves_bind; [apply Hreq|]. intros _. apply preserves_ret.
Qed.

Lemma preserves_cadences_evaluate_handlers (fuel : nat) (env : nat -> Stat)
    (hs : list nat) (wt st : Q) (it : Z) :
  preserves cadences (evaluate_handlers fuel env hs wt st it).
Proof.
  apply preserves_bind.
  - by apply preserves_resolve.
  - intros _. apply preserves_for_each. intros i.
    apply preserves_cadences_process.
Qed.

(** The scheduling loop reads nothing of a handler but its cadence state. *)
Lemma schedule_handler_cadence_state (wt st : Q) (it : Z) (h1 h2 : Handler) :
  cadence_state h1 = cadence_state h2 ->
  match schedule_handler wt st it h1, schedule_handler wt st it h2 with
  | Done (b1, h1'), Done (b2, h2') =>
      b1 = b2 /\ cadence_state h1' = cadence_state h2'
  | Raised e1, Raised e2 => e1 = e2
  | OutOfFuel, OutOfFuel => True
  | _, _ => False
  end.
Proof.
  unfold cadence_state, divisors. intros H. injection H as Hw Hs Hi Hlw Hls Hli.
  unfold schedule_handler. rewrite Hw, Hs, Hi, Hlw, Hls, Hli.
  destruct (floordiv wt (wall_dt h2)); try done.
  destruct (floordiv st (sim_dt h2)); try done.
  destruct (floordiv (inject_Z it) (iter h2)); try done.
  destruct (_ || _ || _); split; try reflexivity.
  - unfold cadence_state, divisors. simpl. congruence.
  - unfold cadence_state, divisors. congruence.
Qed.

Lemma select_scheduled_cadence_state (wt st : Q) (it : Z)
    (hs1 hs2 : list Handler) (k : nat) :
  cadence_state <$> hs1 = cadence_state <$> hs2 ->
  fst (select_scheduled wt st it k hs1) = fst (select_scheduled wt st it k hs2).
Proof.
  revert hs2 k. induction hs1 as [|h1 hs1 IH]; intros [|h2 hs2] k H;
    try discriminate; [reflexivity|].
  rewrite !fmap_cons in H. apply (inj2 cons) in H as [Hh Hhs]. simpl.
  pose proof (schedule_handler_cadence_state wt st it h1 h2 Hh) as Hstep.
  destruct (schedule_handler wt st it h1) as [[b1 h1']|e1|],
           (schedule_handler wt st it h2) as [[b2 h2']|e2|];
    try contradiction; simpl; [|congruence|reflexivity].
  destruct Hstep as [-> _].
  specialize (IH hs2 (S k) Hhs).
  destruct (select_scheduled wt st it (S k) hs1),
           (select_scheduled wt st it (S k) hs2).
  simpl in *. by rewrite IH.
Qed.

(** C10. [Evaluator.evaluate_group] leaves the cadences and the recorded
    divisors [last_wall_div], [last_sim_div], [last_iter_div] of every
    handler as they were, whatever the evaluation does (it may finish,
    raise, or still be running); the handlers a later
    [evaluate_scheduled] selects are therefore the same as without the
    group evaluation. *)
Theorem C10_evaluate_group_keeps_cadence_state
    (fuel : nat) (env : nat -> Stat) (g : string)
    (wall_time sim_time : Q) (iteration : Z) (s : State) :
  let s' := snd (evaluate_group fuel env g wall_time sim_time iteration s) in
  cadences s' = cadences s /\
  (forall i : nat,
     divisors <$> (handlers s' !! i) = divisors <$> (handlers s !! i)) /\
  (forall (wt st : Q) (it : Z),
     fst (scheduled_handlers wt st it s') = fst (scheduled_handlers wt st it s)).
Proof.
  intros s'.
  assert (cadences s' = cadences s) as Hc.
  { subst s'. unfold evaluate_group.
    rewrite preserves_cadences_evaluate_handlers. reflexivity. }
  split; [exact Hc|]. split.
  - intros i. unfold cadences in Hc.
    apply (f_equal (fun l => snd <$> (l !! i))) in Hc.
    rewrite !list_lookup_fmap in Hc.
    destruct (handlers s' !! i), (handlers s !! i); simpl in *; congruence.
  - intros wt st it. unfold scheduled_handlers.
    pose proof (select_scheduled_cadence_state wt st it _ _ 0%nat Hc) as H.
    destruct (select_scheduled wt st it 0 (handlers s')),
             (select_scheduled wt st it 0 (handlers s)).
    exact H.
Qed.

(** * The resolution phase *)


Lemma attempt_tasks_handlers (id : Q) (ts : list Task) (s : State) :
  handlers (snd (attempt_tasks id ts s)) = handlers s.
Proof. by apply (preserves_attempt_tasks handlers). Qed.

Lemma attempt_tasks_layouts (id : Q) (ts : list Task) (s : State) :
  layouts (snd (attempt_tasks id ts s)) = layouts s.
Proof.
  revert s. induction ts as [|t ts IH]; intros s; simpl; [reflexivity|].
  destruct (attempt (operator t) id (layouts s)).
  - by rewrite IH.
  - specialize (IH s). by destruct (attempt_tasks id ts s).
Qed.

Lemma attempt_tasks_Lmax (id : Q) (ts : list Task) (s : State) :
  Lmax (snd (attempt_tasks id ts s)) = Lmax s.
Proof. by apply (preserves_attempt_tasks Lmax). Qed.

(** An attempt never removes an ['out'] entry, and every task it is given is
    either still unfinished or has its ['out']. *)
Lemma attempt_tasks_outs (id : Q) (ts : list Task) (s : State) :
  (forall t, has_out s t -> has_out (snd (attempt_tasks id ts s)) t) /\
  (forall t, t ∈ ts ->
     t ∈ fst (attempt_tasks id ts s) \/ has_out (snd (attempt_tasks id ts s)) t) /\
  (forall t, t ∈ fst (attempt_tasks id ts s) -> t ∈ ts).
Proof.
  revert s. induction ts as [|t ts IH]; intros s; simpl.
  { split; [tauto|]. split; intros t Ht; [inversion Ht|exact Ht]. }
  destruct (attempt (operator t) id (layouts s)) as [out|] eqn:E.
  - destruct (IH (with_outs (<[tid t := out]> (outs s)) s)) as (Hmono & Hall & Hsub).
    assert (forall t', has_out s t' ->
              has_out (with_outs (<[tid t := out]> (outs s)) s) t') as Hins.
    { intros t' [f Hf]. unfold has_out. simpl.
      destruct (decide (tid t = tid t')) as [->|Hne].
      - rewrite lookup_insert_eq. eauto.
      - rewrite lookup_insert_ne by done. eauto. }
    split; [intros t' Ht'; apply Hmono, Hins, Ht'|]. split.
    + intros t' Ht'. apply elem_of_cons in Ht' as [->|Ht'].
      * right. apply Hmono. unfold has_out. simpl.
        rewrite lookup_insert_eq. eauto.
      * apply Hall, Ht'.
    + intros t' Ht'. apply elem_of_cons. right. apply Hsub, Ht'.
  - destruct (IH s) as (Hmono & Hall & Hsub).
    destruct (attempt_tasks id ts s) as [u s']. simpl in *.
    split; [exact Hmono|]. split.
    + intros t' Ht'. apply elem_of_cons in Ht' as [->|Ht'].
      * left. apply elem_of_cons. by left.
      * destruct (Hall t' Ht'); [left; apply elem_of_cons; by right|by right].
    + intros t' Ht'. apply elem_of_cons in Ht' as [->|Ht'];
        apply elem_of_cons; [by left|right; apply Hsub, Ht'].
Qed.

Lemma first_attempts_outs (id : Q) (ts : list Task) (s : State) :
  (forall t, has_out s t -> has_out (snd (first_attempts id ts s)) t) /\
  (forall t, t ∈ ts ->
     t ∈ osc_tasks (fst (first_attempts id ts s))
     \/ has_out (snd (first_attempts id ts s)) t).
Proof.
  unfold first_attempts.
  destruct (attempt_tasks_outs id ts s) as (Hm1 & Ha1 & _).
  destruct (attempt_tasks id ts s) as [u1 s1]. simpl in *.
  match goal with
  | |- context [attempt_tasks id u1 ?s2] =>
      destruct (attempt_tasks_outs id u1 s2) as (Hm2 & Ha2 & _);
      destruct (attempt_tasks id u1 s2) as [u2 s3]
  end.
  simpl in *. split.
  - intros t Ht. apply Hm2. apply Hm1 in Ht. exact Ht.
  - intros t Ht. destruct (Ha1 t Ht) as [Hu|Ho].
    + apply Ha2, Hu.
    + right. apply Hm2. exact Ho.
Qed.

Lemma osc_body_outs (id : Q) (o : Osc) (s : State) :
  (forall t, has_out s t -> has_out (snd (osc_body id o s)) t) /\
  (forall t, t ∈ osc_tasks o ->
     t ∈ osc_tasks (fst (osc_body id o s)) \/ has_out (snd (osc_body id o s)) t).
Proof.
  unfold osc_body.
  match goal with
  | |- context [attempt_tasks id (osc_tasks o) ?s1] =>
      destruct (attempt_tasks_outs id (osc_tasks o) s1) as (Hm & Ha & _);
      destruct (attempt_tasks id (osc_tasks o) s1) as [u s2]
  end.
  simpl in *. split; [exact Hm|exact Ha].
Qed.

(** When the loop is left by its test, every task that was pending or already
    finished has its ['out']; the loop itself raises nothing. *)
Lemma oscillate_outs (fuel : nat) (id : Q) (o : Osc) (s : State)
    (ts : list Task) :
  (forall t, t ∈ ts -> t ∈ osc_tasks o \/ has_out s t) ->
  fst (oscillate fuel id o s) = OutOfFuel \/
  (fst (oscillate fuel id o s) = Done tt /\
   forall t, t ∈ ts -> has_out (snd (oscillate fuel id o s)) t).
Proof.
  revert o s. induction fuel as [|fuel IH]; intros o s Hinv; simpl.
  - destruct (osc_tasks o) as [|t0 ts0] eqn:E; [right|by left].
    split; [reflexivity|]. intros t Ht. destruct (Hinv t Ht) as [Hin|Ho]; [|exact Ho].
    inversion Hin.
  - destruct (osc_tasks o) as [|t0 ts0] eqn:E.
    + right. split; [reflexivity|]. intros t Ht.
      destruct (Hinv t Ht) as [Hin|Ho]; [inversion Hin|exact Ho].
    + destruct (osc_body_outs id o s) as (Hm & Ha).
      destruct (osc_body id o s) as [o' s']. simpl in *.
      apply IH. intros t Ht. destruct (Hinv t Ht) as [Hin|Ho].
      * apply Ha. rewrite E. exact Hin.
      * right. apply Hm, Ho.
Qed.

Lemma set_layout_same (f l : nat) (ls : Layouts) : set_layout f l ls f = l.
Proof. unfold set_layout. by rewrite decide_True. Qed.

Lemma set_layout_other (f g l : nat) (ls : Layouts) :
  g <> f -> set_layout f l ls g = ls g.
Proof. intros H. unfold set_layout. by rewrite decide_False. Qed.

Lemma handler_tasks_handlers (s1 s2 : State) (i : nat) :
  handlers s1 = handlers s2 -> handler_tasks s1 i = handler_tasks s2 i.
Proof. intros H. unfold handler_tasks. by rewrite H. Qed.

Lemma elem_of_all_tasks (s : State) (hs : list nat) (t : Task) :
  t ∈ all_tasks s hs <-> exists i, i ∈ hs /\ t ∈ handler_tasks s i.
Proof.
  unfold all_tasks. rewrite list_elem_of_In, in_flat_map.
  split; intros (i & Hi & Ht); exists i; by rewrite ?list_elem_of_In in *.
Qed.

(** The dealiasing of a list of tasks that all have their ['out']. *)
Lemma dealias_tasks_spec (ts : list Task) (s : State) :
  (forall t, t ∈ ts -> has_out s t) ->
  exists s',
    for_each dealias_task ts s = (Done tt, s') /\
    outs s' = outs s /\ handlers s' = handlers s /\
    (forall f, layouts s f = 0%nat -> layouts s' f = 0%nat) /\
    (forall t, t ∈ ts ->
       exists f, outs s !! tid t = Some f /\ layouts s' f = 0%nat).
Proof.
  revert s. induction ts as [|t ts IH]; intros s Hall.
  { exists s. repeat split; try done. intros t Ht. inversion Ht. }
  destruct (Hall t) as [f Hf]; [apply elem_of_cons; by left|].
  set (s1 := with_layouts (require_coeff_space f (layouts s)) s).
  destruct (IH s1) as (s' & Erun & Houts & Hhs & Hzero & Hts).
  { intros t' Ht'. apply (Hall t'). apply elem_of_cons. by right. }
  exists s'. split.
  { cbn [for_each]. unfold mbind, M_bind, dealias_task at 1, mbind, M_bind, task_out.
    rewrite Hf. simpl. exact Erun. }
  split; [exact Houts|]. split; [exact Hhs|]. split.
  - intros g Hg. apply Hzero. simpl. unfold require_coeff_space.
    destruct (decide (g = f)) as [->|Hne].
    + apply set_layout_same.
    + by rewrite set_layout_other.
  - intros t' Ht'. apply elem_of_cons in Ht' as [->|Ht'].
    + exists f. split; [exact Hf|]. apply Hzero. simpl. apply set_layout_same.
    + apply Hts, Ht'.
Qed.

Lemma dealias_spec (hs : list nat) (s : State) :
  (forall i t, i ∈ hs -> t ∈ handler_tasks s i -> has_out s t) ->
  exists s',
    dealias hs s = (Done tt, s') /\
    outs s' = outs s /\ handlers s' = handlers s /\
    (forall f, layouts s f = 0%nat -> layouts s' f = 0%nat) /\
    (forall i t, i ∈ hs -> t ∈ handler_tasks s i ->
       exists f, outs s !! tid t = Some f /\ layouts s' f = 0%nat).
Proof.
  revert s. induction hs as [|i hs IH]; intros s Hall.
  { exists s. repeat split; try done. intros i t Hi. inversion Hi. }
  destruct (dealias_tasks_spec (handler_tasks s i) s)
    as (s1 & E1 & Ho1 & Hh1 & Hz1 & Ht1).
  { intros t Ht. apply (Hall i t); [apply elem_of_cons; by left|exact Ht]. }
  destruct (IH s1) as (s' & E' & Ho' & Hh' & Hz' & Ht').
  { intros j t Hj Ht. unfold has_out. rewrite Ho1.
    apply (Hall j t); [apply elem_of_cons; by right|].
    by rewrite <- (handler_tasks_handlers s1 s j). }
  exists s'. split.
  { unfold dealias in *. cbn [for_each]. unfold mbind at 1, M_bind at 1.
    rewrite E1. exact E'. }
  split; [congruence|]. split; [congruence|]. split; [auto|].
  intros j t Hj Ht. apply elem_of_cons in Hj as [->|Hj].
  - destruct (Ht1 t Ht) as (f & Hf & Hzero). exists f. auto.
  - destruct (Ht' j t Hj) as (f & Hf & Hzero).
    { by rewrite (handler_tasks_handlers s1 s j). }
    exists f. split; [congruence|exact Hzero].
Qed.

(** When the loop has finished, the resolution phase is done: it raises
    nothing, and leaves every ['out'] in coefficient space. *)
Lemma resolve_finished (fuel : nat) (hs : list nat) (id : Q) (s : State) :
  fst (resolve fuel hs id s) <> OutOfFuel ->
  fst (resolve fuel hs id s) = Done tt /\
  forall i t, i ∈ hs -> t ∈ handler_tasks s i ->
    exists out, outs (snd (resolve fuel hs id s)) !! tid t = Some out /\
                layouts (snd (resolve fuel hs id s)) out = 0%nat.
Proof.
  unfold resolve.
  destruct (first_attempts_outs id (all_tasks s hs) s) as (_ & Hfirst).
  pose proof (preserves_first_attempts handlers (fun _ _ => eq_refl)
                (fun _ _ => eq_refl) id (all_tasks s hs) s) as Hh1.
  destruct (first_attempts id (all_tasks s hs) s) as [o s1].
  simpl in Hfirst, Hh1.
  destruct (oscillate_outs fuel id o s1 (all_tasks s hs) Hfirst)
    as [Eout|[Edone Hall]].
  - unfold mbind, M_bind.
    destruct (oscillate fuel id o s1) as [r s2]. simpl in Eout.
    subst r. simpl. congruence.
  - pose proof (preserves_oscillate handlers (fun _ _ => eq_refl)
                  (fun _ _ => eq_refl) fuel id o s1) as Hh2.
    unfold mbind, M_bind.
    destruct (oscillate fuel id o s1) as [r s2]. simpl in *.
    subst r. intros _.
    assert (handlers s2 = handlers s) as Hh by congruence.
    destruct (dealias_spec hs s2) as (s3 & E3 & Ho3 & Hh3 & _ & Hts).
    { intros i t Hi Ht. apply Hall. apply elem_of_all_tasks.
      exists i. by rewrite <- (handler_tasks_handlers s2 s i). }
    rewrite E3. simpl. split; [reflexivity|].
    intros i t Hi Ht. destruct (Hts i t Hi) as (f & Hf & Hzero).
    { by rewrite (handler_tasks_handlers s2 s i). }
    exists f. split; [congruence|exact Hzero].
Qed.

(** C6. When the oscillation loop of [Evaluator.evaluate_handlers] has
    finished, the resolution phase raises nothing, and at its end (before
    the first [process] call) the ['out'] field of every task of every
    handler being evaluated is in coefficient space, the layout of index 0. *)
Theorem C6_outputs_in_coefficient_space_before_process
    (fuel : nat) (hs : list nat) (sim_time : Q) (s : State) :
  fst (resolve fuel hs sim_time s) <> OutOfFuel ->
  let s' := snd (resolve fuel hs sim_time s) in
  fst (resolve fuel hs sim_time s) = Done tt /\
  (forall i t, i ∈ hs -> t ∈ handler_tasks s i ->
     exists out, outs s' !! tid t = Some out /\ layouts s' out = 0%nat) /\
  (forall (env : nat -> Stat) (wall_time : Q) (iteration : Z),
     evaluate_handlers fuel env hs wall_time sim_time iteration s
     = for_each (fun i => process env i wall_time sim_time iteration) hs s').
Proof.
  intros Hfuel s'.
  destruct (resolve_finished fuel hs sim_time s Hfuel) as [Eres Hout].
  split; [exact Eres|]. split; [exact Hout|].
  intros env wall_time iteration. unfold evaluate_handlers, mbind, M_bind.
  subst s'. destruct (resolve fuel hs sim_time s) as [r s']. simpl in *.
  by subst r.
Qed.

Lemma C6_witness :
  let s := one_task 1 (computable_in 1 0 0) in
  let o0 := fst (first_attempts 0 (all_tasks s [0%nat]) s) in
  let s0 := snd (first_attempts 0 (all_tasks s [0%nat]) s) in
  let s1 := snd (oscillate 1 0 o0 s0) in
  (outs s1 !! 0%nat = Some 0%nat /\ layouts s1 0%nat = 1%nat) /\
  fst (resolve 1 [0%nat] 0 s) <> OutOfFuel /\
  outs (snd (resolve 1 [0%nat] 0 s)) !! 0%nat = Some 0%nat /\
  layouts (snd (resolve 1 [0%nat] 0 s)) 0%nat = 0%nat.
Proof.
  intros s o0 s0 s1. split; [by split|].
  assert (fst (resolve 1 [0%nat] 0 s) <> OutOfFuel) as H
    by (vm_compute; discriminate).
  split; [exact H|].
  destruct (C6_outputs_in_coefficient_space_before_process 1 [0%nat] 0 _ H)
    as (_ & Hout & _).
  destruct (Hout 0%nat
              {| operator := computable_in 1 0 0; layout := 1; name := "task";
                 tid := 0 |}) as (out & Eout & Hcoeff).
  - apply elem_of_cons. by left.
  - apply elem_of_cons. by left.
  - assert (outs (snd (resolve 1 [0%nat] 0 s)) !! 0%nat = Some 0%nat) as E
      by reflexivity.
    split; [exact E|]. simpl in Eout. rewrite E in Eout.
    injection Eout as <-. exact Hcoeff.
Defined.

(** * The oscillation *)

Lemma oset_add_spec (x : nat) (s : list nat) :
  NoDup s -> NoDup (oset_add x s) /\ forall y, y ∈ oset_add x s <-> y = x \/ y ∈ s.
Proof.
  intros Hs. unfold oset_add. destruct (decide (x ∈ s)) as [Hin|Hin].
  - split; [exact Hs|]. intros y. split; [by right|]. by intros [->|?].
  - split.
    + apply NoDup_app. split; [exact Hs|]. split; [|apply NoDup_singleton].
      intros y Hy Hy'. apply list_elem_of_singleton in Hy'. by subst.
    + intros y. rewrite elem_of_app, list_elem_of_singleton. tauto.
Qed.

Lemma oset_update_spec (xs s : list nat) :
  NoDup s ->
  NoDup (oset_update s xs) /\
  forall y, y ∈ oset_update s xs <-> y ∈ xs \/ y ∈ s.
Proof.
  revert s. induction xs as [|x xs IH]; intros s Hs; simpl.
  - split; [exact Hs|]. intros y. split; [by right|]. intros [H|H]; [inversion H|done].
  - destruct (oset_add_spec x s Hs) as [Hnd Hadd].
    destruct (IH _ Hnd) as [Hnd' Hup]. split; [exact Hnd'|].
    intros y. unfold oset_update in Hup. rewrite Hup, Hadd, elem_of_cons. tauto.
Qed.

Lemma get_fields_from (ts : list Task) (acc : list nat) :
  NoDup acc ->
  NoDup (foldl (fun acc t => oset_update acc (field_set (operator t))) acc ts) /\
  forall f,
    f ∈ foldl (fun acc t => oset_update acc (field_set (operator t))) acc ts
    <-> f ∈ acc \/ exists t, t ∈ ts /\ f ∈ field_set (operator t).
Proof.
  revert acc. induction ts as [|t ts IH]; intros acc Hacc; simpl.
  - split; [exact Hacc|]. intros f. split; [by left|].
    intros [H|(t & Ht & _)]; [done|inversion Ht].
  - destruct (oset_update_spec (field_set (operator t)) acc Hacc) as [Hnd Hup].
    destruct (IH _ Hnd) as [Hnd' Hall]. split; [exact Hnd'|].
    intros f. rewrite Hall, Hup. split.
    + intros [[Hf|Hf]|(t' & Ht' & Hf)].
      * right. exists t. split; [apply elem_of_cons; by left|exact Hf].
      * by left.
      * right. exists t'. split; [apply elem_of_cons; by right|exact Hf].
    + intros [Hf|(t' & Ht' & Hf)]; [by left; right|].
      apply elem_of_cons in Ht' as [->|Ht']; [by left; left|].
      right. by exists t'.
Qed.

(** [get_fields] has every field of every task, once. *)
Lemma get_fields_spec (ts : list Task) :
  NoDup (get_fields ts) /\
  forall f, f ∈ get_fields ts <-> exists t, t ∈ ts /\ f ∈ field_set (operator t).
Proof.
  destruct (get_fields_from ts [] (NoDup_nil_2)) as [Hnd Hall].
  split; [exact Hnd|]. intros f. unfold get_fields. rewrite Hall.
  split; [intros [H|H]; [inversion H|exact H]|by right].
Qed.


Lemma transform_fields (Lmax : nat) (dL : Z) (fs : list nat) (ls : Layouts)
    (f : nat) :
  NoDup fs ->
  foldl (transform Lmax dL) ls fs f
  = if decide (f ∈ fs) then layout_step Lmax dL (ls f) else ls f.
Proof.
  revert ls. induction fs as [|g fs IH]; intros ls Hnd; cbn [foldl].
  - rewrite decide_False; [reflexivity|]. intros H. inversion H.
  - apply NoDup_cons in Hnd as [Hg Hnd]. rewrite IH by exact Hnd.
    assert (forall h, transform Lmax dL ls g h
                      = if decide (h = g) then layout_step Lmax dL (ls g) else ls h)
      as Hstep.
    { intros h. unfold transform, layout_step, towards_grid_space,
        towards_coeff_space, set_layout. by destruct (0 <? dL). }
    destruct (decide (f ∈ fs)) as [Hin|Hin].
    + rewrite decide_True by (apply elem_of_cons; by right).
      rewrite Hstep. rewrite decide_False; [reflexivity|]. intros ->. done.
    + rewrite Hstep. destruct (decide (f = g)) as [->|Hne].
      * rewrite decide_True by (apply elem_of_cons; by left). reflexivity.
      * rewrite decide_False; [reflexivity|].
        intros H. apply elem_of_cons in H as [?|?]; done.
Qed.

Lemma coeff_fields (fs : list nat) (ls : Layouts) (f : nat) :
  foldl (fun ls f => require_coeff_space f ls) ls fs f
  = if decide (f ∈ fs) then 0%nat else ls f.
Proof.
  revert ls. induction fs as [|g fs IH]; intros ls; cbn [foldl].
  - rewrite decide_False; [reflexivity|]. intros H. inversion H.
  - rewrite IH. unfold require_coeff_space, set_layout.
    destruct (decide (f ∈ fs)) as [Hin|Hin].
    + rewrite decide_True by (apply elem_of_cons; by right). reflexivity.
    + destruct (decide (f = g)) as [->|Hne].
      * rewrite decide_True by (apply elem_of_cons; by left). reflexivity.
      * rewrite decide_False; [reflexivity|].
        intros H. apply elem_of_cons in H as [?|?]; done.
Qed.

(** What an attempt leaves unfinished is what cannot be computed in the
    current layouts. *)
Lemma attempt_tasks_unfinished (id : Q) (ts : list Task) (s : State) (t : Task) :
  t ∈ fst (attempt_tasks id ts s)
  <-> t ∈ ts /\ attempt (operator t) id (layouts s) = None.
Proof.
  revert s. induction ts as [|t0 ts IH]; intros s; simpl.
  { split; [intros H; inversion H|intros [H _]; inversion H]. }
  destruct (attempt (operator t0) id (layouts s)) as [out|] eqn:E.
  - rewrite IH. simpl. rewrite elem_of_cons. split; [tauto|].
    intros [[->|H] Hn]; [congruence|tauto].
  - specialize (IH s). destruct (attempt_tasks id ts s) as [u s']. simpl in *.
    rewrite !elem_of_cons, IH. split.
    + intros [->|[? ?]]; tauto.
    + intros [[->|?] ?]; tauto.
Qed.

Section Lockstep.

Variable id : Q.

Lemma first_attempts_spec (ts : list Task) (s : State) :
  let o0 := fst (first_attempts id ts s) in
  let s0 := snd (first_attempts id ts s) in
  osc_L o0 = 0 /\ Lmax s0 = Lmax s /\
  (forall t, t ∈ osc_tasks o0 <->
     t ∈ ts /\ attempt (operator t) id (layouts s) = None /\
     attempt (operator t) id (layouts s0) = None) /\
  (forall t, t ∈ ts -> attempt (operator t) id (layouts s) = None ->
     fields_at (layouts s0) (operator t) 0).
Proof.
  unfold first_attempts.
  pose proof (attempt_tasks_unfinished id ts s) as Hu1.
  pose proof (attempt_tasks_layouts id ts s) as Hl1.
  pose proof (attempt_tasks_Lmax id ts s) as HL1.
  destruct (attempt_tasks id ts s) as [u1 s1]. simpl in Hu1, Hl1, HL1.
  match goal with
  | |- context [attempt_tasks id u1 ?s2] =>
      pose proof (attempt_tasks_unfinished id u1 s2) as Hu2;
      pose proof (attempt_tasks_layouts id u1 s2) as Hl2;
      pose proof (attempt_tasks_Lmax id u1 s2) as HL2;
      destruct (attempt_tasks id u1 s2) as [u2 s3]
  end.
  simpl in *. split; [reflexivity|]. split; [congruence|]. split.
  - intros t. rewrite Hu2, Hu1, Hl2. tauto.
  - intros t Ht Hnone f Hf. rewrite Hl2, coeff_fields.
    rewrite decide_True; [reflexivity|].
    apply get_fields_spec. exists t. split; [|exact Hf]. by apply Hu1.
Qed.

Lemma first_attempts_lockstep (ts : list Task) (s : State) :
  lockstep id 0 (fst (first_attempts id ts s)) (snd (first_attempts id ts s)).
Proof.
  destruct (first_attempts_spec ts s) as (HL & _ & Hin & Hzero).
  split; [|right; split; [exact HL|done]].
  intros t Ht. apply Hin in Ht as (Ht & Hn & Hn0). split; [by apply Hzero|exact Hn0].
Qed.

(** One pass of the loop below the last layout: every field of a pending
    task moves one step towards grid space. *)
Lemma osc_body_lockstep (m : nat) (o : Osc) (s : State) :
  (m < Lmax s)%nat ->
  osc_tasks o <> [] ->
  lockstep id m o s ->
  let o' := fst (osc_body id o s) in
  let s' := snd (osc_body id o s) in
  lockstep id (S m) o' s' /\ Lmax s' = Lmax s /\
  osc_L o' = Z.of_nat (S m) /\
  (forall t, t ∈ osc_tasks o -> fields_at (layouts s') (operator t) (S m)) /\
  (forall t, t ∈ osc_tasks o' <->
     t ∈ osc_tasks o /\ attempt (operator t) id (layouts s') = None).
Proof.
  intros Hm Hne (Hfields & [Hempty|(HL & HdL)]); [done|].
  assert (turn (Lmax s) (osc_L o) (osc_dL o) = 1) as Hturn.
  { unfold turn. rewrite HL. destruct m as [|m]; [reflexivity|].
    rewrite HdL by done.
    destruct (Z.eqb_spec (Z.of_nat (S m)) 0); [lia|].
    destruct (Z.eqb_spec (Z.of_nat (S m)) (Z.of_nat (Lmax s))); [lia|reflexivity]. }
  unfold osc_body. rewrite Hturn.
  match goal with
  | |- context [attempt_tasks id (osc_tasks o) ?s1] =>
      pose proof (attempt_tasks_unfinished id (osc_tasks o) s1) as Hu;
      pose proof (attempt_tasks_layouts id (osc_tasks o) s1) as Hl;
      pose proof (attempt_tasks_Lmax id (osc_tasks o) s1) as HLm;
      destruct (attempt_tasks id (osc_tasks o) s1) as [u s2]
  end.
  simpl in *.
  assert (forall t, t ∈ osc_tasks o -> fields_at (layouts s2) (operator t) (S m))
    as Hmoved.
  { intros t Ht f Hf. rewrite Hl.
    rewrite transform_fields by apply get_fields_spec.
    rewrite decide_True by (apply get_fields_spec; eauto).
    destruct (Hfields t Ht) as [Hat _]. rewrite (Hat f Hf).
    unfold layout_step. simpl. lia. }
  split; [|split; [exact HLm|split; [lia|split; [exact Hmoved|]]]].
  - split.
    + intros t Ht. apply Hu in Ht as [Ht Hn]. rewrite Hl. split; [|exact Hn].
      rewrite <- Hl. by apply Hmoved.
    + right. simpl. split; [lia|done].
  - intros t. rewrite Hu, Hl. reflexivity.
Qed.

(** [n] passes from layout [m], while the last layout is not passed. *)
Lemma osc_rounds_lockstep (n m : nat) (o : Osc) (s : State) :
  (m + n <= Lmax s)%nat ->
  lockstep id m o s ->
  lockstep id (m + n) (fst (osc_rounds id n o s)) (snd (osc_rounds id n o s)) /\
  Lmax (snd (osc_rounds id n o s)) = Lmax s.
Proof.
  revert m o s. induction n as [|n IH]; intros m o s Hm Hinv; simpl.
  { replace (m + 0)%nat with m by lia. done. }
  destruct (osc_tasks o) as [|t0 ts0] eqn:E.
  - simpl. split; [|reflexivity]. split; [|by left].
    intros t Ht. rewrite E in Ht. inversion Ht.
  - destruct (osc_body_lockstep m o s) as (Hinv' & HL & _); [lia|congruence|done|].
    destruct (osc_body id o s) as [o' s']. simpl in *.
    destruct (IH (S m) o' s') as [Hinv'' HL'']; [lia|exact Hinv'|].
    replace (m + S n)%nat with (S m + n)%nat by lia. split; [exact Hinv''|congruence].
Qed.

(** The pending tasks only get fewer, and a task that left the list has its
    ['out']. *)
Lemma osc_rounds_pending (n : nat) (o : Osc) (s : State) :
  (forall t, t ∈ osc_tasks (fst (osc_rounds id n o s)) -> t ∈ osc_tasks o) /\
  (forall t, has_out s t -> has_out (snd (osc_rounds id n o s)) t) /\
  (forall t, t ∈ osc_tasks o ->
     t ∈ osc_tasks (fst (osc_rounds id n o s))
     \/ has_out (snd (osc_rounds id n o s)) t).
Proof.
  revert o s. induction n as [|n IH]; intros o s; simpl; [by auto|].
  destruct (osc_tasks o) as [|t0 ts0] eqn:E; simpl.
  { rewrite E. by auto. }
  destruct (osc_body_outs id o s) as (Hm & Ha).
  assert (forall t, t ∈ osc_tasks (fst (osc_body id o s)) -> t ∈ osc_tasks o)
    as Hsub.
  { unfold osc_body. intros t.
    match goal with
    | |- context [attempt_tasks id (osc_tasks o) ?s1] =>
        pose proof (attempt_tasks_unfinished id (osc_tasks o) s1 t) as Hu;
        destruct (attempt_tasks id (osc_tasks o) s1) as [u s2]
    end. simpl in *. tauto. }
  destruct (osc_body id o s) as [o' s']. simpl in *.
  destruct (IH o' s') as (Hsub' & Hm' & Ha').
  rewrite <- E. split; [auto|]. split; [auto|].
  intros t Ht. destruct (Ha t Ht) as [Hin|Ho]; [apply Ha', Hin|right; auto].
Qed.

Lemma osc_rounds_add (n k : nat) (o : Osc) (s : State) :
  osc_rounds id (n + k) o s
  = osc_rounds id k (fst (osc_rounds id n o s)) (snd (osc_rounds id n o s)).
Proof.
  revert o s. induction n as [|n IH]; intros o s; simpl; [reflexivity|].
  destruct (osc_tasks o) as [|t0 ts0] eqn:E; simpl.
  - destruct k; simpl; [reflexivity|]. by rewrite E.
  - destruct (osc_body id o s) as [o' s']. apply IH.
Qed.

(** The loop with a budget is the loop pass by pass. *)
Lemma oscillate_rounds (n fuel : nat) (o : Osc) (s : State) :
  osc_tasks (fst (osc_rounds id n o s)) = [] ->
  (n <= fuel)%nat ->
  oscillate fuel id o s = (Done tt, snd (osc_rounds id n o s)).
Proof.
  revert fuel o s. induction n as [|n IH]; intros fuel o s Hempty Hfuel.
  - simpl in Hempty. destruct fuel; simpl; by rewrite Hempty.
  - simpl in Hempty |- *. destruct (osc_tasks o) as [|t0 ts0] eqn:E.
    + destruct fuel; simpl; by rewrite E.
    + destruct fuel as [|fuel]; [lia|]. simpl. rewrite E.
      destruct (osc_body id o s) as [o' s']. apply IH; [exact Hempty|lia].
Qed.

End Lockstep.

(** ** The loop variable [L] *)

Lemma osc_body_L (id : Q) (o : Osc) (s : State) :
  osc_dL (fst (osc_body id o s)) = turn (Lmax s) (osc_L o) (osc_dL o) /\
  osc_L (fst (osc_body id o s)) = osc_L o + turn (Lmax s) (osc_L o) (osc_dL o).
Proof.
  unfold osc_body.
  match goal with
  | |- context [attempt_tasks ?i ?t ?s1] => destruct (attempt_tasks i t s1)
  end. done.
Qed.

(** The direction changes at the first and at the last layout only. *)
Lemma turn_at_boundary (Lmax : nat) (L dL : Z) :
  turn Lmax L dL <> dL -> L = 0 \/ L = Z.of_nat Lmax.
Proof.
  unfold turn. destruct (Z.eqb_spec L 0); [by left|].
  destruct (Z.eqb_spec L (Z.of_nat Lmax)); [by right|]. done.
Qed.

Lemma osc_body_in_range (id : Q) (o : Osc) (s : State) :
  (1 <= Lmax s)%nat ->
  in_range (Lmax s) o -> in_range (Lmax s) (fst (osc_body id o s)).
Proof.
  intros HL [Hr Hd]. destruct (osc_body_L id o s) as [EdL EL].
  unfold in_range. rewrite EdL, EL. unfold turn.
  destruct (Z.eqb_spec (osc_L o) 0); [lia|].
  destruct (Z.eqb_spec (osc_L o) (Z.of_nat (Lmax s))); [lia|].
  destruct Hd as [->| ->]; lia.
Qed.

Lemma osc_rounds_in_range (id : Q) (n : nat) (o : Osc) (s : State) :
  (1 <= Lmax s)%nat ->
  in_range (Lmax s) o -> in_range (Lmax s) (fst (osc_rounds id n o s)).
Proof.
  revert o s. induction n as [|n IH]; intros o s HL Hr; simpl; [exact Hr|].
  destruct (osc_tasks o); [exact Hr|].
  pose proof (osc_body_in_range id o s HL Hr) as Hr'.
  pose proof (preserves_osc_body Lmax (fun _ _ => eq_refl) (fun _ _ => eq_refl)
                id o s) as HLm.
  destruct (osc_body id o s) as [o' s']. simpl in *.
  rewrite <- HLm. apply IH; by rewrite HLm.
Qed.

Lemma osc_body_layouts (id : Q) (o : Osc) (s : State) (f : nat) :
  layouts (snd (osc_body id o s)) f
  = if decide (f ∈ get_fields (osc_tasks o))
    then layout_step (Lmax s) (turn (Lmax s) (osc_L o) (osc_dL o)) (layouts s f)
    else layouts s f.
Proof.
  unfold osc_body.
  match goal with
  | |- context [attempt_tasks id (osc_tasks o) ?s1] =>
      pose proof (attempt_tasks_layouts id (osc_tasks o) s1) as Hl;
      destruct (attempt_tasks id (osc_tasks o) s1) as [u s2]
  end.
  simpl in *. rewrite Hl. apply transform_fields. apply get_fields_spec.
Qed.

Lemma osc_body_pending (id : Q) (o : Osc) (s : State) (t : Task) :
  t ∈ osc_tasks (fst (osc_body id o s)) <->
  t ∈ osc_tasks o /\
  attempt (operator t) id (layouts (snd (osc_body id o s))) = None.
Proof.
  unfold osc_body.
  match goal with
  | |- context [attempt_tasks id (osc_tasks o) ?s1] =>
      pose proof (attempt_tasks_unfinished id (osc_tasks o) s1 t) as Hu;
      pose proof (attempt_tasks_layouts id (osc_tasks o) s1) as Hl;
      destruct (attempt_tasks id (osc_tasks o) s1) as [u s2]
  end.
  simpl in *. by rewrite Hl.
Qed.

(** One pass keeps the fields of the pending tasks together, in the layout
    whose index is the loop variable [L]. *)
Lemma osc_body_together (id : Q) (o : Osc) (s : State) :
  (1 <= Lmax s)%nat ->
  in_range (Lmax s) o ->
  (forall t, t ∈ osc_tasks o ->
     fields_at (layouts s) (operator t) (Z.to_nat (osc_L o))) ->
  in_range (Lmax s) (fst (osc_body id o s)) /\
  Lmax (snd (osc_body id o s)) = Lmax s /\
  (forall t, t ∈ osc_tasks o ->
     fields_at (layouts (snd (osc_body id o s))) (operator t)
               (Z.to_nat (osc_L (fst (osc_body id o s))))).
Proof.
  intros HL Hr Hat.
  pose proof (osc_body_in_range id o s HL Hr) as Hr'.
  pose proof (preserves_osc_body Lmax (fun _ _ => eq_refl) (fun _ _ => eq_refl)
                id o s) as HLm.
  destruct (osc_body_L id o s) as [_ EL].
  split; [exact Hr'|]. split; [exact HLm|].
  intros t Ht f Hf. rewrite osc_body_layouts.
  rewrite decide_True by (apply get_fields_spec; eauto).
  rewrite (Hat t Ht f Hf), EL. destruct Hr as [Hrange Hdir].
  unfold layout_step, turn.
  destruct (Z.eqb_spec (osc_L o) 0) as [H0|H0].
  - rewrite H0. simpl. lia.
  - destruct (Z.eqb_spec (osc_L o) (Z.of_nat (Lmax s))) as [Hm|Hm].
    + simpl. lia.
    + destruct Hdir as [-> | ->]; [lia| |]; simpl; lia.
Qed.

Lemma osc_rounds_together (id : Q) (n : nat) (o : Osc) (s : State) :
  (1 <= Lmax s)%nat ->
  in_range (Lmax s) o ->
  (forall t, t ∈ osc_tasks o ->
     fields_at (layouts s) (operator t) (Z.to_nat (osc_L o))) ->
  in_range (Lmax s) (fst (osc_rounds id n o s)) /\
  Lmax (snd (osc_rounds id n o s)) = Lmax s /\
  (forall t, t ∈ osc_tasks (fst (osc_rounds id n o s)) ->
     fields_at (layouts (snd (osc_rounds id n o s))) (operator t)
               (Z.to_nat (osc_L (fst (osc_rounds id n o s))))).
Proof.
  revert o s. induction n as [|n IH]; intros o s HL Hr Hat; [done|].
  cbn [osc_rounds]. destruct (osc_tasks o) as [|t0 ts0] eqn:E.
  { cbn [fst snd]. split; [exact Hr|]. split; [reflexivity|].
    rewrite E. exact Hat. }
  rewrite <- E in Hat.
  destruct (osc_body_together id o s HL Hr Hat) as (Hr' & HLm & Hat').
  pose proof (fun t => proj1 (osc_body_pending id o s t)) as Hsub.
  destruct (osc_body id o s) as [o' s']. simpl in *.
  destruct (IH o' s') as (Hr'' & HLm'' & Hat'').
  - by rewrite HLm.
  - by rewrite HLm.
  - intros t Ht. apply Hat'. by apply Hsub.
  - rewrite <- HLm. split; [exact Hr''|]. split; [congruence|exact Hat''].
Qed.

(** A pending task that the next layout does not make computable is still
    pending after the pass. *)
Lemma still_pending (id : Q) (m : nat) (o : Osc) (s : State) (t : Task) :
  (m < Lmax s)%nat -> lockstep id m o s -> t ∈ osc_tasks o ->
  blocked_at id (operator t) (S m) ->
  t ∈ osc_tasks (fst (osc_rounds id 1 o s)).
Proof.
  intros Hm Hinv Ht Hb. cbn [osc_rounds].
  destruct (osc_tasks o) as [|t0 ts0] eqn:E; [inversion Ht|].
  destruct (osc_body_lockstep id m o s Hm) as (_ & _ & _ & Hmoved & Hiff);
    [congruence|exact Hinv|].
  destruct (osc_body id o s) as [o1 s1]. simpl in *.
  apply Hiff. rewrite E. split; [exact Ht|]. apply Hb, Hmoved. by rewrite E.
Qed.

(** ** Tasks that one layout makes computable *)

Section Resolution.

Variables (id : Q) (hs : list nat) (s : State).

Let o0 := fst (first_attempts id (all_tasks s hs) s).
Let s0 := snd (first_attempts id (all_tasks s hs) s).

(** A task resolvable in the layout of index [k] is no longer pending after
    [k] passes of the loop, and has its ['out']. *)
Lemma resolved_after (t : Task) (k : nat) :
  t ∈ all_tasks s hs -> (k <= Lmax s)%nat ->
  resolvable_at id (operator t) k ->
  (t ∉ osc_tasks (fst (osc_rounds id k o0 s0))) /\
  has_out (snd (osc_rounds id k o0 s0)) t.
Proof.
  intros Ht Hk Hres.
  destruct (first_attempts_spec id (all_tasks s hs) s) as (_ & HL0 & _ & _).
  destruct (osc_rounds_lockstep id k 0 o0 s0) as [[Hinv _] _].
  { fold s0 in HL0. lia. }
  { apply first_attempts_lockstep. }
  assert (t ∉ osc_tasks (fst (osc_rounds id k o0 s0))) as Hnot.
  { intros Hin. destruct (Hinv t Hin) as [Hat Hnone]. by apply (Hres _ Hat). }
  split; [exact Hnot|].
  destruct (first_attempts_outs id (all_tasks s hs) s) as (_ & Hfirst).
  destruct (osc_rounds_pending id k o0 s0) as (_ & Hmono & Hall).
  destruct (Hfirst t Ht) as [Hin|Ho].
  - destruct (Hall t Hin); done.
  - by apply Hmono.
Qed.

Lemma pending_decreases (n k : nat) (t : Task) :
  t ∈ osc_tasks (fst (osc_rounds id (n + k) o0 s0)) ->
  t ∈ osc_tasks (fst (osc_rounds id n o0 s0)).
Proof.
  rewrite osc_rounds_add. apply osc_rounds_pending.
Qed.

(** When every task is resolvable in some layout, [Lmax] passes empty the
    list of pending tasks. *)
Lemma all_resolved (Hall : forall t, t ∈ all_tasks s hs ->
    exists k, (k <= Lmax s)%nat /\ resolvable_at id (operator t) k) :
  osc_tasks (fst (osc_rounds id (Lmax s) o0 s0)) = [].
Proof.
  destruct (osc_tasks (fst (osc_rounds id (Lmax s) o0 s0))) as [|t ts] eqn:E;
    [reflexivity|exfalso].
  assert (t ∈ osc_tasks (fst (osc_rounds id (Lmax s) o0 s0))) as Hin.
  { rewrite E. apply elem_of_cons. by left. }
  assert (t ∈ all_tasks s hs) as Ht.
  { apply (proj1 (osc_rounds_pending id (Lmax s) o0 s0)) in Hin.
    apply (first_attempts_spec id (all_tasks s hs) s) in Hin. tauto. }
  destruct (Hall t Ht) as (k & Hk & Hres).
  destruct (resolved_after t k Ht Hk Hres) as [Hnot _]. apply Hnot.
  apply (pending_decreases k (Lmax s - k)).
  by replace (k + (Lmax s - k))%nat with (Lmax s) by lia.
Qed.

End Resolution.

(** ** The wave of layouts *)

Lemma mod_S (P m : nat) :
  (0 < P)%nat ->
  (S m mod P = if decide (S (m mod P) = P) then 0 else S (m mod P))%nat.
Proof.
  intros HP.
  pose proof (Nat.div_mod_eq m P) as Hm.
  pose proof (Nat.mod_upper_bound m P ltac:(lia)) as Hr.
  symmetry. case_decide as Hd.
  - apply (Nat.mod_unique _ _ (S (m / P))); [lia|].
    rewrite Nat.mul_succ_r. lia.
  - apply (Nat.mod_unique _ _ (m / P)); lia.
Qed.

Lemma wave_step (Lmax m : nat) :
  (1 <= Lmax)%nat ->
  (wave Lmax m <= Lmax)%nat /\
  (wave Lmax m = 0%nat -> wave_up Lmax m = true) /\
  (wave Lmax m = Lmax -> wave_up Lmax m = false) /\
  (wave_up Lmax m = true -> (wave Lmax m < Lmax)%nat) /\
  (wave_up Lmax m = false -> (1 <= wave Lmax m)%nat) /\
  wave Lmax (S m)
    = (if wave_up Lmax m then S (wave Lmax m) else Nat.pred (wave Lmax m)) /\
  ((0 < wave Lmax (S m) < Lmax)%nat -> wave_up Lmax (S m) = wave_up Lmax m).
Proof.
  intros HL. unfold wave, wave_up. cbv zeta.
  rewrite (mod_S (2 * Lmax) m) by lia.
  pose proof (Nat.mod_upper_bound m (2 * Lmax) ltac:(lia)) as Hr.
  set (r := (m mod (2 * Lmax))%nat) in *. clearbody r.
  case_decide;
    repeat match goal with
    | |- context [(?a <=? ?b)%nat] => destruct (Nat.leb_spec a b)
    | |- context [(?a <? ?b)%nat] => destruct (Nat.ltb_spec a b)
    end; repeat split; intros; try lia; try reflexivity.
Qed.

Lemma wave_first_cycle (Lmax k : nat) :
  (1 <= Lmax)%nat -> (k <= Lmax)%nat ->
  wave Lmax k = k /\ wave Lmax (2 * Lmax - k) = k.
Proof.
  intros HL Hk. unfold wave. cbv zeta. split.
  - rewrite Nat.mod_small by lia. destruct (Nat.leb_spec k Lmax); lia.
  - destruct (decide (k = 0%nat)) as [->|Hne].
    + rewrite Nat.sub_0_r, Nat.Div0.mod_same. reflexivity.
    + rewrite Nat.mod_small by lia.
      destruct (Nat.leb_spec (2 * Lmax - k) Lmax); lia.
Qed.

(** One pass on the wave: the loop variable and the direction follow it. *)
Lemma osc_body_wave (id : Q) (m : nat) (o : Osc) (s : State) :
  (1 <= Lmax s)%nat ->
  on_wave (Lmax s) m o ->
  on_wave (Lmax s) (S m) (fst (osc_body id o s)) /\
  osc_dL (fst (osc_body id o s)) = (if wave_up (Lmax s) m then 1 else -1) /\
  in_range (Lmax s) o.
Proof.
  intros HL [EL Hdir].
  destruct (wave_step (Lmax s) m HL) as (Hle & H0 & Hmax & Hup & Hdown & Hnext & Hkeep).
  destruct (osc_body_L id o s) as [EdL EL'].
  assert (turn (Lmax s) (osc_L o) (osc_dL o)
          = if wave_up (Lmax s) m then 1 else -1) as Hturn.
  { unfold turn. rewrite EL.
    destruct (Z.eqb_spec (Z.of_nat (wave (Lmax s) m)) 0) as [E0|E0].
    { rewrite H0 by lia. reflexivity. }
    destruct (Z.eqb_spec (Z.of_nat (wave (Lmax s) m)) (Z.of_nat (Lmax s)))
      as [Em|Em].
    { rewrite Hmax by lia. reflexivity. }
    apply Hdir. lia. }
  split; [|split].
  - split.
    + rewrite EL', Hturn, EL, Hnext.
      destruct (wave_up (Lmax s) m); [lia|].
      specialize (Hdown eq_refl). lia.
    + intros Hin. rewrite EdL, Hturn. by rewrite (Hkeep Hin).
  - by rewrite EdL.
  - split; [rewrite EL; lia|]. intros Hin. rewrite Hdir by lia.
    destruct (wave_up (Lmax s) m); auto.
Qed.

Section Wave.

Variables (id : Q) (hs : list nat) (s : State).
Hypothesis Lmax_pos : (1 <= Lmax s)%nat.

Let o0 := fst (first_attempts id (all_tasks s hs) s).
Let s0 := snd (first_attempts id (all_tasks s hs) s).

Lemma first_attempts_on_wave :
  Lmax s0 = Lmax s /\ on_wave (Lmax s) 0 o0 /\
  forall t, t ∈ osc_tasks o0 ->
    fields_at (layouts s0) (operator t) (Z.to_nat (osc_L o0)).
Proof.
  destruct (first_attempts_spec id (all_tasks s hs) s) as (HL0 & HLm & _ & _).
  destruct (first_attempts_lockstep id (all_tasks s hs) s) as [Hat0 _].
  fold o0 in HL0, Hat0. fold s0 in HLm, Hat0.
  destruct (wave_first_cycle (Lmax s) 0 Lmax_pos ltac:(lia)) as [Hw0 _].
  split; [exact HLm|]. split.
  - split; [by rewrite HL0, Hw0|]. rewrite Hw0. lia.
  - intros t Ht. rewrite HL0. by apply Hat0.
Qed.

(** After [n] passes the loop is at position [n] of the wave, unless no task
    is left. *)
Lemma osc_rounds_wave (n : nat) :
  Lmax (snd (osc_rounds id n o0 s0)) = Lmax s /\
  in_range (Lmax s) (fst (osc_rounds id n o0 s0)) /\
  (osc_tasks (fst (osc_rounds id n o0 s0)) = [] \/
   on_wave (Lmax s) n (fst (osc_rounds id n o0 s0))) /\
  (forall t, t ∈ osc_tasks (fst (osc_rounds id n o0 s0)) ->
     fields_at (layouts (snd (osc_rounds id n o0 s0))) (operator t)
               (Z.to_nat (osc_L (fst (osc_rounds id n o0 s0))))).
Proof.
  destruct first_attempts_on_wave as (HLm & Hw0 & Hat0).
  assert (in_range (Lmax s) o0) as Hr0.
  { destruct Hw0 as [EL _].
    destruct (wave_first_cycle (Lmax s) 0 Lmax_pos ltac:(lia)) as [Hz _].
    rewrite Hz in EL. split; rewrite EL; lia. }
  destruct (osc_rounds_together id n o0 s0) as (Hr & HL & Hat);
    [by rewrite HLm|by rewrite HLm|exact Hat0|].
  rewrite HLm in Hr, HL. split; [exact HL|]. split; [exact Hr|].
  split; [|exact Hat].
  clear Hr HL Hat. induction n as [|n IH]; [by right|].
  replace (S n) with (n + 1)%nat by lia. rewrite osc_rounds_add.
  destruct (osc_rounds_together id n o0 s0) as (_ & HL & _);
    [by rewrite HLm|by rewrite HLm|exact Hat0|].
  cbn [osc_rounds].
  destruct (osc_tasks (fst (osc_rounds id n o0 s0))) as [|t0 ts0] eqn:E.
  { left. simpl. exact E. }
  destruct IH as [IH|IH]; [discriminate|]. right.
  pose proof (osc_body_wave id n (fst (osc_rounds id n o0 s0))
                (snd (osc_rounds id n o0 s0))) as Hstep.
  rewrite HL, HLm in Hstep. destruct (Hstep Lmax_pos IH) as (Hw & _).
  replace (n + 1)%nat with (S n) by lia.
  by destruct (osc_body id (fst (osc_rounds id n o0 s0))
                 (snd (osc_rounds id n o0 s0))).
Qed.

(** A task that is pending after [n] passes is attempted by pass [n + 1]
    with all its fields in the layout at position [n + 1] of the wave. *)
Lemma next_pass_on_wave (n : nat) (t : Task) :
  t ∈ osc_tasks (fst (osc_rounds id n o0 s0)) ->
  osc_L (fst (osc_rounds id (S n) o0 s0)) = Z.of_nat (wave (Lmax s) (S n)) /\
  osc_dL (fst (osc_rounds id (S n) o0 s0))
    = (if wave_up (Lmax s) n then 1 else -1) /\
  fields_at (layouts (snd (osc_rounds id (S n) o0 s0))) (operator t)
            (wave (Lmax s) (S n)).
Proof.
  intros Ht.
  destruct (osc_rounds_wave n) as (HL & Hr & Hw & Hat).
  destruct Hw as [Hempty|Hw]; [rewrite Hempty in Ht; inversion Ht|].
  replace (S n) with (n + 1)%nat by lia. rewrite osc_rounds_add.
  cbn [osc_rounds].
  destruct (osc_tasks (fst (osc_rounds id n o0 s0))) as [|t0 ts0] eqn:E;
    [inversion Ht|].
  rewrite <- E in Hat, Ht.
  pose proof (osc_body_wave id n (fst (osc_rounds id n o0 s0))
                (snd (osc_rounds id n o0 s0))) as Hstep.
  pose proof (osc_body_together id (fst (osc_rounds id n o0 s0))
                (snd (osc_rounds id n o0 s0))) as Htog.
  rewrite HL in Hstep, Htog.
  destruct (Hstep Lmax_pos Hw) as ([EL _] & EdL & _).
  destruct (Htog Lmax_pos Hr Hat) as (_ & _ & Hat').
  specialize (Hat' t Ht).
  destruct (osc_body id (fst (osc_rounds id n o0 s0))
              (snd (osc_rounds id n o0 s0))) as [o' s'].
  simpl in *. replace (n + 1)%nat with (S n) by lia.
  split; [exact EL|]. split; [exact EdL|].
  rewrite EL in Hat'. by rewrite Nat2Z.id in Hat'.
Qed.

End Wave.

(** What is pending after a pass is what the pass could not compute. *)
Lemma osc_rounds_unfinished (id : Q) (ts : list Task) (s : State) (n : nat)
    (t : Task) :
  let o0 := fst (first_attempts id ts s) in
  let s0 := snd (first_attempts id ts s) in
  t ∈ osc_tasks (fst (osc_rounds id n o0 s0)) ->
  attempt (operator t) id (layouts (snd (osc_rounds id n o0 s0))) = None.
Proof.
  intros o0 s0. destruct n as [|n].
  { simpl. intros Ht.
    destruct (first_attempts_spec id ts s) as (_ & _ & Hin & _).
    apply Hin in Ht. tauto. }
  replace (S n) with (n + 1)%nat by lia. rewrite osc_rounds_add.
  cbn [osc_rounds].
  destruct (osc_tasks (fst (osc_rounds id n o0 s0))) as [|t0 ts0] eqn:E.
  { simpl. rewrite E. intros Ht. inversion Ht. }
  pose proof (osc_body_pending id (fst (osc_rounds id n o0 s0))
                (snd (osc_rounds id n o0 s0)) t) as Hpend.
  destruct (osc_body id (fst (osc_rounds id n o0 s0))
              (snd (osc_rounds id n o0 s0))) as [o' s'].
  simpl in *. intros Ht. apply Hpend in Ht. tauto.
Qed.

(** A task that the layouts of pass [n] make computable is resolved from
    that pass on. *)
Lemma resolved_from (id : Q) (hs : list nat) (s : State) (n N : nat) (t : Task) :
  let o0 := fst (first_attempts id (all_tasks s hs) s) in
  let s0 := snd (first_attempts id (all_tasks s hs) s) in
  t ∈ all_tasks s hs ->
  attempt (operator t) id (layouts (snd (osc_rounds id n o0 s0))) <> None ->
  (n <= N)%nat ->
  (t ∉ osc_tasks (fst (osc_rounds id N o0 s0))) /\
  has_out (snd (osc_rounds id N o0 s0)) t.
Proof.
  intros o0 s0 Ht Hres HN.
  assert (t ∉ osc_tasks (fst (osc_rounds id N o0 s0))) as Hnot.
  { intros Hin. apply Hres.
    apply (osc_rounds_unfinished id (all_tasks s hs) s n t).
    apply (pending_decreases id hs s n (N - n)).
    by replace (n + (N - n))%nat with N by lia. }
  split; [exact Hnot|].
  destruct (first_attempts_outs id (all_tasks s hs) s) as (_ & Hfirst).
  destruct (osc_rounds_pending id N o0 s0) as (_ & Hmono & Hall).
  destruct (Hfirst t Ht) as [Hin|Ho].
  - destruct (Hall t Hin); done.
  - by apply Hmono.
Qed.

(** An operator that reads its own fields only, and is resolved at some
    pass, is resolved within [Lmax] passes: whether it resolves depends on
    the layout index of the pass alone, and every index is reached on the
    way up. *)
Lemma local_resolved_early (id : Q) (hs : list nat) (s : State) (t : Task)
    (n : nat) :
  let o0 := fst (first_attempts id (all_tasks s hs) s) in
  let s0 := snd (first_attempts id (all_tasks s hs) s) in
  (1 <= Lmax s)%nat ->
  t ∈ all_tasks s hs ->
  reads_only_its_fields id (operator t) ->
  t ∉ osc_tasks (fst (osc_rounds id n o0 s0)) ->
  t ∉ osc_tasks (fst (osc_rounds id (Lmax s) o0 s0)).
Proof.
  intros o0 s0 HL Ht Hlocal. induction n as [|n IH]; intros Hn.
  { intros Hin. apply Hn.
    apply (pending_decreases id hs s 0 (Lmax s)). exact Hin. }
  intros Hlast. apply IH; [|exact Hlast]. intros Hin.
  destruct (next_pass_on_wave id hs s HL n t Hin) as (_ & _ & Hat).
  fold o0 s0 in Hat.
  assert (attempt (operator t) id (layouts (snd (osc_rounds id (S n) o0 s0)))
          <> None) as Hres.
  { intros Hnone. apply Hn. revert Hnone.
    replace (S n) with (n + 1)%nat by lia. rewrite osc_rounds_add.
    cbn [osc_rounds].
    destruct (osc_tasks (fst (osc_rounds id n o0 s0))) as [|t0 ts0] eqn:E;
      [inversion Hin|].
    rewrite <- E in Hin.
    pose proof (osc_body_pending id (fst (osc_rounds id n o0 s0))
                  (snd (osc_rounds id n o0 s0)) t) as Hpend.
    destruct (osc_body id (fst (osc_rounds id n o0 s0))
                (snd (osc_rounds id n o0 s0))) as [o' s'].
    simpl in *. intros Hnone. by apply Hpend. }
  destruct (wave_step (Lmax s) (S n) HL) as (Hle & _).
  destruct (resolved_after id hs s t (wave (Lmax s) (S n)) Ht Hle) as [Hnot _].
  { intros ls Hls. rewrite (Hlocal ls (layouts (snd (osc_rounds id (S n) o0 s0))));
      [exact Hres|].
    intros f Hf. by rewrite (Hls f Hf), (Hat f Hf). }
  apply Hnot.
  apply (pending_decreases id hs s (wave (Lmax s) (S n))
           (Lmax s - wave (Lmax s) (S n))).
  by replace (wave (Lmax s) (S n) + (Lmax s - wave (Lmax s) (S n)))%nat
    with (Lmax s) by lia.
Qed.

(** C3. [Evaluator.evaluate_handlers] attempts every task in the current
    layouts, then with the fields of the unfinished tasks in coefficient
    space, then in a loop whose direction changes only where the loop
    variable [L] is [0] or [Lmax].  The loop follows the wave
    [0, 1, .., Lmax, Lmax - 1, .., 0, 1, ..]: a task that is pending after
    [n] passes is attempted by pass [n + 1] with all its fields in the layout
    at position [n + 1] of the wave, so every layout index is reached, on
    the way up and on the way down, within [2 * Lmax] passes.  A task that
    the layouts of some pass [n] make computable is resolved from that pass
    on (within [2 * Lmax] passes when [n <= 2 * Lmax]).  A task whose
    operator tree reads its own fields only, and which the layouts of some
    pass make computable, is resolved within [Lmax] passes; one whose
    operator tree resolves whenever its fields are all in one layout
    [k <= Lmax] is resolved within [k] passes, and when every task is so the
    resolution phase finishes.  A task that is computable neither in the
    starting layouts nor in the layouts 0 and 1, and is computable in the
    layout 2, is pending after the coefficient attempt and after one pass,
    and resolved by the second. *)
Theorem C3_oscillation_resolves_within_bound
    (hs : list nat) (id : Q) (s : State) :
  let o0 := fst (first_attempts id (all_tasks s hs) s) in
  let s0 := snd (first_attempts id (all_tasks s hs) s) in
  let loop_after n := fst (osc_rounds id n o0 s0) in
  let pending n := osc_tasks (fst (osc_rounds id n o0 s0)) in
  let state_after n := snd (osc_rounds id n o0 s0) in
  (forall t, t ∈ pending 0%nat <->
     t ∈ all_tasks s hs /\ attempt (operator t) id (layouts s) = None /\
     attempt (operator t) id (layouts s0) = None) /\
  (forall t, t ∈ all_tasks s hs ->
     attempt (operator t) id (layouts s) = None ->
     fields_at (layouts s0) (operator t) 0) /\
  (forall (o : Osc) (st : State),
     osc_dL (fst (osc_body id o st)) <> osc_dL o ->
     osc_L o = 0 \/ osc_L o = Z.of_nat (Lmax st)) /\
  ((1 <= Lmax s)%nat ->
   forall n, 0 <= osc_L (loop_after n) <= Z.of_nat (Lmax s)) /\
  ((1 <= Lmax s)%nat ->
   forall n t, t ∈ pending n ->
     osc_L (loop_after (S n)) = Z.of_nat (wave (Lmax s) (S n)) /\
     osc_dL (loop_after (S n)) = (if wave_up (Lmax s) n then 1 else -1) /\
     fields_at (layouts (state_after (S n))) (operator t)
               (wave (Lmax s) (S n))) /\
  ((1 <= Lmax s)%nat ->
   forall k, (k <= Lmax s)%nat ->
     wave (Lmax s) k = k /\ wave (Lmax s) (2 * Lmax s - k) = k) /\
  (forall n N t, t ∈ all_tasks s hs ->
     attempt (operator t) id (layouts (state_after n)) <> None ->
     (n <= N)%nat ->
     (t ∉ pending N) /\ has_out (state_after N) t) /\
  ((1 <= Lmax s)%nat ->
   forall n N t, t ∈ all_tasks s hs ->
     reads_only_its_fields id (operator t) ->
     attempt (operator t) id (layouts (state_after n)) <> None ->
     (Lmax s <= N)%nat ->
     (t ∉ pending N) /\ has_out (state_after N) t) /\
  (forall t k, t ∈ all_tasks s hs -> (k <= Lmax s)%nat ->
     resolvable_at id (operator t) k ->
     exists n, (n <= 2 * Lmax s)%nat /\ (n <= k)%nat /\
               (t ∉ pending n) /\ has_out (state_after n) t) /\
  ((forall t, t ∈ all_tasks s hs ->
      exists k, (k <= Lmax s)%nat /\ resolvable_at id (operator t) k) ->
   fst (resolve (Lmax s) hs id s) = Done tt) /\
  (forall t, t ∈ all_tasks s hs -> (2 <= Lmax s)%nat ->
     attempt (operator t) id (layouts s) = None ->
     blocked_at id (operator t) 0 -> blocked_at id (operator t) 1 ->
     resolvable_at id (operator t) 2 ->
     t ∈ pending 0%nat /\ t ∈ pending 1%nat /\ (t ∉ pending 2%nat) /\
     has_out (state_after 2%nat) t).
Proof.
  intros o0 s0 loop_after pending state_after.
  destruct (first_attempts_spec id (all_tasks s hs) s)
    as (HL0 & HLmax0 & Hpending0 & Hcoeff).
  fold o0 in HL0, Hpending0. fold s0 in HLmax0, Hpending0, Hcoeff.
  split; [exact Hpending0|]. split; [exact Hcoeff|]. split.
  { intros o st Hne. destruct (osc_body_L id o st) as [EdL _].
    rewrite EdL in Hne. by apply turn_at_boundary in Hne. }
  split.
  { intros HL n. rewrite <- HLmax0.
    apply (osc_rounds_in_range id n o0 s0); [by rewrite HLmax0|].
    split; [lia|]. rewrite HL0. lia. }
  split.
  { intros HL n t Ht. by apply (next_pass_on_wave id hs s HL n t). }
  split.
  { intros HL k Hk. by apply wave_first_cycle. }
  split.
  { intros n N t Ht Hres HN. by apply (resolved_from id hs s n N t). }
  split.
  { intros HL n N t Ht Hlocal Hres HN.
    destruct (resolved_from id hs s n n t Ht Hres (le_n n)) as [Hn _].
    pose proof (local_resolved_early id hs s t n HL Ht Hlocal Hn) as Hearly.
    assert (t ∉ pending N) as Hnot.
    { intros Hin. apply Hearly.
      apply (pending_decreases id hs s (Lmax s) (N - Lmax s)).
      by replace (Lmax s + (N - Lmax s))%nat with N by lia. }
    split; [exact Hnot|].
    destruct (first_attempts_outs id (all_tasks s hs) s) as (_ & Hfirst).
    destruct (osc_rounds_pending id N o0 s0) as (_ & Hmono & Hall).
    destruct (Hfirst t Ht) as [Hin|Ho].
    - destruct (Hall t Hin); done.
    - by apply Hmono. }
  split.
  { intros t k Ht Hk Hres. exists k.
    destruct (resolved_after id hs s t k Ht Hk Hres) as [Hnot Hout].
    split; [lia|]. split; [lia|]. split; [exact Hnot|exact Hout]. }
  split.
  { intros Hall.
    pose proof (all_resolved id hs s Hall) as Hempty.
    assert (fst (resolve (Lmax s) hs id s) <> OutOfFuel) as Hfuel.
    { unfold resolve. fold o0 s0.
      replace (first_attempts id (all_tasks s hs) s) with (o0, s0)
        by (unfold o0, s0; by destruct (first_attempts id (all_tasks s hs) s)).
      unfold mbind, M_bind.
      rewrite (oscillate_rounds id (Lmax s) (Lmax s) o0 s0 Hempty) by lia.
      destruct (dealias hs (snd (osc_rounds id (Lmax s) o0 s0))) as [r s'] eqn:E.
      simpl. intros ->.
      assert (forall ts st, fst (for_each dealias_task ts st) <> OutOfFuel) as Hts.
      { induction ts as [|t ts IH]; intros st; simpl; [done|].
        unfold mbind, M_bind, dealias_task at 1, mbind, M_bind, task_out, modify.
        destruct (outs st !! tid t); simpl; [apply IH|done]. }
      assert (forall l st, fst (dealias l st) <> OutOfFuel) as Hd.
      { unfold dealias. induction l as [|i l IH]; intros st; simpl; [done|].
        unfold mbind at 1, M_bind at 1.
        pose proof (Hts (handler_tasks st i) st) as H1.
        destruct (for_each dealias_task (handler_tasks st i) st) as [[[]|e|] st'];
          simpl in *; [apply IH|done|done]. }
      apply (Hd hs (snd (osc_rounds id (Lmax s) o0 s0))). by rewrite E. }
    by apply resolve_finished in Hfuel as [? _]. }
  intros t Ht HL Hfirst Hb0 Hb1 Hres.
  assert (t ∈ pending 0%nat) as Hp0.
  { apply Hpending0. split; [exact Ht|]. split; [exact Hfirst|].
    apply Hb0. by apply Hcoeff. }
  destruct (resolved_after id hs s t 2 Ht HL Hres) as [Hnot Hout].
  split; [exact Hp0|]. split; [|split; [exact Hnot|exact Hout]].
  apply (still_pending id 0 o0 s0 t); [lia| |exact Hp0|exact Hb1].
  apply first_attempts_lockstep.
Qed.

Lemma C3_witness :
  let a := {| operator := computable_with 1 0 2 5 1; layout := 2; name := "a";
              tid := 0 |} in
  let b := {| operator := computable_in 2 5 6; layout := 2; name := "b";
              tid := 1 |} in
  let s := evaluator_with 2 [a; b] in
  let o0 := fst (first_attempts 0 (all_tasks s [0%nat]) s) in
  let s0 := snd (first_attempts 0 (all_tasks s [0%nat]) s) in
  let pending n := osc_tasks (fst (osc_rounds 0 n o0 s0)) in
  let state_after n := snd (osc_rounds 0 n o0 s0) in
  ((1 <= Lmax s)%nat /\ a ∈ all_tasks s [0%nat] /\ a ∈ pending 2%nat /\
   attempt (operator a) 0 (layouts (state_after 3%nat)) <> None) /\
  (pending 1%nat = [a; b] /\ pending 2%nat = [a] /\ pending 3%nat = []) /\
  (layouts (state_after 2%nat) 0%nat = 2%nat /\
   layouts (state_after 3%nat) 0%nat = 1%nat /\
   layouts (state_after 3%nat) 5%nat = 2%nat) /\
  osc_dL (fst (osc_rounds 0 3 o0 s0)) = -1 /\
  fields_at (layouts (state_after 3%nat)) (operator a) 1 /\
  (a ∉ pending 3%nat) /\ has_out (state_after 3%nat) a.
Proof.
  intros a b s o0 s0 pending state_after.
  assert (1 <= Lmax s)%nat as HL by (simpl; lia).
  assert (a ∈ all_tasks s [0%nat]) as Ha by (apply elem_of_cons; by left).
  assert (a ∈ pending 2%nat) as Hp2 by (apply elem_of_cons; by left).
  assert (attempt (operator a) 0 (layouts (state_after 3%nat)) <> None) as Hres
    by (vm_compute; discriminate).
  split; [by repeat split|]. split; [by repeat split|].
  split; [by repeat split|].
  pose proof (C3_oscillation_resolves_within_bound [0%nat] 0 s)
    as (_ & _ & _ & _ & Hwave & _ & Hfrom & _).
  destruct (Hwave HL 2%nat a Hp2) as (_ & HdL & Hat).
  split; [exact HdL|]. split; [exact Hat|].
  exact (Hfrom 3%nat 3%nat a Ha Hres (le_n 3)).
Defined.

(** * A task that never resolves *)

Lemma oscillate_stuck (id : Q) (t : Task) :
  (forall ls, attempt (operator t) id ls = None) ->
  forall (fuel : nat) (o : Osc) (s : State),
    t ∈ osc_tasks o -> fst (oscillate fuel id o s) = OutOfFuel.
Proof.
  intros Hnever. induction fuel as [|fuel IH]; intros o s Ht; simpl.
  - destruct (osc_tasks o); [inversion Ht|reflexivity].
  - destruct (osc_tasks o) as [|t0 ts0] eqn:E; [inversion Ht|].
    assert (t ∈ osc_tasks (fst (osc_body id o s))) as Ht'.
    { unfold osc_body.
      match goal with
      | |- context [attempt_tasks id (osc_tasks o) ?s1] =>
          pose proof (attempt_tasks_unfinished id (osc_tasks o) s1 t) as Hu;
          destruct (attempt_tasks id (osc_tasks o) s1) as [u s2]
      end. simpl in *. apply Hu. rewrite E. split; [exact Ht|apply Hnever]. }
    destruct (osc_body id o s) as [o' s']. apply IH, Ht'.
Qed.

Lemma osc_rounds_stuck (id : Q) (t : Task) :
  (forall ls, attempt (operator t) id ls = None) ->
  forall (n : nat) (o : Osc) (s : State),
    t ∈ osc_tasks o -> t ∈ osc_tasks (fst (osc_rounds id n o s)).
Proof.
  intros Hnever. induction n as [|n IH]; intros o s Ht; simpl; [exact Ht|].
  destruct (osc_tasks o) as [|t0 ts0] eqn:E; [inversion Ht|].
  assert (t ∈ osc_tasks (fst (osc_body id o s))) as Ht'.
  { unfold osc_body.
    match goal with
    | |- context [attempt_tasks id (osc_tasks o) ?s1] =>
        pose proof (attempt_tasks_unfinished id (osc_tasks o) s1 t) as Hu;
        destruct (attempt_tasks id (osc_tasks o) s1) as [u s2]
    end. simpl in *. apply Hu. rewrite E. split; [exact Ht|apply Hnever]. }
  destruct (osc_body id o s) as [o' s']. apply IH, Ht'.
Qed.

(** With a task that no layout resolves, the evaluation is still in its loop
    whatever the budget; no [process] has run. *)
Lemma evaluate_handlers_stuck (fuel : nat) (env : nat -> Stat) (hs : list nat)
    (wt st : Q) (it : Z) (s : State) (t : Task) :
  t ∈ all_tasks s hs ->
  (forall ls, attempt (operator t) st ls = None) ->
  fst (evaluate_handlers fuel env hs wt st it s) = OutOfFuel /\
  handlers (snd (evaluate_handlers fuel env hs wt st it s)) = handlers s.
Proof.
  intros Ht Hnever.
  assert (fst (resolve fuel hs st s) = OutOfFuel) as Hres.
  { unfold resolve.
    pose proof (proj1 (proj2 (proj2 (first_attempts_spec st (all_tasks s hs) s))) t)
      as Hin.
    destruct (first_attempts st (all_tasks s hs) s) as [o0 s0]. simpl in Hin.
    unfold mbind, M_bind.
    pose proof (oscillate_stuck st t Hnever fuel o0 s0) as Hstuck.
    destruct (oscillate fuel st o0 s0) as [r s1]. simpl in Hstuck.
    rewrite Hstuck; [reflexivity|]. apply Hin. auto. }
  pose proof (preserves_resolve handlers (fun _ _ => eq_refl)
                (fun _ _ => eq_refl) fuel hs st s) as Hh.
  unfold evaluate_handlers, mbind, M_bind.
  destruct (resolve fuel hs st s) as [r s1]. simpl in *. subst r. done.
Qed.

(** C2, as the code has it.  [Evaluator.evaluate_handlers] puts no bound on
    its loop: when the operator tree of one of the tasks resolves in no
    layout, the evaluation is still looping after any number of passes.  It
    raises nothing, the task is pending on every pass (it is not dropped),
    and no handler is processed. *)
Theorem C2_unresolvable_task_loops_forever
    (env : nat -> Stat) (hs : list nat)
    (wall_time sim_time : Q) (iteration : Z) (s : State) (i : nat) (t : Task) :
  i ∈ hs -> t ∈ handler_tasks s i ->
  (forall ls, attempt (operator t) sim_time ls = None) ->
  let o0 := fst (first_attempts sim_time (all_tasks s hs) s) in
  let s0 := snd (first_attempts sim_time (all_tasks s hs) s) in
  (forall fuel,
     fst (evaluate_handlers fuel env hs wall_time sim_time iteration s)
       = OutOfFuel /\
     handlers (snd (evaluate_handlers fuel env hs wall_time sim_time iteration s))
       = handlers s) /\
  (forall n, t ∈ osc_tasks (fst (osc_rounds sim_time n o0 s0))).
Proof.
  intros Hi Ht Hnever o0 s0.
  assert (t ∈ all_tasks s hs) as Hall by (apply elem_of_all_tasks; eauto).
  split.
  - intros fuel. by apply (evaluate_handlers_stuck fuel env hs _ _ _ s t).
  - intros n. apply osc_rounds_stuck; [exact Hnever|].
    apply (first_attempts_spec sim_time (all_tasks s hs) s). auto.
Qed.

Lemma C2_witness :
  let t := {| operator := unresolvable 0; layout := 1; name := "task";
              tid := 0 |} in
  (0%nat ∈ [0%nat] /\ t ∈ handler_tasks (one_task 1 (unresolvable 0)) 0 /\
   forall ls, attempt (operator t) 0 ls = None) /\
  forall fuel,
    fst (evaluate_handlers fuel no_stat [0%nat] 0 0 0
           (one_task 1 (unresolvable 0))) = OutOfFuel.
Proof.
  intros t.
  assert (0%nat ∈ [0%nat]) as Hi by (apply elem_of_cons; by left).
  assert (t ∈ handler_tasks (one_task 1 (unresolvable 0)) 0) as Ht
    by (apply elem_of_cons; by left).
  assert (forall ls, attempt (operator t) 0 ls = None) as Hn
    by (intros ls; reflexivity).
  split; [by auto|]. intros fuel.
  exact (proj1 (proj1 (C2_unresolvable_task_loops_forever
                         no_stat [0%nat] 0 0 0 _ 0%nat t Hi Ht Hn) fuel)).
Defined.

(** C2, as the spec states it, fails: with one task that no layout resolves
    there is no number of passes after which [evaluate_handlers] has raised
    (or returned). *)
Lemma C2_no_step_bound :
  ~ exists fuel,
      fst (evaluate_handlers fuel no_stat [0%nat] 0 0 0
             (one_task 1 (unresolvable 0))) <> OutOfFuel.
Proof.
  intros [fuel H]. apply H.
  apply (evaluate_handlers_stuck fuel no_stat [0%nat] 0 0 0 _
           {| operator := unresolvable 0; layout := 1; name := "task";
              tid := 0 |}).
  - apply elem_of_cons. by left.
  - intros ls. reflexivity.
Qed.

(** * Layouts asked for by the handlers *)

Lemma require_task_layout_spec (t : Task) (s : State) (out : nat) :
  outs s !! tid t = Some out ->
  require_task_layout t s
  = (Done out, with_layouts (require_layout out (layout t) (layouts s)) s).
Proof.
  intros Hout. unfold require_task_layout, mbind, M_bind, task_out.
  by rewrite Hout.
Qed.

Lemma lays_out_dictionary (i : nat) :
  lays_out (fun t => out ← require_task_layout t; dictionary_store i t out).
Proof.
  intros t s out Hout. eexists. unfold mbind, M_bind.
  rewrite (require_task_layout_spec t s out Hout).
  split; [reflexivity|]. split; reflexivity.
Qed.

Lemma lays_out_file :
  lays_out (fun t => require_task_layout t ;; mret tt).
Proof.
  intros t s out Hout. eexists. unfold mbind, M_bind.
  rewrite (require_task_layout_spec t s out Hout).
  split; [reflexivity|]. split; reflexivity.
Qed.

(** Over tasks whose ['out'] fields are distinct, such a loop leaves every
    ['out'] in the layout of its task. *)
Lemma for_each_lays_out (body : Task -> M unit) (ts : list Task) (s : State) :
  lays_out body ->
  (forall t, t ∈ ts -> has_out s t) ->
  NoDup ((fun t => outs s !! tid t) <$> ts) ->
  exists s',
    for_each body ts s = (Done tt, s') /\ outs s' = outs s /\
    (forall t, t ∈ ts ->
       exists out, outs s !! tid t = Some out /\ layouts s' out = layout t) /\
    (forall f, (forall t, t ∈ ts -> outs s !! tid t <> Some f) ->
       layouts s' f = layouts s f).
Proof.
  intros Hbody. revert s. induction ts as [|t ts IH]; intros s Hall Hnd.
  { exists s. repeat split; try done. intros t Ht. inversion Ht. }
  rewrite fmap_cons in Hnd. apply NoDup_cons in Hnd as [Hfresh Hnd].
  destruct (Hall t) as [out Hout]; [apply elem_of_cons; by left|].
  destruct (Hbody t s out Hout) as (s1 & E1 & Ho1 & Hl1).
  destruct (IH s1) as (s' & E' & Ho' & Hts & Hframe).
  { intros t' Ht'. unfold has_out. rewrite Ho1. apply Hall.
    apply elem_of_cons. by right. }
  { by rewrite Ho1. }
  exists s'. split.
  { cbn [for_each]. unfold mbind at 1, M_bind at 1. by rewrite E1. }
  split; [congruence|]. split.
  - intros t' Ht'. apply elem_of_cons in Ht' as [->|Ht'].
    + exists out. split; [exact Hout|]. rewrite Hframe.
      * rewrite Hl1. apply set_layout_same.
      * intros t' Ht' Heq. apply Hfresh. rewrite Hout, <- Heq, Ho1.
        apply list_elem_of_fmap. by exists t'.
    + destruct (Hts t' Ht') as (out' & Hout' & Hl'). exists out'.
      split; [congruence|exact Hl'].
  - intros f Hf. rewrite Hframe.
    + rewrite Hl1. apply set_layout_other. intros ->.
      apply (Hf t); [apply elem_of_cons; by left|exact Hout].
    + intros t' Ht'. rewrite Ho1. apply Hf. apply elem_of_cons. by right.
Qed.

(** ** The process loop *)

Lemma for_each_app {A} (body : A -> M unit) (xs ys : list A) (s : State) :
  for_each body (xs ++ ys) s
  = match for_each body xs s with
    | (Done _, s') => for_each body ys s'
    | other => other
    end.
Proof.
  revert s. induction xs as [|x xs IH]; intros s; [reflexivity|].
  cbn [app for_each]. unfold mbind, M_bind.
  destruct (body x s) as [[[]|e|] s1]; [apply IH|reflexivity|reflexivity].
Qed.

Lemma fmap_alter_at {A B} (view : A -> B) (f : A -> A) (i : nat) (l : list A) :
  (forall x, l !! i = Some x -> view (f x) = view x) ->
  view <$> alter f i l = view <$> l.
Proof.
  revert i. induction l as [|x l IH]; intros [|i] H; simpl; try reflexivity.
  - by rewrite (H x eq_refl).
  - f_equal. apply IH. intros y Hy. by apply H.
Qed.

Lemma require_task_layout_missing (t : Task) (s : State) :
  outs s !! tid t = None -> require_task_layout t s = (Raised KeyError, s).
Proof.
  intros E. unfold require_task_layout, mbind, M_bind, task_out. by rewrite E.
Qed.

(** A loop of [process] over the tasks leaves alone every field that is
    the ['out'] of none of them, also when it raises. *)
Lemma for_each_leaves (body : Task -> M unit) (ts : list Task) (s : State)
    (f : nat) :
  lays_out body ->
  (forall t s, outs s !! tid t = None -> body t s = (Raised KeyError, s)) ->
  (forall t, t ∈ ts -> outs s !! tid t <> Some f) ->
  layouts (snd (for_each body ts s)) f = layouts s f.
Proof.
  intros Hbody Hmissing. revert s.
  induction ts as [|t ts IH]; intros s Hf; [reflexivity|].
  cbn [for_each]. unfold mbind, M_bind.
  destruct (outs s !! tid t) as [out|] eqn:E.
  - destruct (Hbody t s out E) as (s1 & E1 & Ho1 & Hl1). rewrite E1.
    rewrite IH.
    + rewrite Hl1. apply set_layout_other. intros ->.
      apply (Hf t); [apply elem_of_cons; by left|exact E].
    + intros t' Ht'. rewrite Ho1. apply Hf. apply elem_of_cons. by right.
  - by rewrite (Hmissing t s E).
Qed.

Lemma process_leaves (env : nat -> Stat) (j : nat) (wt st : Q) (it : Z)
    (s : State) (f : nat) :
  leaves s j f ->
  layouts (snd (process env j wt st it s)) f = layouts s f.
Proof.
  unfold leaves, process. destruct (handlers s !! j) as [h|] eqn:Hh;
    [|reflexivity].
  assert (handler_tasks s j = tasks h) as Hts
    by (unfold handler_tasks; by rewrite Hh).
  destruct (sink h) as [d|[sys|]|fh]; intros Hf.
  - unfold process_dictionary. rewrite Hts.
    apply for_each_leaves; [apply lays_out_dictionary| |exact Hf].
    intros t s0 E. unfold mbind, M_bind.
    by rewrite (require_task_layout_missing t s0 E).
  - simpl. apply Hf.
  - reflexivity.
  - unfold process_file. destruct (begin_write fh (env j)) as [fh'| |];
      [|reflexivity|reflexivity].
    rewrite Hts.
    set (s1 := with_handlers (alter (set_sink (FileSink fh')) j (handlers s)) s).
    change ((modify (fun s => with_handlers
               (alter (set_sink (FileSink fh')) j (handlers s)) s) ;;
             for_each (fun t => require_task_layout t ;; mret tt) (tasks h)) s)
      with (for_each (fun t => require_task_layout t ;; mret tt) (tasks h) s1).
    change (layouts s f) with (layouts s1 f).
    apply for_each_leaves; [apply lays_out_file| |exact Hf].
    intros t s0 E. unfold mbind, M_bind.
    by rewrite (require_task_layout_missing t s0 E).
Qed.

Lemma preserves_outs_process (env : nat -> Stat) (i : nat) (wt st : Q) (it : Z) :
  preserves outs (process env i wt st it).
Proof.
  assert (forall t, preserves outs (require_task_layout t)) as Hreq.
  { intros t. by apply preserves_require_task_layout. }
  intros s. unfold process.
  destruct (handlers s !! i) as [h|]; [|reflexivity].
  destruct (sink h) as [d|[sys|]|fh]; [| reflexivity | reflexivity |].
  - revert s.
    apply (preserves_reading outs (fun s => handler_tasks s i)
             (fun ts => for_each
                (fun t => out ← require_task_layout t; dictionary_store i t out)
                ts)).
    intros ts. apply preserves_for_each. intros t.
    apply preserves_bind; [apply Hreq|]. intros out.
    by apply preserves_modify.
  - unfold process_file. destruct (begin_write fh (env i)) as [fh'|e|];
      try reflexivity.
    revert s.
    apply (preserves_reading outs (fun s => handler_tasks s i)
             (fun ts => modify (fun s => with_handlers
                          (alter (set_sink (FileSink fh')) i (handlers s)) s) ;;
                        for_each (fun t => require_task_layout t ;; mret tt) ts)).
    intros ts. apply preserves_bind.
    + by apply preserves_modify.
    + intros _. apply preserves_for_each. intros t.
      apply preserves_bind; [apply Hreq|]. intros _. apply preserves_ret.
Qed.

Lemma preserves_kind_process (env : nat -> Stat) (i : nat) (wt st : Q) (it : Z) :
  preserves (fun s => process_kind <$> handlers s) (process env i wt st it).
Proof.
  assert (forall t, preserves (fun s => process_kind <$> handlers s)
                      (require_task_layout t)) as Hreq.
  { intros t. by apply preserves_require_task_layout. }
  intros s. unfold process.
  destruct (handlers s !! i) as [h|] eqn:Hh; [|reflexivity].
  destruct (sink h) as [d|[sys|]|fh] eqn:Hsink; [| reflexivity | reflexivity |].
  - revert s Hh.
    assert (forall ts, preserves (fun s => process_kind <$> handlers s)
              (for_each
                 (fun t => out ← require_task_layout t; dictionary_store i t out)
                 ts)) as H.
    { intros ts. apply preserves_for_each. intros t.
      apply preserves_bind; [apply Hreq|]. intros out.
      apply preserves_modify. intros s. simpl.
      apply fmap_alter_at. intros h0 _. unfold process_kind.
      destruct (sink h0) eqn:E0; simpl; by rewrite ?E0. }
    intros s _. apply H.
  - unfold process_file. destruct (begin_write fh (env i)) as [fh'|e|];
      try reflexivity.
    assert (preserves (fun s => process_kind <$> handlers s)
              (for_each (fun t => require_task_layout t ;; mret tt)
                        (handler_tasks s i))) as H.
    { apply preserves_for_each. intros t.
      apply preserves_bind; [apply Hreq|]. intros _. apply preserves_ret. }
    unfold mbind, M_bind, modify. rewrite H. simpl.
    apply fmap_alter_at. intros h0 Hh0. rewrite Hh in Hh0.
    injection Hh0 as <-. unfold process_kind. simpl. by rewrite Hsink.
Qed.

Lemma leaves_stable (s s' : State) (j f : nat) :
  process_kind <$> handlers s' = process_kind <$> handlers s ->
  outs s' = outs s ->
  leaves s j f -> leaves s' j f.
Proof.
  intros Hk Ho. unfold leaves.
  apply (f_equal (fun l => l !! j)) in Hk. rewrite !list_lookup_fmap in Hk.
  rewrite Ho.
  destruct (handlers s' !! j) as [h'|], (handlers s !! j) as [h|];
    try discriminate; [|done].
  simpl in Hk. injection Hk as Ht Hs. rewrite Ht.
  destruct (sink h') as [d'|sys'|fh'], (sink h) as [d|sys|fh];
    try discriminate; try done.
  by injection Hs as ->.
Qed.

Lemma for_each_process_kind (env : nat -> Stat) (wt st : Q) (it : Z)
    (pre : list nat) (s s2 : State) :
  for_each (fun i => process env i wt st it) pre s = (Done tt, s2) ->
  outs s2 = outs s /\
  process_kind <$> handlers s2 = process_kind <$> handlers s.
Proof.
  revert s. induction pre as [|i pre IH]; intros s E.
  { injection E as <-. done. }
  cbn [for_each] in E. unfold mbind, M_bind in E.
  pose proof (preserves_outs_process env i wt st it s) as Ho.
  pose proof (preserves_kind_process env i wt st it s) as Hk.
  destruct (process env i wt st it s) as [[[]|e|] s1]; try discriminate.
  simpl in *. destruct (IH s1 E) as [Ho' Hk']. by rewrite Ho', Hk'.
Qed.

(** The [process] calls made before a handler is reached leave alone every
    field that none of them moves. *)
Lemma for_each_process_leaves (env : nat -> Stat) (wt st : Q) (it : Z)
    (pre : list nat) (s s2 : State) (f : nat) :
  for_each (fun i => process env i wt st it) pre s = (Done tt, s2) ->
  (forall j, j ∈ pre -> leaves s j f) ->
  layouts s2 f = layouts s f /\ outs s2 = outs s /\
  process_kind <$> handlers s2 = process_kind <$> handlers s.
Proof.
  revert s. induction pre as [|i pre IH]; intros s E Hf.
  { injection E as <-. done. }
  cbn [for_each] in E. unfold mbind, M_bind in E.
  pose proof (process_leaves env i wt st it s f) as Hl.
  pose proof (preserves_outs_process env i wt st it s) as Ho.
  pose proof (preserves_kind_process env i wt st it s) as Hk.
  destruct (process env i wt st it s) as [[[]|e|] s1]; try discriminate.
  simpl in *.
  destruct (IH s1 E) as (Hl2 & Ho2 & Hk2).
  { intros j Hj. apply (leaves_stable s s1); [exact Hk|exact Ho|].
    apply Hf. apply elem_of_cons. by right. }
  rewrite Hl2, Ho2, Hk2, Hl, Ho, Hk; [done|].
  apply Hf. apply elem_of_cons. by left.
Qed.

Lemma handler_tasks_kind (s s' : State) (i : nat) :
  process_kind <$> handlers s' = process_kind <$> handlers s ->
  handler_tasks s' i = handler_tasks s i.
Proof.
  intros Hk. apply (f_equal (fun l => l !! i)) in Hk.
  rewrite !list_lookup_fmap in Hk. unfold handler_tasks.
  destruct (handlers s' !! i), (handlers s !! i); try discriminate;
    [|reflexivity].
  simpl in Hk. by injection Hk.
Qed.

(** C5, as the code has it.  [evaluate_handlers] starts its loop of
    [process] calls with every ['out'] in coefficient space, whatever layout
    the task asks for.  When the [process] of a handler is invoked, the
    ['out'] of each of its tasks is therefore in coefficient space, unless a
    handler processed before it in the same call has moved that field.  It
    is [DictionaryHandler.process] and [FileHandler.process] that put each
    ['out'] in [task['layout']], just before storing or writing it: when the
    ['out'] fields of the handler's tasks are distinct, each is in the layout
    of its task when [process] returns.  [SystemHandler.process] asks for
    no layout; on a handler whose system was never built it raises
    [AttributeError]. *)
Theorem C5_process_puts_outputs_in_requested_layout
    (fuel : nat) (env : nat -> Stat) (hs : list nat)
    (wall_time sim_time : Q) (iteration : Z) (s : State) :
  fst (resolve fuel hs sim_time s) <> OutOfFuel ->
  let s1 := snd (resolve fuel hs sim_time s) in
  let process_all :=
    for_each (fun i => process env i wall_time sim_time iteration) in
  (evaluate_handlers fuel env hs wall_time sim_time iteration s
     = process_all hs s1 /\
   forall i t, i ∈ hs -> t ∈ handler_tasks s1 i ->
     exists out, outs s1 !! tid t = Some out /\ layouts s1 out = 0%nat) /\
  (forall (pre : list nat) (i : nat) (post : list nat) (s2 : State),
     hs = pre ++ i :: post ->
     process_all pre s1 = (Done tt, s2) ->
     process_all hs s1 = process_all (i :: post) s2 /\
     forall t, t ∈ handler_tasks s2 i ->
       exists out, outs s2 !! tid t = Some out /\
         ((forall j, j ∈ pre -> leaves s1 j out) -> layouts s2 out = 0%nat)) /\
  (forall (i : nat) (h : Handler) (st : State),
     handlers st !! i = Some h ->
     let r := fst (process env i wall_time sim_time iteration st) in
     let st' := snd (process env i wall_time sim_time iteration st) in
     (forall t out, outs st !! tid t = Some out ->
        exists st1, require_task_layout t st = (Done out, st1) /\
                    layouts st1 out = layout t) /\
     (sink h = SystemSink None -> r = Raised AttributeError /\ st' = st) /\
     ((exists d, sink h = DictionarySink d) \/
      (exists fh fh', sink h = FileSink fh /\
                      begin_write fh (env i) = Done fh') ->
      (forall t, t ∈ tasks h -> has_out st t) ->
      NoDup ((fun t => outs st !! tid t) <$> tasks h) ->
      r = Done tt /\
      forall t, t ∈ tasks h ->
        exists out, outs st !! tid t = Some out /\ layouts st' out = layout t)).
Proof.
  intros Hfuel s1 process_all.
  destruct (resolve_finished fuel hs sim_time s Hfuel) as [Eres Hout].
  fold s1 in Hout.
  pose proof (preserves_resolve handlers (fun _ _ => eq_refl)
                (fun _ _ => eq_refl) fuel hs sim_time s) as Hhs.
  fold s1 in Hhs.
  assert (forall i t, i ∈ hs -> t ∈ handler_tasks s1 i ->
            exists out, outs s1 !! tid t = Some out /\ layouts s1 out = 0%nat)
    as Hcoeff.
  { intros i t Hi Ht. apply (Hout i t Hi).
    by rewrite <- (handler_tasks_handlers s1 s i). }
  split; [|split].
  - split; [|exact Hcoeff].
    unfold evaluate_handlers, mbind, M_bind. subst s1.
    destruct (resolve fuel hs sim_time s) as [r s']. simpl in *. by subst r.
  - intros pre i post s2 -> Epre. split.
    { unfold process_all in *. by rewrite for_each_app, Epre. }
    intros t Ht.
    destruct (for_each_process_kind env wall_time sim_time iteration
                pre s1 s2 Epre) as [Ho Hk].
    rewrite (handler_tasks_kind s1 s2 i Hk) in Ht.
    destruct (Hcoeff i t) as (out & Eout & Hzero);
      [apply elem_of_app; right; apply elem_of_cons; by left|exact Ht|].
    exists out. split; [by rewrite Ho|]. intros Hleaves.
    destruct (for_each_process_leaves env wall_time sim_time iteration
                pre s1 s2 out Epre Hleaves) as (Hl & _).
    by rewrite Hl.
  - intros i h st Hh r st'. split; [|split].
    + intros t out Eout. eexists.
      split; [by apply require_task_layout_spec|]. simpl. apply set_layout_same.
    + intros Hsink. subst r st'. unfold process. by rewrite Hh, Hsink.
    + intros Hsink Hall Hnd. subst r st'. unfold process. rewrite Hh.
      assert (handler_tasks st i = tasks h) as Hts
        by (unfold handler_tasks; by rewrite Hh).
      destruct Hsink as [[d ->]|(fh & fh' & -> & Efh)].
      * unfold process_dictionary. rewrite Hts.
        destruct (for_each_lays_out _ (tasks h) st (lays_out_dictionary i)
                    Hall Hnd) as (st1 & E & _ & Hlay & _).
        rewrite E. split; [reflexivity|exact Hlay].
      * unfold process_file. rewrite Efh, Hts.
        set (st0 := with_handlers
                      (alter (set_sink (FileSink fh')) i (handlers st)) st).
        change ((modify (fun s => with_handlers
                   (alter (set_sink (FileSink fh')) i (handlers s)) s) ;;
                 for_each (fun t => require_task_layout t ;; mret tt) (tasks h))
                  st)
          with (for_each (fun t => require_task_layout t ;; mret tt)
                  (tasks h) st0).
        destruct (for_each_lays_out _ (tasks h) st0 lays_out_file Hall Hnd)
          as (st2 & E & _ & Hlay & _).
        rewrite E. split; [reflexivity|exact Hlay].
Qed.

Lemma C5_witness :
  let a := {| operator := computable_in 1 0 0; layout := 1; name := "a";
              tid := 0 |} in
  let b := {| operator := computable_in 1 5 5; layout := 1; name := "b";
              tid := 1 |} in
  let ha := add_task_to a (Handler_init None Inf Inf Inf (DictionarySink ∅)) in
  let hb := add_task_to b (Handler_init None Inf Inf Inf (DictionarySink ∅)) in
  let s := add_handlers [ha; hb] (Evaluator_init 1 (fun _ => 0%nat)) in
  let s1 := snd (resolve 1 [0%nat; 1%nat] 0 s) in
  let s2 := snd (process no_stat 0 0 0 0 s1) in
  (fst (resolve 1 [0%nat; 1%nat] 0 s) <> OutOfFuel /\
   process no_stat 0 0 0 0 s1 = (Done tt, s2) /\
   handler_tasks s2 1 = [b] /\ leaves s1 0 5) /\
  (outs s2 !! tid a = Some 0%nat /\ layouts s2 0%nat = 1%nat) /\
  outs s2 !! tid b = Some 5%nat /\
  layouts s2 5%nat = 0%nat /\
  layouts (snd (process no_stat 1 0 0 0 s2)) 5%nat = 1%nat.
Proof.
  intros a b ha hb s s1 s2.
  assert (fst (resolve 1 [0%nat; 1%nat] 0 s) <> OutOfFuel) as Hfuel
    by (vm_compute; discriminate).
  assert (for_each (fun i => process no_stat i 0 0 0) [0%nat] s1 = (Done tt, s2))
    as Epre by reflexivity.
  assert (leaves s1 0 5) as Hleaves.
  { change (forall t, t ∈ [a] -> outs s1 !! tid t <> Some 5%nat).
    intros t Ht. apply list_elem_of_singleton in Ht. subst t.
    vm_compute. discriminate. }
  split; [by repeat split|]. split; [by split|].
  assert (outs s2 !! tid b = Some 5%nat) as Eb by reflexivity.
  split; [exact Eb|].
  destruct (C5_process_puts_outputs_in_requested_layout
              1 no_stat [0%nat; 1%nat] 0 0 0 s Hfuel)
    as (_ & Hinvoked & Hprocess).
  split.
  - destruct (Hinvoked [0%nat] 1%nat [] s2 eq_refl Epre) as [_ Hcoeff].
    destruct (Hcoeff b) as (out & Eout & Hzero);
      [apply elem_of_cons; by left|].
    fold s2 in Eout. rewrite Eb in Eout. injection Eout as <-.
    apply Hzero. intros j Hj. apply list_elem_of_singleton in Hj. by subst j.
  - destruct (Hprocess 1%nat hb s2 eq_refl) as (_ & _ & Hlay).
    destruct Hlay as [_ Hlay].
    + left. by exists ∅.
    + intros t Ht. apply list_elem_of_singleton in Ht. subst t. by exists 5%nat.
    + apply NoDup_singleton.
    + destruct (Hlay b) as (out & Eout & Hl); [apply elem_of_cons; by left|].
      rewrite Eb in Eout. injection Eout as <-. exact Hl.
Defined.

(** The condition on the handlers processed before is needed: a field that
    is the ['out'] of a task of two handlers is in the layout the first one
    asked for when the [process] of the second is invoked. *)
Lemma shared_out_is_moved_by_the_handler_before :
  let a := {| operator := computable_in 1 0 0; layout := 1; name := "a";
              tid := 0 |} in
  let b := {| operator := computable_in 0 0 0; layout := 0; name := "b";
              tid := 1 |} in
  let ha := add_task_to a (Handler_init None Inf Inf Inf (DictionarySink ∅)) in
  let hb := add_task_to b (Handler_init None Inf Inf Inf (DictionarySink ∅)) in
  let s := add_handlers [ha; hb] (Evaluator_init 1 (fun _ => 0%nat)) in
  let s1 := snd (resolve 1 [0%nat; 1%nat] 0 s) in
  let s2 := snd (process no_stat 0 0 0 0 s1) in
  fst (resolve 1 [0%nat; 1%nat] 0 s) = Done tt /\
  process no_stat 0 0 0 0 s1 = (Done tt, s2) /\
  outs s1 !! tid b = Some 0%nat /\ layouts s1 0%nat = 0%nat /\
  outs s2 !! tid b = Some 0%nat /\ layouts s2 0%nat = 1%nat.
Proof. by repeat split. Qed.

(** C5, as the spec states it, fails: a task that asks for grid space (the
    layout of index 1) has its ['out'] in coefficient space (index 0) in the
    state in which [evaluate_handlers] invokes [process]. *)
Lemma C5_out_in_coefficient_space_at_process :
  let t := {| operator := computable_in 1 0 1; layout := 1; name := "task";
              tid := 0 |} in
  let s := one_task 1 (computable_in 1 0 1) in
  let s' := snd (resolve 1 [0%nat] 0 s) in
  evaluate_handlers 1 no_stat [0%nat] 0 0 0 s
    = for_each (fun i => process no_stat i 0 0 0) [0%nat] s' /\
  handler_tasks s' 0 = [t] /\
  outs s' !! tid t = Some 1%nat /\
  layouts s' 1%nat = 0%nat /\
  layouts s' 1%nat <> layout t.
Proof.
  intros t s s'. split; [reflexivity|]. split; [reflexivity|].
  split; [reflexivity|]. split; [reflexivity|]. simpl. discriminate.
Qed.

(** * FileHandler: write-count rollover *)

Section WriteLimit.

Variables (N max_sz : Z) (par : bool).
Hypothesis N_pos : 0 < N.

Let configured (fh : FileHandler) : Prop :=
  max_writes fh = Lim N /\ max_size fh = max_sz /\ parallel fh = par.

Lemma total_mod_rolled (fh : FileHandler) :
  1 <= file_write_num fh <= N ->
  total_write_num fh = (file_num fh - 1) * N + file_write_num fh ->
  (total_write_num fh mod N = 0 <-> file_write_num fh = N).
Proof.
  intros Hw Ht. rewrite Ht. rewrite Z.add_comm, Z.mod_add by lia.
  destruct (decide (file_write_num fh = N)) as [->|Hne].
  - rewrite Z.mod_same by lia. tauto.
  - rewrite Z.mod_small by lia. lia.
Qed.

(** One [process] call below the size limit. *)
Lemma begin_write_rolled (fh : FileHandler) (io : Stat) :
  configured fh -> rolled N fh -> below_size_limit max_sz par io ->
  exists fh',
    begin_write fh io = Done fh' /\ configured fh' /\ rolled N fh' /\
    total_write_num fh' = total_write_num fh + 1 /\
    file_num fh' = if decide (total_write_num fh mod N = 0)
                   then file_num fh + 1 else file_num fh.
Proof.
  intros (Hmw & Hms & Hpar) [Hcount Hfiles] Hbelow.
  unfold begin_write, get_file.
  destruct Hcount as [(Hfn & Hpath & Htot & Hfw)|(Hfn & Hpath & Hfw & Htot)].
  - rewrite Hpath. simpl. eexists. split; [reflexivity|]. simpl.
    split; [done|]. split; [|split; [lia|]].
    + split; [right; simpl; rewrite Hfn, Htot; repeat split; try reflexivity; lia|].
      intros j. simpl. rewrite !lookup_insert, Hfiles, Hfn.
      repeat case_decide; try lia; try reflexivity; f_equal; lia.
    + rewrite Htot, Z.mod_0_l by lia. by rewrite decide_True.
  - rewrite Hpath. unfold check_file_limits. rewrite Hmw. simpl.
    destruct (Z.eqb_spec N 0) as [?|_]; [lia|].
    assert ((if parallel fh then max_size fh <=? st_size io
             else Allreduce_LOR (max_size fh <=? st_size io) (peers io)) = false)
      as -> by (rewrite Hpar, Hms; exact Hbelow).
    rewrite orb_false_r.
    pose proof (total_mod_rolled fh Hfw Htot) as Hmod.
    destruct (Z.eqb_spec (total_write_num fh mod N) 0) as [Hz|Hnz].
    + simpl. eexists. split; [reflexivity|]. simpl.
      split; [done|]. split; [|split; [lia|by rewrite decide_True]].
      apply Hmod in Hz.
      split; [right; simpl; repeat split; try reflexivity; lia|].
      intros j. simpl. rewrite !lookup_insert, Hfiles.
      repeat case_decide; try lia; try reflexivity; f_equal; lia.
    + eexists. split; [reflexivity|]. simpl.
      split; [done|]. split; [|split; [lia|by rewrite decide_False]].
      assert (file_write_num fh <> N) as Hlt by tauto.
      split; [right; simpl; repeat split; try assumption; lia|].
      intros j. simpl. rewrite lookup_insert, Hfiles.
      repeat case_decide; try lia; try reflexivity; f_equal; lia.
Qed.

(** A run of [process] calls below the size limit. *)
Lemma writes_rolled (ios : list Stat) (fh : FileHandler) :
  configured fh -> rolled N fh ->
  Forall (below_size_limit max_sz par) ios ->
  exists fh',
    writes fh ios = Done fh' /\ configured fh' /\ rolled N fh' /\
    total_write_num fh' = total_write_num fh + Z.of_nat (length ios).
Proof.
  intros Hc Hr Hios. revert fh Hc Hr.
  induction Hios as [|io ios Hio _ IH]; intros fh Hc Hr.
  - exists fh. simpl. split; [reflexivity|]. split; [exact Hc|].
    split; [exact Hr|lia].
  - destruct (begin_write_rolled fh io Hc Hr Hio) as (fh1 & E1 & Hc1 & Hr1 & Ht1 & _).
    destruct (IH fh1 Hc1 Hr1) as (fh' & E' & Hc' & Hr' & Ht').
    exists fh'. cbn [writes]. rewrite E1. split; [exact E'|].
    split; [exact Hc'|]. split; [exact Hr'|]. rewrite Ht', Ht1.
    cbn [length]. lia.
Qed.

End WriteLimit.

Lemma rolled_init (N max_sz : Z) (par : bool) :
  rolled N (FileHandler_init (Lim N) max_sz par).
Proof.
  split; [left; done|]. intros j. simpl. rewrite lookup_empty.
  repeat case_decide; try lia; reflexivity.
Qed.

(** What makes [process] start a new file. *)
Lemma begin_write_new_file (N : Z) (fh : FileHandler) (io : Stat) :
  0 < N -> max_writes fh = Lim N ->
  exists fh',
    begin_write fh io = Done fh' /\
    (file_num fh' = file_num fh + 1 \/ file_num fh' = file_num fh) /\
    (file_num fh' = file_num fh + 1 <->
     current_path fh = None \/ total_write_num fh mod N = 0 \/
     at_size_limit fh io).
Proof.
  intros HN Hmw. unfold begin_write, get_file.
  destruct (current_path fh) as [path|] eqn:Hpath.
  - unfold check_file_limits, at_size_limit. rewrite Hmw. simpl.
    destruct (Z.eqb_spec N 0) as [?|_]; [lia|].
    destruct (Z.eqb_spec (total_write_num fh mod N) 0) as [Hz|Hnz]; simpl.
    { eexists. split; [reflexivity|]. simpl. split; [by left|]. tauto. }
    destruct (if parallel fh then max_size fh <=? st_size io
              else Allreduce_LOR (max_size fh <=? st_size io) (peers io));
      simpl; eexists; (split; [reflexivity|]); simpl.
    + split; [by left|]. tauto.
    + split; [by right|]. split; [lia|].
      intros [?|[?|?]]; [discriminate|contradiction|discriminate].
  - simpl. eexists. split; [reflexivity|]. simpl. split; [by left|]. tauto.
Qed.

(** C7, as the code has it.  [FileHandler.process] creates a file on the
    first call, and afterwards when [total_write_num % max_writes == 0] (the
    counter is read before [process] increments it) or when the size limit
    is reached.  With [max_writes = N] and a size limit that is not reached,
    a file is therefore created on the first call and then on the calls
    [N + 1], [2 N + 1], ...: after any number of calls every file but the
    current one holds exactly [N] writes, and the current one between [1]
    and [N]; with [N = 3], nine calls leave three files of three writes
    each. *)
Theorem C7_write_count_rollover
    (N max_sz : Z) (par : bool) (ios : list Stat) :
  0 < N ->
  Forall (below_size_limit max_sz par) ios ->
  (forall (fh0 : FileHandler) (io : Stat),
     max_writes fh0 = Lim N ->
     exists fh',
       begin_write fh0 io = Done fh' /\
       (file_num fh' = file_num fh0 + 1 \/ file_num fh' = file_num fh0) /\
       (file_num fh' = file_num fh0 + 1 <->
        current_path fh0 = None \/ total_write_num fh0 mod N = 0 \/
        at_size_limit fh0 io)) /\
  exists fh,
    writes (FileHandler_init (Lim N) max_sz par) ios = Done fh /\
    total_write_num fh = Z.of_nat (length ios) /\
    rolled N fh /\
    file_num fh = (Z.of_nat (length ios) + N - 1) / N /\
    (forall io, below_size_limit max_sz par io ->
       exists fh',
         begin_write fh io = Done fh' /\
         file_num fh' = if decide (Z.of_nat (length ios) mod N = 0)
                        then file_num fh + 1 else file_num fh) /\
    (N = 3 -> length ios = 9%nat ->
       file_num fh = 3 /\
       containers fh = <[1 := 3]> (<[2 := 3]> (<[3 := 3]> ∅))).
Proof.
  intros HN Hios. split.
  { intros fh0 io Hmw. by apply begin_write_new_file. }
  destruct (writes_rolled N max_sz par HN ios (FileHandler_init (Lim N) max_sz par))
    as (fh & E & Hc & Hr & Ht0); [done|apply rolled_init|exact Hios|].
  assert (total_write_num fh = Z.of_nat (length ios)) as Ht
    by (rewrite Ht0; simpl; lia).
  clear Ht0. exists fh. split; [exact E|]. split; [exact Ht|].
  split; [exact Hr|]. split; [|split].
  - destruct Hr as [[(Hfn & _ & Htot & _)|(Hfn & _ & Hfw & Htot)] _].
    + rewrite Hfn, <- Ht, Htot. symmetry. apply Z.div_small. lia.
    + rewrite <- Ht, Htot.
      replace ((file_num fh - 1) * N + file_write_num fh + N - 1)
        with (file_write_num fh - 1 + file_num fh * N) by lia.
      rewrite Z.div_add by lia. rewrite Z.div_small by lia. lia.
  - intros io Hio.
    destruct (begin_write_rolled N max_sz par HN fh io Hc Hr Hio)
      as (fh' & E' & _ & _ & _ & Hfn').
    exists fh'. split; [exact E'|]. by rewrite <- Ht.
  - intros -> Hlen. rewrite Hlen in Ht.
    destruct Hr as [[(Hfn & _ & Htot & _)|(Hfn & _ & Hfw & Htot)] Hfiles];
      [lia|].
    assert (file_num fh = 3) as Hfn3 by lia.
    assert (file_write_num fh = 3) as Hfw3 by lia.
    split; [exact Hfn3|]. apply map_eq. intros j.
    rewrite Hfiles, Hfn3, Hfw3, !lookup_insert, lookup_empty.
    repeat case_decide; try lia; reflexivity.
Qed.

Lemma C7_witness :
  (0 < 3 /\
   Forall (below_size_limit default_max_size false)
     (replicate 9 {| st_size := 4096; peers := [false; false] |})) /\
  exists fh,
    writes (FileHandler_init (Lim 3) default_max_size false)
      (replicate 9 {| st_size := 4096; peers := [false; false] |}) = Done fh /\
    file_num fh = 3 /\
    containers fh = <[1 := 3]> (<[2 := 3]> (<[3 := 3]> ∅)).
Proof.
  assert (0 < 3) as HN by lia.
  assert (Forall (below_size_limit default_max_size false)
            (replicate 9 {| st_size := 4096; peers := [false; false] |})) as Hios.
  { apply Forall_replicate. reflexivity. }
  split; [by split|].
  destruct (C7_write_count_rollover 3 default_max_size false _ HN Hios)
    as (_ & fh & E & _ & _ & _ & _ & Hnine).
  exists fh. split; [exact E|]. by apply Hnine.
Defined.

(** C7, as the spec states it, fails: files are not created exactly every
    [N] calls when the size limit is reached in between.  With
    [max_writes = 4] and [max_size = 1000], seven calls of which the fourth
    finds the first file at 1200 bytes create the files 1, 2 and 3 on the
    calls 1, 4 and 5 (the write-limit check reads the running
    [total_write_num], which is 4 at the fifth call), and leave them with 3,
    1 and 3 writes. *)
Lemma C7_size_limit_shifts_the_files :
  let at_size n := {| st_size := n; peers := [] |} in
  let ios := [at_size 0; at_size 400; at_size 800; at_size 1200;
              at_size 400; at_size 400; at_size 800] in
  let files_after k :=
    match writes (FileHandler_init (Lim 4) 1000 true) (take k ios) with
    | Done fh => Some (file_num fh)
    | _ => None
    end in
  files_after <$> [0; 1; 2; 3; 4; 5; 6; 7]%nat
  = Some <$> [0; 1; 1; 1; 2; 3; 3; 3] /\
  exists fh,
    writes (FileHandler_init (Lim 4) 1000 true) ios = Done fh /\
    total_write_num fh = 7 /\ file_num fh = 3 /\
    containers fh = <[1 := 3]> (<[2 := 1]> (<[3 := 3]> ∅)).
Proof.
  intros at_size ios files_after. split.
  - vm_compute. reflexivity.
  - eexists. split; [vm_compute; reflexivity|].
    split; [reflexivity|]. split; [reflexivity|]. vm_compute. reflexivity.
Qed.

(** * FileHandler: the write footprint *)

Lemma mask_assign_lookup (a : list Z) (mask : list bool) (v : Z) (k : nat)
    (x : Z) (m : bool) :
  a !! k = Some x -> mask !! k = Some m ->
  mask_assign a mask v !! k = Some (if m then v else x).
Proof.
  intros Ha Hm. unfold mask_assign. rewrite lookup_zip_with, Ha. simpl.
  by rewrite Hm.
Qed.

Lemma mask_and_lookup (a b : list bool) (k : nat) (x y : bool) :
  a !! k = Some x -> b !! k = Some y -> mask_and a b !! k = Some (x && y).
Proof.
  intros Ha Hb. unfold mask_and. rewrite lookup_zip_with, Ha. simpl.
  by rewrite Hb.
Qed.

(** The count written along one axis. *)
Lemma write_count_lookup (fh : FileHandler) (l : LayoutShape)
    (constant : list bool) (index : Z) (k : nat) (c : bool) (s n : Z) :
  constant !! k = Some c -> start l !! k = Some s -> shape l !! k = Some n ->
  snd (get_write_stats fh l constant index) !! k
  = Some (if c then (if s =? 0 then 1 else 0) else n).
Proof.
  intros Hc Hs Hn.
  assert (((fun x => x =? 0) <$> start l) !! k = Some (s =? 0)) as Hfirst
    by (by rewrite list_lookup_fmap, Hs).
  assert (mask_not ((fun x => x =? 0) <$> start l) !! k = Some (negb (s =? 0)))
    as Hnot by (unfold mask_not; by rewrite list_lookup_fmap, Hfirst).
  unfold get_write_stats. destruct (parallel fh); simpl;
    (erewrite mask_assign_lookup;
     [ | erewrite mask_assign_lookup;
         [reflexivity | exact Hn | by apply mask_and_lookup]
       | by apply mask_and_lookup ]);
    destruct c, (s =? 0); reflexivity.
Qed.

(** C8. [FileHandler.get_write_stats], axis by axis: [write_count] is [1] on
    a constant axis of the process that starts at [0], [0] on a constant axis
    of any other process, and the local extent elsewhere; [global_nc_shape]
    is [1] on a constant axis and the global extent elsewhere;
    [global_nc_start] is [1] on a constant axis of a process that is not
    first, and the local start elsewhere.  A parallel handler writes with the
    [global_nc] shape and start, an independent one with [write_count] as
    shape and [0] as start.  Of two processes that start at different
    offsets of a constant axis, at most one writes along it. *)
Theorem C8_get_write_stats_axis
    (fh : FileHandler) (l : LayoutShape) (constant : list bool) (index : Z)
    (k : nat) (c : bool) (s n g : Z) :
  constant !! k = Some c ->
  start l !! k = Some s ->
  shape l !! k = Some n ->
  global_shape l !! k = Some g ->
  match get_write_stats fh l constant index with
  | (global_nc_shape, global_nc_start, write_shape, write_start, write_count) =>
      write_count !! k = Some (if c then (if s =? 0 then 1 else 0) else n) /\
      global_nc_shape !! k = Some (if c then 1 else g) /\
      global_nc_start !! k = Some (if c && negb (s =? 0) then 1 else s) /\
      (parallel fh = true ->
         write_shape = global_nc_shape /\ write_start = global_nc_start) /\
      (parallel fh = false ->
         write_shape = write_count /\ write_start !! k = Some 0 /\
         Forall (fun x => x = 0) write_start)
  end /\
  (forall (fh' : FileHandler) (l' : LayoutShape) (index' : Z) (s' n' : Z),
     start l' !! k = Some s' -> shape l' !! k = Some n' ->
     c = true -> s <> s' ->
     exists w w',
       snd (get_write_stats fh l constant index) !! k = Some w /\
       snd (get_write_stats fh' l' constant index') !! k = Some w' /\
       0 <= w /\ 0 <= w' /\ w + w' <= 1).
Proof.
  intros Hc Hs Hn Hg. split.
  - pose proof (write_count_lookup fh l constant index k c s n Hc Hs Hn) as Hwc.
    assert (((fun x => x =? 0) <$> start l) !! k = Some (s =? 0)) as Hfirst
      by (by rewrite list_lookup_fmap, Hs).
    assert (mask_not ((fun x => x =? 0) <$> start l) !! k = Some (negb (s =? 0)))
      as Hnot by (unfold mask_not; by rewrite list_lookup_fmap, Hfirst).
    unfold get_write_stats in *. destruct (parallel fh); simpl in Hwc |- *.
    + split; [exact Hwc|]. split; [by apply mask_assign_lookup|].
      split; [|split; [done|discriminate]].
      erewrite mask_assign_lookup;
        [reflexivity | exact Hs | by apply mask_and_lookup].
    + split; [exact Hwc|]. split; [by apply mask_assign_lookup|].
      split; [|split; [discriminate|]].
      * erewrite mask_assign_lookup;
          [reflexivity | exact Hs | by apply mask_and_lookup].
      * intros _. split; [reflexivity|]. split.
        -- by rewrite list_lookup_fmap, Hs.
        -- apply Forall_fmap, Forall_forall. intros x _. reflexivity.
  - intros fh' l' index' s' n' Hs' Hn' -> Hne.
    exists (if s =? 0 then 1 else 0), (if s' =? 0 then 1 else 0).
    split; [by apply (write_count_lookup fh l constant index k true s n)|].
    split; [by apply (write_count_lookup fh' l' constant index' k true s' n')|].
    destruct (Z.eqb_spec s 0), (Z.eqb_spec s' 0); lia.
Qed.

Lemma C8_witness :
  let l := {| global_shape := [64; 32]; shape := [16; 32]; start := [16; 0] |} in
  let fh := FileHandler_init Unlimited default_max_size false in
  ([true; false] !! 0%nat = Some true /\ start l !! 0%nat = Some 16 /\
   shape l !! 0%nat = Some 16 /\ global_shape l !! 0%nat = Some 64) /\
  get_write_stats fh l [true; false] 0
    = ([1; 32], [1; 0], [0; 32], [0; 0], [0; 32]) /\
  snd (get_write_stats fh l [true; false] 0) !! 0%nat = Some 0.
Proof.
  intros l fh. split; [by repeat split|]. split; [reflexivity|].
  destruct (C8_get_write_stats_axis fh l [true; false] 0 0 true 16 16 64
              eq_refl eq_refl eq_refl eq_refl) as [H _].
  exact (proj1 H).
Defined.

(** * FileHandler: the size limit across processes *)

Lemma existsb_id_fmap {A} (f : A -> bool) (l : list A) :
  existsb id (f <$> l) = existsb f l.
Proof.
  induction l as [|x l IH]; [reflexivity|].
  rewrite fmap_cons. cbn [existsb]. by rewrite IH.
Qed.

(** The reduction gives every rank the disjunction of all the local flags. *)
Lemma Allreduce_LOR_group (procs : list (FileHandler * Z)) (rank : nat)
    (p : FileHandler * Z) :
  procs !! rank = Some p ->
  Allreduce_LOR (local_size_limit p) (local_size_limit <$> delete rank procs)
  = existsb local_size_limit procs.
Proof.
  unfold Allreduce_LOR. rewrite existsb_id_fmap. revert rank.
  induction procs as [|p0 procs IH]; intros [|rank] Hp; try discriminate.
  - injection Hp as ->. reflexivity.
  - cbn [lookup list_lookup] in Hp. change (delete (S rank) (p0 :: procs))
      with (p0 :: delete rank procs). cbn [existsb].
    rewrite <- (IH rank Hp).
    destruct (local_size_limit p), (local_size_limit p0); reflexivity.
Qed.

Lemma existsb_local_size_limit (procs : list (FileHandler * Z)) (rank : nat)
    (p : FileHandler * Z) :
  procs !! rank = Some p -> local_size_limit p = true ->
  existsb local_size_limit procs = true.
Proof.
  intros Hp Hlim. apply existsb_exists. exists p. split; [|exact Hlim].
  apply list_elem_of_In. by apply list_elem_of_lookup_2 with rank.
Qed.

(** C9. In independent mode [FileHandler.check_file_limits] reports as size
    limit the disjunction, over the processes of the communicator, of the
    local test [st_size >= max_size].  When the file of one process has
    reached [max_size], [get_file] therefore creates the next file on every
    process: each [file_num] is incremented, also where the local file is
    small. *)
Theorem C9_size_limit_is_group_wide
    (procs : list (FileHandler * Z)) (q : nat) (fhq : FileHandler) (szq : Z) :
  procs !! q = Some (fhq, szq) ->
  parallel fhq = false ->
  max_writes fhq <> Lim 0 ->
  (exists write_limit,
     mod_is_zero (total_write_num fhq) (max_writes fhq) = Done write_limit /\
     check_file_limits fhq (group_stat procs q)
     = Done (write_limit || existsb local_size_limit procs)) /\
  (forall (p : nat) (fhp : FileHandler) (szp : Z),
     procs !! p = Some (fhp, szp) -> max_size fhp <= szp ->
     group_get_file procs !! q = Some (Done (new_file fhq)) /\
     file_num (snd (new_file fhq)) = file_num fhq + 1).
Proof.
  intros Hq Hpar Hmw.
  assert (exists wl, mod_is_zero (total_write_num fhq) (max_writes fhq) = Done wl)
    as [wl Hwl].
  { unfold mod_is_zero. destruct (max_writes fhq) as [n|]; [|eauto].
    destruct (Z.eqb_spec n 0) as [->|_]; [done|eauto]. }
  assert (check_file_limits fhq (group_stat procs q)
          = Done (wl || existsb local_size_limit procs)) as Hcheck.
  { unfold check_file_limits. rewrite Hwl, Hpar. unfold group_stat. simpl.
    rewrite Hq. simpl.
    by rewrite <- (Allreduce_LOR_group procs q (fhq, szq) Hq). }
  split; [exists wl; by split|].
  intros p fhp szp Hp Hsize. split; [|reflexivity].
  unfold group_get_file. rewrite list_lookup_imap, Hq. simpl. f_equal.
  unfold get_file. destruct (current_path fhq); [|reflexivity].
  rewrite Hcheck.
  rewrite (existsb_local_size_limit procs p (fhp, szp) Hp), orb_true_r;
    [reflexivity|].
  unfold local_size_limit. simpl. by apply Z.leb_le.
Qed.

Lemma C9_witness :
  let opened := {| max_writes := Unlimited; max_size := 1000; parallel := false;
                   file_num := 1; current_path := Some 1;
                   total_write_num := 1; file_write_num := 1;
                   containers := {[1 := 1]} |} in
  let procs := [(opened, 10); (opened, 2000); (opened, 20)] in
  let small := [(opened, 10); (opened, 900); (opened, 20)] in
  (procs !! 0%nat = Some (opened, 10) /\ parallel opened = false /\
   max_writes opened <> Lim 0 /\
   procs !! 1%nat = Some (opened, 2000) /\ max_size opened <= 2000) /\
  (begin_write (FileHandler_init Unlimited 1000 false)
     {| st_size := 0; peers := [] |} = Done opened /\
   mod_is_zero (total_write_num opened) (max_writes opened) = Done false /\
   group_get_file small !! 0%nat = Some (Done (1, opened))) /\
  check_file_limits opened (group_stat procs 0) = Done true /\
  group_get_file procs !! 0%nat = Some (Done (new_file opened)) /\
  file_num (snd (new_file opened)) = 2.
Proof.
  intros opened procs small.
  assert (max_writes opened <> Lim 0) as Hmw by discriminate.
  assert (max_size opened <= 2000) as Hsz by (simpl; lia).
  split; [by repeat split|].
  split; [split; [vm_compute; reflexivity|by split]|].
  destruct (C9_size_limit_is_group_wide procs 0 opened 10 eq_refl eq_refl Hmw)
    as [(wl & Hwl & Hcheck) Hroll].
  destruct (Hroll 1%nat opened 2000 eq_refl Hsz) as [Hget Hnum].
  split; [|split; [exact Hget|exact Hnum]].
  rewrite Hcheck. injection Hwl as <-. reflexivity.
Defined.

(** * The registry *)

Lemma positions_from_app (k : nat) (g : string) (hs : list Handler) (h : Handler) :
  positions_from k g (hs ++ [h])
  = positions_from k g hs
    ++ (if decide (group h = Some g) then [(k + length hs)%nat] else []).
Proof.
  revert k. induction hs as [|h0 hs IH]; intros k; simpl.
  - replace (k + 0)%nat with k by lia. by destruct (decide (group h = Some g)).
  - rewrite IH. replace (S k + length hs)%nat with (k + S (length hs))%nat by lia.
    by destruct (decide (group h0 = Some g)).
Qed.

Lemma add_handler_members (h : Handler) (s : State) (g : string) :
  handlers (add_handler h s) = handlers s ++ [h] /\
  group_members (add_handler h s) g
  = group_members s g
    ++ (if decide (group h = Some g) then [length (handlers s)] else []).
Proof.
  unfold add_handler, group_members. destruct (group h) as [g'|].
  - split; [reflexivity|]. cbn [groups with_groups with_handlers handlers].
    destruct (decide (Some g' = Some g)) as [Heq|Hne].
    + injection Heq as ->. by rewrite lookup_insert_eq.
    + rewrite lookup_insert_ne by congruence. by rewrite app_nil_r.
  - split; [reflexivity|]. cbn [groups with_handlers].
    destruct (decide (None = Some g)); [done|]. by rewrite app_nil_r.
Qed.

Lemma add_handlers_members (hs : list Handler) (s : State) (g : string) :
  group_members s g = positions_from 0 g (handlers s) ->
  handlers (add_handlers hs s) = handlers s ++ hs /\
  group_members (add_handlers hs s) g
  = positions_from 0 g (handlers s ++ hs).
Proof.
  revert s. induction hs as [|h hs IH]; intros s Hinv; simpl.
  - by rewrite app_nil_r.
  - destruct (add_handler_members h s g) as [Hh Hg].
    destruct (IH (add_handler h s)) as [Hh' Hg'].
    { rewrite Hg, Hh, Hinv, positions_from_app. reflexivity. }
    unfold add_handlers in *. rewrite Hh', Hg', Hh, <- app_assoc. done.
Qed.

(** Handlers added to a new evaluator keep the order in which they were
    added, and [groups[g]] lists, in that order, the positions of exactly
    the handlers declared with the group [g]; a handler without a group is
    in no group. *)
Theorem add_handler_groups_by_declared_group
    (Lmax : nat) (ls : Layouts) (hs : list Handler) (g : string) :
  let s := add_handlers hs (Evaluator_init Lmax ls) in
  handlers s = hs /\
  group_members s g = positions_from 0 g hs /\
  (forall i : nat, i ∈ group_members s g <->
     exists h, hs !! i = Some h /\ group h = Some g).
Proof.
  intros s.
  destruct (add_handlers_members hs (Evaluator_init Lmax ls) g) as [Hh Hg];
    [reflexivity|].
  simpl in Hh, Hg. split; [exact Hh|]. split; [exact Hg|].
  fold s in Hg. rewrite Hg. clear.
  assert (forall k i, i ∈ positions_from k g hs <->
            exists h, (k <= i)%nat /\ hs !! (i - k)%nat = Some h /\ group h = Some g)
    as H.
  { induction hs as [|h0 hs IH]; intros k i; simpl.
    - split; [intros H; inversion H|by intros (h & _ & H & _)].
    - assert (i ∈ positions_from (S k) g hs <->
              exists h, (k < i)%nat /\ (h0 :: hs) !! (i - k)%nat = Some h
                        /\ group h = Some g) as Htail.
      { rewrite IH. split; intros (h & Hk & Hl & Hgr); exists h;
          (split; [lia|split; [|exact Hgr]]).
        - replace (i - k)%nat with (S (i - S k)) by lia. exact Hl.
        - replace (i - k)%nat with (S (i - S k)) in Hl by lia. exact Hl. }
      destruct (decide (group h0 = Some g)) as [Hg0|Hg0].
      + rewrite elem_of_cons, Htail. split.
        * intros [->|(h & Hk & Hl & Hgr)].
          -- exists h0. replace (k - k)%nat with 0%nat by lia. done.
          -- exists h. split; [lia|done].
        * intros (h & Hk & Hl & Hgr).
          destruct (decide (i = k)) as [->|Hne]; [by left|right].
          exists h. split; [lia|done].
      + rewrite Htail. split.
        * intros (h & Hk & Hl & Hgr). exists h. split; [lia|done].
        * intros (h & Hk & Hl & Hgr). exists h. split; [|done].
          destruct (decide (i = k)) as [->|Hne]; [|lia].
          replace (k - k)%nat with 0%nat in Hl by lia. simpl in Hl. congruence. }
  intros i. rewrite H. replace (i - 0)%nat with i by lia.
  split; [intros (h & _ & ?); eauto|intros (h & ?); exists h; split; [lia|done]].
Qed.

(** [evaluate_group] with a group that no handler declared evaluates
    nothing: it returns at once, whatever the budget, and only enters the
    group in [groups], with no handler. *)
Theorem evaluate_group_unknown_group
    (fuel : nat) (env : nat -> Stat) (g : string)
    (wall_time sim_time : Q) (iteration : Z) (s : State) :
  groups s !! g = None ->
  evaluate_group fuel env g wall_time sim_time iteration s
  = (Done tt, with_groups (<[g := []]> (groups s)) s).
Proof.
  intros Hg. unfold evaluate_group. rewrite Hg. destruct s, fuel; reflexivity.
Qed.

Lemma evaluate_group_unknown_group_witness :
  groups (lone_handler Inf Inf Inf) !! "checkpoint" = None /\
  fst (evaluate_group 0 no_stat "checkpoint" 0 0 0 (lone_handler Inf Inf Inf))
  = Done tt.
Proof.
  assert (groups (lone_handler Inf Inf Inf) !! "checkpoint" = None) as H
    by reflexivity.
  split; [exact H|].
  by rewrite (evaluate_group_unknown_group 0 no_stat "checkpoint" 0 0 0 _ H).
Defined.

(** * Scheduling, further *)

Lemma schedule_handler_again (wt st : Q) (it : Z) (h h' : Handler) (b : bool) :
  schedule_handler wt st it h = Done (b, h') ->
  schedule_handler wt st it h' = Done (false, h').
Proof.
  unfold schedule_handler.
  destruct (floordiv wt (wall_dt h)) as [wd| |] eqn:Ew; try discriminate.
  destruct (floordiv st (sim_dt h)) as [sd| |] eqn:Es; try discriminate.
  destruct (floordiv (inject_Z it) (iter h)) as [id| |] eqn:Ei; try discriminate.
  destruct ((last_wall_div h <? wd) || (last_sim_div h <? sd)
            || (last_iter_div h <? id)) eqn:Eup; intros H; injection H as <- <-.
  - simpl. rewrite Ew, Es, Ei, !Z.ltb_irrefl. reflexivity.
  - rewrite Ew, Es, Ei, Eup. reflexivity.
Qed.

Lemma select_scheduled_again (wt st : Q) (it : Z) (hs hs' : list Handler)
    (k : nat) (l : list nat) :
  select_scheduled wt st it k hs = (Done l, hs') ->
  select_scheduled wt st it k hs' = (Done [], hs').
Proof.
  revert k l hs'. induction hs as [|h hs IH]; intros k l hs' H; simpl in H.
  - by injection H as <- <-.
  - destruct (schedule_handler wt st it h) as [[b h1]| |] eqn:Eh;
      try discriminate.
    destruct (select_scheduled wt st it (S k) hs) as [[l1| |] hs1] eqn:Ehs;
      try discriminate.
    injection H as <- <-. simpl.
    rewrite (schedule_handler_again wt st it h h1 b Eh).
    by rewrite (IH (S k) l1 hs1 Ehs).
Qed.

(** A second call of the scheduling loop with the same times and iteration
    selects no handler and changes nothing: a handler is not fired twice
    for the same divisors. *)
Theorem scheduling_twice_selects_nothing
    (wall_time sim_time : Q) (iteration : Z) (s : State) :
  Forall well_configured (handlers s) ->
  exists scheduled s1,
    scheduled_handlers wall_time sim_time iteration s = (Done scheduled, s1) /\
    scheduled_handlers wall_time sim_time iteration s1 = (Done [], s1).
Proof.
  intros Hok.
  destruct (select_scheduled_spec wall_time sim_time iteration _ Hok 0%nat)
    as (l & hs' & E & _).
  exists l, (with_handlers hs' s). unfold scheduled_handlers. rewrite E.
  split; [reflexivity|]. simpl.
  by rewrite (select_scheduled_again _ _ _ _ _ _ _ E).
Qed.

Lemma scheduling_twice_selects_nothing_witness :
  Forall well_configured (handlers (lone_handler (Fin (1#2)) (Fin 1) (Fin 10))) /\
  exists s1,
    scheduled_handlers (7#3) (5#2) 12 (lone_handler (Fin (1#2)) (Fin 1) (Fin 10))
      = (Done [0%nat], s1) /\
    scheduled_handlers (7#3) (5#2) 12 s1 = (Done [], s1).
Proof.
  assert (Forall well_configured
            (handlers (lone_handler (Fin (1#2)) (Fin 1) (Fin 10)))) as Hok.
  { repeat constructor; simpl; intros H; discriminate H. }
  split; [exact Hok|].
  destruct (scheduling_twice_selects_nothing (7#3) (5#2) 12 _ Hok)
    as (l & s1 & E1 & E2).
  exists s1. split; [|exact E2].
  rewrite E1. f_equal. f_equal.
  assert (fst (scheduled_handlers (7#3) (5#2) 12
                 (lone_handler (Fin (1#2)) (Fin 1) (Fin 10))) = Done [0%nat])
    as H by reflexivity.
  rewrite E1 in H. simpl in H. by injection H.
Defined.

Lemma schedule_handler_configuration (wt st : Q) (it : Z) (h h' : Handler)
    (b : bool) :
  schedule_handler wt st it h = Done (b, h') -> configuration h' = configuration h.
Proof.
  unfold schedule_handler.
  destruct (floordiv wt (wall_dt h)); try discriminate.
  destruct (floordiv st (sim_dt h)); try discriminate.
  destruct (floordiv (inject_Z it) (iter h)); try discriminate.
  destruct (_ || _ || _); intros H; injection H as <- <-; reflexivity.
Qed.

(** The scheduling loop, whatever it returns or raises, changes nothing of a
    handler but its recorded divisors, and adds or removes no handler; the
    positions it selects are strictly increasing positions of the registry:
    the due handlers are listed in the order in which they were added, each
    once. *)
Theorem scheduling_keeps_configuration_and_order
    (wall_time sim_time : Q) (iteration : Z) (s : State) :
  let r := fst (scheduled_handlers wall_time sim_time iteration s) in
  let s' := snd (scheduled_handlers wall_time sim_time iteration s) in
  configuration <$> handlers s' = configuration <$> handlers s /\
  groups s' = groups s /\ layouts s' = layouts s /\ outs s' = outs s /\
  (forall scheduled, r = Done scheduled ->
     increasing_from 0 scheduled /\
     forall i, i ∈ scheduled -> (i < length (handlers s))%nat).
Proof.
  intros r s'. subst r s'. unfold scheduled_handlers.
  assert (forall hs k,
            configuration <$> snd (select_scheduled wall_time sim_time iteration k hs)
            = configuration <$> hs /\
            forall l, fst (select_scheduled wall_time sim_time iteration k hs) = Done l ->
              increasing_from k l /\
              forall i, i ∈ l -> (i < k + length hs)%nat) as H.
  { induction hs as [|h hs IH]; intros k; simpl.
    - split; [reflexivity|]. intros l [= <-]. split; [exact I|].
      intros i Hi. inversion Hi.
    - destruct (schedule_handler wall_time sim_time iteration h)
        as [[b h']| |] eqn:Eh; simpl; try (split; [reflexivity|discriminate]).
      destruct (IH (S k)) as [Hconf Hord].
      destruct (select_scheduled wall_time sim_time iteration (S k) hs)
        as [r hs'].
      simpl in *. split.
      + change (configuration h' :: (configuration <$> hs')
                = configuration h :: (configuration <$> hs)).
        f_equal; [by apply (schedule_handler_configuration _ _ _ _ _ _ Eh)|].
        exact Hconf.
      + intros l Hl. destruct r as [l1| |]; try discriminate.
        injection Hl as <-. destruct (Hord l1 eq_refl) as [Hinc Hlt].
        destruct b.
        * split; [split; [lia|exact Hinc]|].
          intros i Hi. apply elem_of_cons in Hi as [->|Hi]; [lia|].
          apply Hlt in Hi. lia.
        * split.
          -- destruct l1 as [|x l1]; [exact I|]. destruct Hinc as [Hx Hinc].
             split; [lia|exact Hinc].
          -- intros i Hi. apply Hlt in Hi. lia. }
  destruct (H (handlers s) 0%nat) as [Hconf Hord].
  destruct (select_scheduled wall_time sim_time iteration 0 (handlers s))
    as [r hs'].
  simpl in *. repeat split; try assumption; by apply Hord.
Qed.

Lemma floor_exceeds (k : Z) (y : Q) :
  k < Qfloor y <-> (inject_Z (k + 1) <= y)%Q.
Proof.
  split.
  - intros H. apply Qle_trans with (inject_Z (Qfloor y)); [|apply Qfloor_le].
    rewrite <- Zle_Qle. lia.
  - intros H. pose proof (Qlt_floor y) as Hlt.
    assert (inject_Z (k + 1) < inject_Z (Qfloor y + 1))%Q as Hk
      by (eapply Qle_lt_trans; eassumption).
    rewrite <- Zlt_Qlt in Hk. lia.
Qed.

Lemma quotient_at_least (a x d : Q) :
  (0 < d)%Q -> ((a <= x / d)%Q <-> (a * d <= x)%Q).
Proof.
  intros Hd. split.
  - intros H. apply (Qmult_le_compat_r _ _ d) in H; [|by apply Qlt_le_weak].
    assert (x / d * d == x)%Q as E
      by (rewrite Qmult_comm; apply Qmult_div_r; intros E; rewrite E in Hd;
          by apply Qlt_irrefl in Hd).
    by rewrite E in H.
  - intros H. by apply Qle_shift_div_l.
Qed.

(** A handler whose only cadence is [sim_dt = d > 0], and whose recorded
    wall and iteration divisors are not negative (as after any firing), is
    selected exactly when the simulation time has reached the next multiple
    of [d]: [(last_sim_div + 1) * d <= sim_time]. *)
Theorem sim_cadence_fires_at_next_multiple
    (wall_time sim_time : Q) (iteration : Z) (h : Handler) (d : Q) :
  wall_dt h = Inf -> iter h = Inf -> sim_dt h = Fin d -> (0 < d)%Q ->
  0 <= last_wall_div h -> 0 <= last_iter_div h ->
  exists fired h',
    schedule_handler wall_time sim_time iteration h = Done (fired, h') /\
    (fired = true <-> (inject_Z (last_sim_div h + 1) * d <= sim_time)%Q).
Proof.
  intros Hw Hi Hs Hd Hlw Hli.
  destruct (floordiv_Inf_le_0 wall_time) as (wd & Ewd & Hwd).
  destruct (floordiv_Inf_le_0 (inject_Z iteration)) as (id & Eid & Hid).
  assert (floordiv sim_time (Fin d) = Done (Qfloor (sim_time / d))) as Esd.
  { simpl. destruct (Qeq_bool d 0) eqn:E; [|reflexivity].
    apply Qeq_bool_iff in E. rewrite E in Hd. by apply Qlt_irrefl in Hd. }
  unfold schedule_handler. rewrite Hw, Hi, Hs, Ewd, Eid, Esd.
  assert ((last_wall_div h <? wd) = false) as -> by (apply Z.ltb_ge; lia).
  assert ((last_iter_div h <? id) = false) as -> by (apply Z.ltb_ge; lia).
  rewrite orb_false_r, orb_false_l.
  pose proof (floor_exceeds (last_sim_div h) (sim_time / d)) as Hfl.
  rewrite (quotient_at_least _ _ _ Hd) in Hfl.
  destruct (Z.ltb_spec (last_sim_div h) (Qfloor (sim_time / d)));
    eexists _, _; (split; [reflexivity|]); split; try done.
  - intros _. by apply Hfl.
  - intros Hle. apply Hfl in Hle. lia.
Qed.

Lemma sim_cadence_fires_at_next_multiple_witness :
  let h := set_divisors 0 3 0
             (Handler_init None Inf (Fin (1#4)) Inf (SystemSink None)) in
  (wall_dt h = Inf /\ iter h = Inf /\ sim_dt h = Fin (1#4) /\ (0 < 1#4)%Q /\
   0 <= last_wall_div h /\ 0 <= last_iter_div h) /\
  exists fired h',
    schedule_handler 5 1 40 h = Done (fired, h') /\
    (fired = true <-> (inject_Z (3 + 1) * (1#4) <= 1)%Q).
Proof.
  intros h.
  assert (0 < 1#4)%Q as Hd by reflexivity.
  assert (0 <= last_wall_div h) as Hlw by (simpl; lia).
  assert (0 <= last_iter_div h) as Hli by (simpl; lia).
  split; [by repeat split|].
  exact (sim_cadence_fires_at_next_multiple 5 1 40 h (1#4)
           eq_refl eq_refl eq_refl Hd Hlw Hli).
Defined.

(** * Attempts and fields, further *)

Lemma attempt_tasks_filter (id : Q) (ts : list Task) (s : State) :
  fst (attempt_tasks id ts s)
  = filter (fun t => attempt (operator t) id (layouts s) = None) ts.
Proof.
  revert s. induction ts as [|t ts IH]; intros s; [reflexivity|].
  cbn [attempt_tasks]. rewrite filter_cons.
  destruct (attempt (operator t) id (layouts s)) as [out|] eqn:E.
  - rewrite decide_False by done. by rewrite IH.
  - rewrite decide_True by done.
    specialize (IH s). destruct (attempt_tasks id ts s). simpl in *. by rewrite IH.
Qed.

Lemma attempt_tasks_outs_other (id : Q) (ts : list Task) (s : State) (k : nat) :
  k ∉ tid <$> ts ->
  outs (snd (attempt_tasks id ts s)) !! k = outs s !! k.
Proof.
  revert s. induction ts as [|t ts IH]; intros s Hk; [reflexivity|].
  rewrite fmap_cons, not_elem_of_cons in Hk. destruct Hk as [Hne Hk].
  cbn [attempt_tasks].
  destruct (attempt (operator t) id (layouts s)) as [out|].
  - rewrite IH by exact Hk. simpl. by rewrite lookup_insert_ne.
  - specialize (IH s Hk). by destruct (attempt_tasks id ts s).
Qed.

(** [attempt_tasks] returns, in their order, exactly the tasks whose operator
    gave [None]; every other task has its ['out'] set to what its operator
    returned (the task dictionaries being distinct), no other ['out'] entry
    is written, and no layout and no handler is changed. *)
Theorem attempt_tasks_partitions
    (id : Q) (ts : list Task) (s : State) :
  NoDup (tid <$> ts) ->
  let unfinished := fst (attempt_tasks id ts s) in
  let s' := snd (attempt_tasks id ts s) in
  unfinished = filter (fun t => attempt (operator t) id (layouts s) = None) ts /\
  (forall t out, t ∈ ts -> attempt (operator t) id (layouts s) = Some out ->
     outs s' !! tid t = Some out) /\
  (forall t, t ∈ unfinished -> outs s' !! tid t = outs s !! tid t) /\
  (forall k, k ∉ tid <$> ts -> outs s' !! k = outs s !! k) /\
  layouts s' = layouts s /\ handlers s' = handlers s.
Proof.
  intros Hnd unfinished s'. subst unfinished s'.
  split; [apply attempt_tasks_filter|].
  split; [|split; [|split; [intros k; apply attempt_tasks_outs_other|
    split; [apply attempt_tasks_layouts|apply attempt_tasks_handlers]]]].
  - revert s Hnd. induction ts as [|t0 ts IH]; intros s Hnd t out Ht Hout;
      [inversion Ht|].
    rewrite fmap_cons in Hnd. apply NoDup_cons in Hnd as [Hfresh Hnd].
    cbn [attempt_tasks]. apply elem_of_cons in Ht as [->|Ht].
    + rewrite Hout. rewrite attempt_tasks_outs_other by exact Hfresh.
      simpl. apply lookup_insert_eq.
    + destruct (attempt (operator t0) id (layouts s)) as [out0|] eqn:E0.
      * apply IH; [exact Hnd|exact Ht|exact Hout].
      * specialize (IH s Hnd t out Ht Hout).
        by destruct (attempt_tasks id ts s).
  - revert s Hnd. induction ts as [|t0 ts IH]; intros s Hnd t Ht;
      [inversion Ht|].
    rewrite fmap_cons in Hnd. apply NoDup_cons in Hnd as [Hfresh Hnd].
    cbn [attempt_tasks] in Ht |- *.
    destruct (attempt (operator t0) id (layouts s)) as [out0|] eqn:E0.
    + pose proof Ht as Hin. apply attempt_tasks_unfinished in Hin as [Hin _].
      rewrite IH by (exact Hnd || exact Ht). simpl.
      apply lookup_insert_ne. intros Heq. apply Hfresh. rewrite Heq.
      apply list_elem_of_fmap. by exists t.
    + pose proof (attempt_tasks_outs_other id ts s (tid t0) Hfresh) as Hself.
      specialize (IH s Hnd). destruct (attempt_tasks id ts s) as [u s1].
      simpl in *. apply elem_of_cons in Ht as [->|Ht]; [exact Hself|by apply IH].
Qed.

(** * FileHandler, further *)

(** With [max_writes = 0] the first [process] call creates the first file
    (the limits are not checked before a file exists); every later call
    raises [ZeroDivisionError] in [check_file_limits], before anything of
    the handler is changed. *)
Theorem max_writes_zero_raises_on_second_write
    (max_sz : Z) (par : bool) (io1 io2 : Stat) (rest : list Stat) :
  exists fh1,
    begin_write (FileHandler_init (Lim 0) max_sz par) io1 = Done fh1 /\
    file_num fh1 = 1 /\ total_write_num fh1 = 1 /\
    containers fh1 = {[1 := 1]} /\
    begin_write fh1 io2 = Raised ZeroDivisionError /\
    writes (FileHandler_init (Lim 0) max_sz par) (io1 :: io2 :: rest)
      = Raised ZeroDivisionError /\
    (forall (env : nat -> Stat) (i : nat) (wt st : Q) (it : Z) (s : State)
            (h : Handler),
       handlers s !! i = Some h -> sink h = FileSink fh1 ->
       process env i wt st it s = (Raised ZeroDivisionError, s)).
Proof.
  eexists. split; [reflexivity|]. simpl.
  split; [reflexivity|]. split; [reflexivity|]. split.
  { apply map_eq. intros j. rewrite insert_insert_eq. reflexivity. }
  split; [reflexivity|]. split; [reflexivity|].
  intros env i wt st it s h Hh Hsink. unfold process. rewrite Hh, Hsink.
  reflexivity.
Qed.

Section Unlimited.

Variables (max_sz : Z) (par : bool).

(** A handler that writes to its first file only. *)
Let first_file (k : Z) (fh : FileHandler) : Prop :=
  max_writes fh = Unlimited /\ max_size fh = max_sz /\ parallel fh = par /\
  file_num fh = 1 /\ current_path fh = Some 1 /\
  total_write_num fh = k /\ file_write_num fh = k /\
  containers fh = {[1 := k]}.

Lemma begin_write_first_file (k : Z) (fh : FileHandler) (io : Stat) :
  1 <= k -> first_file k fh -> below_size_limit max_sz par io ->
  exists fh', begin_write fh io = Done fh' /\ first_file (k + 1) fh'.
Proof.
  intros Hk (Hmw & Hms & Hpar & Hfn & Hpath & Htot & Hfw & Hfiles) Hbelow.
  unfold begin_write, get_file, check_file_limits. rewrite Hpath, Hmw. simpl.
  destruct (Z.eqb_spec (total_write_num fh) 0) as [?|_]; [lia|].
  assert ((if parallel fh then max_size fh <=? st_size io
           else Allreduce_LOR (max_size fh <=? st_size io) (peers io)) = false)
    as -> by (rewrite Hpar, Hms; exact Hbelow).
  simpl. eexists. split; [reflexivity|]. unfold first_file. simpl.
  repeat split; try assumption; try lia.
  rewrite Hfiles, Hfw. apply map_eq. intros j.
  rewrite insert_singleton_eq. reflexivity.
Qed.

Lemma writes_first_file (ios : list Stat) (k : Z) (fh : FileHandler) :
  1 <= k -> first_file k fh -> Forall (below_size_limit max_sz par) ios ->
  exists fh', writes fh ios = Done fh' /\
              first_file (k + Z.of_nat (length ios)) fh'.
Proof.
  intros Hk Hfh Hios. revert k fh Hk Hfh.
  induction Hios as [|io ios Hio _ IH]; intros k fh Hk Hfh.
  - exists fh. split; [reflexivity|]. simpl. by rewrite Z.add_0_r.
  - destruct (begin_write_first_file k fh io Hk Hfh Hio) as (fh1 & E1 & Hfh1).
    destruct (IH (k + 1) fh1) as (fh' & E' & Hfh'); [lia|exact Hfh1|].
    exists fh'. cbn [writes]. rewrite E1. split; [exact E'|].
    replace (k + Z.of_nat (length (io :: ios)))
      with (k + 1 + Z.of_nat (length ios)) by (cbn [length]; lia).
    exact Hfh'.
Qed.

End Unlimited.

(** With [max_writes] left at its default (infinite), and as long as the size
    limit is not reached, every write goes to the first file: after [k >= 1]
    calls there is one file, holding [k] writes. *)
Theorem unlimited_writes_stay_in_first_file
    (max_sz : Z) (par : bool) (io : Stat) (ios : list Stat) :
  Forall (below_size_limit max_sz par) (io :: ios) ->
  exists fh,
    writes (FileHandler_init Unlimited max_sz par) (io :: ios) = Done fh /\
    file_num fh = 1 /\ current_path fh = Some 1 /\
    total_write_num fh = Z.of_nat (length (io :: ios)) /\
    file_write_num fh = Z.of_nat (length (io :: ios)) /\
    containers fh = {[1 := Z.of_nat (length (io :: ios))]}.
Proof.
  intros Hios. apply Forall_cons in Hios as [_ Hios].
  destruct (begin_write (FileHandler_init Unlimited max_sz par) io)
    as [fh1| |] eqn:E1; try discriminate E1.
  injection E1 as E1.
  destruct (writes_first_file max_sz par ios 1 fh1) as (fh & E & Hfh);
    [lia| |exact Hios|].
  { subst fh1. simpl. repeat split; reflexivity. }
  exists fh. cbn [writes].
  assert (begin_write (FileHandler_init Unlimited max_sz par) io = Done fh1)
    as -> by (subst fh1; reflexivity).
  split; [exact E|].
  replace (Z.of_nat (length (io :: ios))) with (1 + Z.of_nat (length ios))
    by (cbn [length]; lia).
  tauto.
Qed.

Lemma unlimited_writes_stay_in_first_file_witness :
  Forall (below_size_limit default_max_size true)
    (replicate 4 {| st_size := 1000; peers := [] |}) /\
  exists fh,
    writes (FileHandler_init Unlimited default_max_size true)
      (replicate 4 {| st_size := 1000; peers := [] |}) = Done fh /\
    containers fh = {[1 := 4]}.
Proof.
  assert (Forall (below_size_limit default_max_size true)
            (replicate 4 {| st_size := 1000; peers := [] |})) as H
    by (apply Forall_replicate; reflexivity).
  split; [exact H|].
  destruct (unlimited_writes_stay_in_first_file default_max_size true _ _ H)
    as (fh & E & _ & _ & _ & _ & Hfiles).
  exists fh. split; [exact E|exact Hfiles].
Defined.

(** When the size limit is reached at a call (on this process, or in
    independent mode on any process of the communicator), the call creates
    the next file whatever the write count: [file_num] is incremented, the
    write is the first of the new file, and the files written before are
    left as they were. *)
Theorem size_limit_starts_next_file (fh : FileHandler) (io : Stat) (path : Z) :
  current_path fh = Some path ->
  max_writes fh <> Lim 0 ->
  at_size_limit fh io ->
  exists fh',
    begin_write fh io = Done fh' /\
    file_num fh' = file_num fh + 1 /\
    current_path fh' = Some (file_num fh + 1) /\
    file_write_num fh' = 1 /\
    total_write_num fh' = total_write_num fh + 1 /\
    containers fh' !! (file_num fh + 1) = Some 1 /\
    (forall j, j <> file_num fh + 1 -> containers fh' !! j = containers fh !! j).
Proof.
  intros Hpath Hmw Hsize. unfold begin_write, get_file, check_file_limits.
  rewrite Hpath.
  assert (exists wl, mod_is_zero (total_write_num fh) (max_writes fh) = Done wl)
    as [wl ->].
  { unfold mod_is_zero. destruct (max_writes fh) as [n|]; [|eauto].
    destruct (Z.eqb_spec n 0) as [->|_]; [done|eauto]. }
  unfold at_size_limit in Hsize. rewrite Hsize, orb_true_r. simpl.
  eexists. split; [reflexivity|]. simpl. repeat split.
  - apply lookup_insert_eq.
  - intros j Hj. by rewrite !lookup_insert_ne.
Qed.

Lemma size_limit_starts_next_file_witness :
  let fh := {| max_writes := Lim 100; max_size := 1000; parallel := false;
               file_num := 1; current_path := Some 1;
               total_write_num := 1; file_write_num := 1;
               containers := {[1 := 1]} |} in
  let io := {| st_size := 10; peers := [false; true] |} in
  let quiet := {| st_size := 10; peers := [false; false] |} in
  (current_path fh = Some 1 /\ max_writes fh <> Lim 0 /\ at_size_limit fh io) /\
  (begin_write (FileHandler_init (Lim 100) 1000 false) quiet = Done fh /\
   check_file_limits fh quiet = Done false /\
   get_file fh quiet = Done (1, fh)) /\
  check_file_limits fh io = Done true /\
  exists fh',
    begin_write fh io = Done fh' /\ file_num fh' = 2 /\
    file_write_num fh' = 1 /\ total_write_num fh' = 2.
Proof.
  intros fh io quiet.
  assert (max_writes fh <> Lim 0) as Hmw by discriminate.
  assert (at_size_limit fh io) as Hsz by reflexivity.
  split; [by repeat split|].
  split; [split; [vm_compute; reflexivity|by split]|].
  split; [reflexivity|].
  destruct (size_limit_starts_next_file fh io 1 eq_refl Hmw Hsz)
    as (fh' & E & Hnum & _ & Hfw & Htot & _).
  exists fh'. split; [exact E|]. split; [exact Hnum|]. split; [exact Hfw|].
  exact Htot.
Defined.

Lemma written_insert_fresh (files : gmap Z Z) (j w : Z) :
  files !! j = None -> written (<[j := w]> files) = w + written files.
Proof.
  intros Hj. unfold written. apply (map_fold_insert_L (fun _ w acc => w + acc));
    [|exact Hj].
  intros. lia.
Qed.

Lemma written_insert_update (files : gmap Z Z) (j w0 w : Z) :
  files !! j = Some w0 -> written (<[j := w]> files) = written files - w0 + w.
Proof.
  intros Hj. rewrite <- (insert_delete_eq files j w).
  rewrite written_insert_fresh by apply lookup_delete_eq.
  unfold written at 2.
  rewrite (map_fold_delete_L (fun _ w acc => w + acc) 0 j w0 files);
    [|intros; lia|exact Hj].
  fold (written (delete j files)). lia.
Qed.

(** One [process] call keeps the counters in agreement with the files. *)
Lemma begin_write_accounted (fh fh' : FileHandler) (io : Stat) :
  accounted fh -> begin_write fh io = Done fh' ->
  accounted fh' /\ total_write_num fh' = total_write_num fh + 1 /\
  (file_num fh' = file_num fh \/ file_num fh' = file_num fh + 1).
Proof.
  intros (Htot & Hdom & Hpos & Hcur) Hw.
  assert (containers fh !! (file_num fh + 1) = None) as Hfresh.
  { apply eq_None_not_Some. rewrite Hdom. lia. }
  assert (accounted
            {| max_writes := max_writes fh; max_size := max_size fh;
               parallel := parallel fh; file_num := file_num fh + 1;
               current_path := Some (file_num fh + 1);
               total_write_num := total_write_num fh + 1; file_write_num := 0 + 1;
               containers := <[file_num fh + 1 := 0 + 1]>
                               (<[file_num fh + 1 := 0]> (containers fh)) |})
    as Hnew.
  { assert (0 <= file_num fh) as Hfn.
    { destruct Hcur as [[_ ->]|[_ Hc]]; [lia|].
      assert (is_Some (containers fh !! file_num fh)) as Hs by eauto.
      apply Hdom in Hs. lia. }
    unfold accounted. simpl. rewrite insert_insert_eq.
    split; [rewrite written_insert_fresh by exact Hfresh; lia|].
    split; [|split; [|right; split; [reflexivity|apply lookup_insert_eq]]].
    - intros j. destruct (decide (j = file_num fh + 1)) as [->|Hne].
      + rewrite lookup_insert_eq. split; [lia|eauto].
      + rewrite lookup_insert_ne by done. rewrite Hdom. lia.
    - intros j w. destruct (decide (j = file_num fh + 1)) as [->|Hne].
      + rewrite lookup_insert_eq. intros [= <-]. lia.
      + rewrite lookup_insert_ne by done. apply Hpos. }
  unfold begin_write, get_file in Hw.
  destruct (current_path fh) as [path|] eqn:Hpath.
  - destruct Hcur as [[? _]|[Hp Hc]]; [congruence|].
    injection Hp as ->.
    destruct (check_file_limits fh io) as [[|]| |]; try discriminate.
    + injection Hw as <-. split; [exact Hnew|]. simpl. split; [lia|by right].
    + injection Hw as <-. simpl. split; [|split; [lia|by left]].
      unfold accounted. simpl.
      split; [rewrite (written_insert_update _ _ _ _ Hc); lia|].
      split; [|split; [|right; split; [exact Hpath|apply lookup_insert_eq]]].
      * intros j. destruct (decide (j = file_num fh)) as [->|Hne].
        -- rewrite lookup_insert_eq. rewrite <- Hdom. split; eauto.
        -- rewrite lookup_insert_ne by done. apply Hdom.
      * intros j w. destruct (decide (j = file_num fh)) as [->|Hne].
        -- rewrite lookup_insert_eq. intros [= <-]. apply Hpos in Hc. lia.
        -- rewrite lookup_insert_ne by done. apply Hpos.
  - injection Hw as <-. split; [exact Hnew|]. simpl. split; [lia|by right].
Qed.

Lemma accounted_init (mw : limit) (max_sz : Z) (par : bool) :
  accounted (FileHandler_init mw max_sz par).
Proof.
  unfold accounted. simpl. split; [reflexivity|].
  split; [|split; [|by left]].
  - intros j. rewrite lookup_empty. split; [by intros [? ?]|lia].
  - intros j w. by rewrite lookup_empty.
Qed.

Lemma writes_accounted (ios : list Stat) (fh fh' : FileHandler) :
  accounted fh -> writes fh ios = Done fh' ->
  accounted fh' /\
  total_write_num fh' = total_write_num fh + Z.of_nat (length ios) /\
  file_num fh <= file_num fh' <= file_num fh + Z.of_nat (length ios).
Proof.
  revert fh. induction ios as [|io ios IH]; intros fh Hacc Hw.
  - injection Hw as <-. simpl. split; [exact Hacc|lia].
  - cbn [writes] in Hw.
    destruct (begin_write fh io) as [fh1| |] eqn:E1; try discriminate.
    destruct (begin_write_accounted fh fh1 io Hacc E1) as (Hacc1 & Ht1 & Hf1).
    destruct (IH fh1 Hacc1 Hw) as (Hacc' & Ht' & Hf').
    split; [exact Hacc'|]. cbn [length]. lia.
Qed.

(** Whatever the limits and the file sizes, a handler whose [process] calls
    all returned has counters that agree with its files: [total_write_num]
    is the number of calls and the sum of the ['writes'] attributes of the
    files, the files are numbered [1 .. file_num] without a gap, none is
    empty, and the current file holds [file_write_num] writes. *)
Theorem file_counters_agree_with_files
    (mw : limit) (max_sz : Z) (par : bool) (ios : list Stat) (fh : FileHandler) :
  writes (FileHandler_init mw max_sz par) ios = Done fh ->
  total_write_num fh = Z.of_nat (length ios) /\
  written (containers fh) = Z.of_nat (length ios) /\
  0 <= file_num fh <= Z.of_nat (length ios) /\
  (forall j, is_Some (containers fh !! j) <-> 1 <= j <= file_num fh) /\
  (forall j w, containers fh !! j = Some w -> 1 <= w) /\
  (ios <> [] ->
     current_path fh = Some (file_num fh) /\
     containers fh !! file_num fh = Some (file_write_num fh)).
Proof.
  intros Hw.
  destruct (writes_accounted ios _ fh (accounted_init mw max_sz par) Hw)
    as ((Htot & Hdom & Hpos & Hcur) & Hlen & Hfn).
  simpl in Hlen, Hfn.
  split; [lia|]. split; [lia|]. split; [lia|]. split; [exact Hdom|].
  split; [exact Hpos|]. intros Hne.
  destruct Hcur as [[Hnone Hzero]|Hsome]; [|exact Hsome].
  exfalso. destruct ios as [|io ios]; [done|].
  cbn [writes] in Hw.
  destruct (begin_write (FileHandler_init mw max_sz par) io) as [fh1| |] eqn:E1;
    try discriminate.
  destruct (begin_write_accounted _ fh1 io (accounted_init mw max_sz par) E1)
    as (Hacc1 & _ & Hf1).
  destruct (writes_accounted ios fh1 fh Hacc1 Hw) as (_ & _ & Hf').
  assert (file_num fh1 = 1) as Hone.
  { unfold begin_write, get_file in E1. simpl in E1. by injection E1 as <-. }
  lia.
Qed.

Lemma file_counters_agree_with_files_witness :
  let ios := [ {| st_size := 0; peers := [] |};
               {| st_size := 900; peers := [] |};
               {| st_size := 2000; peers := [] |};
               {| st_size := 10; peers := [true] |};
               {| st_size := 10; peers := [] |} ] in
  exists fh,
    writes (FileHandler_init (Lim 4) 1000 false) ios = Done fh /\
    written (containers fh) = 5.
Proof.
  intros ios.
  assert (exists fh, writes (FileHandler_init (Lim 4) 1000 false) ios = Done fh)
    as [fh E] by (vm_compute; eexists; reflexivity).
  exists fh. split; [exact E|].
  exact (proj1 (proj2 (file_counters_agree_with_files (Lim 4) 1000 false ios fh
                         E))).
Defined.

(** * FileHandler: the hyperslabs *)

Lemma get_write_stats_at (fh : FileHandler) (l : LayoutShape)
    (constant : list bool) (index : Z) (k : nat) (c : bool) (s n g : Z) :
  constant !! k = Some c -> start l !! k = Some s ->
  shape l !! k = Some n -> global_shape l !! k = Some g ->
  match get_write_stats fh l constant index with
  | (gnc_shape, gnc_start, write_shape, write_start, write_count) =>
      write_count !! k = Some (if c then (if s =? 0 then 1 else 0) else n) /\
      write_shape !! k
        = Some (if parallel fh then (if c then 1 else g)
                else (if c then (if s =? 0 then 1 else 0) else n)) /\
      write_start !! k
        = Some (if parallel fh then (if c && negb (s =? 0) then 1 else s) else 0)
  end.
Proof.
  intros Hc Hs Hn Hg.
  pose proof (write_count_lookup fh l constant index k c s n Hc Hs Hn) as Hwc.
  assert (((fun x => x =? 0) <$> start l) !! k = Some (s =? 0)) as Hfirst
    by (by rewrite list_lookup_fmap, Hs).
  assert (mask_not ((fun x => x =? 0) <$> start l) !! k = Some (negb (s =? 0)))
    as Hnot by (unfold mask_not; by rewrite list_lookup_fmap, Hfirst).
  unfold get_write_stats in *. destruct (parallel fh); simpl in Hwc |- *.
  - split; [exact Hwc|]. split; [by apply mask_assign_lookup|].
    erewrite mask_assign_lookup;
      [reflexivity | exact Hs | by apply mask_and_lookup].
  - split; [exact Hwc|]. split; [exact Hwc|].
    by rewrite list_lookup_fmap, Hs.
Qed.

(** The hyperslabs that [get_hdf5_spaces] selects, axis by axis.  The time
    axis of the file space has shape [index + 1] and is selected at [index]
    with count [1].  Along a data axis the memory selection starts at [0]
    with the count of [get_write_stats]; the file selection has that count
    too, within the global shape at the global start when parallel, within
    the count at [0] otherwise.  In particular a parallel process that is
    not first along a constant axis selects nothing, at the start [1] of a
    shape of [1].  Provided the local block lies within the global shape
    and a constant axis has at least one local entry, every selection lies
    within its dataspace, in both write modes. *)
Theorem hyperslabs_within_dataspaces
    (fh : FileHandler) (l : LayoutShape) (constant : list bool) (index : Z)
    (k : nat) (c : bool) (s n g : Z) :
  constant !! k = Some c ->
  start l !! k = Some s ->
  shape l !! k = Some n ->
  global_shape l !! k = Some g ->
  0 <= index -> 0 <= s -> 0 <= n -> s + n <= g -> (c = true -> 1 <= n) ->
  let memory_space := fst (get_hdf5_spaces fh l constant index) in
  let file_space := snd (get_hdf5_spaces fh l constant index) in
  let count := if c then (if s =? 0 then 1 else 0) else n in
  (space_shape file_space !! 0%nat = Some (index + 1) /\
   select_start file_space !! 0%nat = Some index /\
   select_count file_space !! 0%nat = Some 1) /\
  (space_shape memory_space !! k = Some n /\
   select_start memory_space !! k = Some 0 /\
   select_count memory_space !! k = Some count) /\
  (space_shape file_space !! S k
     = Some (if parallel fh then (if c then 1 else g) else count) /\
   select_start file_space !! S k
     = Some (if parallel fh then (if c && negb (s =? 0) then 1 else s) else 0) /\
   select_count file_space !! S k = Some count) /\
  (parallel fh = true -> c = true -> s <> 0 ->
   space_shape file_space !! S k = Some 1 /\
   select_start file_space !! S k = Some 1 /\
   select_count file_space !! S k = Some 0) /\
  selection_within memory_space k /\
  selection_within file_space (S k) /\
  selection_within file_space 0 /\
  select_count file_space = 1 :: select_count memory_space.
Proof.
  intros Hc Hs Hn Hg Hindex Hs0 Hn0 Hin Hconst memory_space file_space count.
  pose proof (get_write_stats_at fh l constant index k c s n g Hc Hs Hn Hg)
    as Hstats.
  subst memory_space file_space. unfold get_hdf5_spaces.
  destruct (get_write_stats fh l constant index)
    as [[[[gnc_shape gnc_start] write_shape] write_start] write_count].
  destruct Hstats as (Hwc & Hsh & Hst). fold count in Hwc, Hsh.
  cbn [fst snd]. unfold selection_within.
  cbn [space_shape select_start select_count].
  change (((index + 1) :: write_shape) !! S k) with (write_shape !! k).
  change ((index :: write_start) !! S k) with (write_start !! k).
  change ((1 :: write_count) !! S k) with (write_count !! k).
  assert (0 <= count <= n) as Hcount.
  { subst count. destruct c; [|lia]. specialize (Hconst eq_refl).
    destruct (s =? 0); lia. }
  assert (((fun x : Z => 0 * x) <$> start l) !! k = Some 0) as Hzero
    by (by rewrite list_lookup_fmap, Hs).
  split; [by repeat split|]. split; [by repeat split|].
  split; [by repeat split|]. split.
  { intros Hpar -> Hne. rewrite Hsh, Hst, Hwc, Hpar. subst count.
    destruct (Z.eqb_spec s 0); [contradiction|]. by repeat split. }
  split; [|split; [|split; [|reflexivity]]].
  - exists n, 0, count. rewrite Hzero, Hn, Hwc.
    split; [reflexivity|]. split; [reflexivity|]. split; [reflexivity|]. lia.
  - eexists _, _, _. rewrite Hsh, Hst, Hwc.
    split; [reflexivity|]. split; [reflexivity|]. split; [reflexivity|].
    destruct (parallel fh); [|lia]. subst count.
    destruct c; simpl; [|lia]. destruct (Z.eqb_spec s 0); simpl; lia.
  - exists (index + 1), index, 1.
    split; [reflexivity|]. split; [reflexivity|]. split; [reflexivity|]. lia.
Qed.

Lemma hyperslabs_within_dataspaces_witness :
  let l := {| global_shape := [64; 32]; shape := [16; 1]; start := [16; 8] |} in
  let fh := FileHandler_init Unlimited default_max_size true in
  ([false; true] !! 1%nat = Some true /\ start l !! 1%nat = Some 8 /\
   shape l !! 1%nat = Some 1 /\ global_shape l !! 1%nat = Some 32 /\
   0 <= 3 /\ 0 <= 8 /\ 0 <= 1 /\ 8 + 1 <= 32 /\ (true = true -> 1 <= 1)) /\
  get_hdf5_spaces fh l [false; true] 3
    = ({| space_shape := [16; 1]; select_start := [0; 0];
          select_count := [16; 0] |},
       {| space_shape := [4; 64; 1]; select_start := [3; 16; 1];
          select_count := [1; 16; 0] |}) /\
  (space_shape (snd (get_hdf5_spaces fh l [false; true] 3)) !! 2%nat = Some 1 /\
   select_start (snd (get_hdf5_spaces fh l [false; true] 3)) !! 2%nat = Some 1 /\
   select_count (snd (get_hdf5_spaces fh l [false; true] 3)) !! 2%nat = Some 0) /\
  selection_within (snd (get_hdf5_spaces fh l [false; true] 3)) 2.
Proof.
  intros l fh. split; [repeat split; lia|]. split; [reflexivity|].
  pose proof (hyperslabs_within_dataspaces fh l [false; true] 3 1 true
                8 1 32 eq_refl eq_refl eq_refl eq_refl
                ltac:(lia) ltac:(lia) ltac:(lia) ltac:(lia) ltac:(lia))
    as (_ & _ & _ & Hskip & _ & Hwithin & _).
  split; [|exact Hwithin].
  apply Hskip; [reflexivity|reflexivity|lia].
Defined.

(** * The oscillation, further *)

(** One pass of the loop moves every field read by a pending task by exactly
    one layout step in the direction of the pass, also when several tasks
    read it, and moves no other field; [get_fields] lists each such field
    once. *)
Theorem one_pass_moves_each_field_once (id : Q) (o : Osc) (s : State) :
  let dL := turn (Lmax s) (osc_L o) (osc_dL o) in
  let s' := snd (osc_body id o s) in
  NoDup (get_fields (osc_tasks o)) /\
  (forall f, f ∈ get_fields (osc_tasks o) <->
     exists t, t ∈ osc_tasks o /\ f ∈ field_set (operator t)) /\
  (forall f, layouts s' f
     = if decide (f ∈ get_fields (osc_tasks o))
       then layout_step (Lmax s) dL (layouts s f) else layouts s f).
Proof.
  intros dL s'. destruct (get_fields_spec (osc_tasks o)) as [Hnd Hin].
  split; [exact Hnd|]. split; [exact Hin|].
  intros f. apply osc_body_layouts.
Qed.

(** A pending task that no layout makes computable stays pending. *)
Lemma osc_rounds_blocked (id : Q) (t : Task) (n : nat) (o : Osc) (s : State) :
  (1 <= Lmax s)%nat ->
  (forall k, (k <= Lmax s)%nat -> blocked_at id (operator t) k) ->
  in_range (Lmax s) o ->
  (forall t, t ∈ osc_tasks o ->
     fields_at (layouts s) (operator t) (Z.to_nat (osc_L o))) ->
  t ∈ osc_tasks o ->
  t ∈ osc_tasks (fst (osc_rounds id n o s)).
Proof.
  intros HL Hb. revert o s HL Hb.
  induction n as [|n IH]; intros o s HL Hb Hr Hat Ht; [exact Ht|].
  cbn [osc_rounds]. destruct (osc_tasks o) as [|t0 ts0] eqn:E.
  { inversion Ht. }
  rewrite <- E in Hat, Ht.
  destruct (osc_body_together id o s HL Hr Hat) as (Hr' & HLm & Hat').
  pose proof (osc_body_pending id o s) as Hpend.
  destruct (osc_body id o s) as [o' s']. simpl in *.
  apply IH.
  - by rewrite HLm.
  - by rewrite HLm.
  - by rewrite HLm.
  - intros t' Ht'. apply Hat'. by apply Hpend.
  - apply Hpend. split; [exact Ht|].
    apply (Hb (Z.to_nat (osc_L o'))).
    + destruct Hr' as [Hrange _]. lia.
    + by apply Hat'.
Qed.

Lemma oscillate_never (id : Q) (fuel : nat) (o : Osc) (s : State) :
  (forall n, osc_tasks (fst (osc_rounds id n o s)) <> []) ->
  fst (oscillate fuel id o s) = OutOfFuel.
Proof.
  revert o s. induction fuel as [|fuel IH]; intros o s Hpend; simpl.
  - pose proof (Hpend 0%nat) as H0. simpl in H0.
    destruct (osc_tasks o); [done|reflexivity].
  - pose proof (Hpend 0%nat) as H0. simpl in H0.
    destruct (osc_tasks o) as [|t0 ts0] eqn:E; [done|].
    assert (forall n, osc_tasks (fst (osc_rounds id n (fst (osc_body id o s))
                                        (snd (osc_body id o s)))) <> []) as Hnext.
    { intros n. specialize (Hpend (S n)). cbn [osc_rounds] in Hpend.
      rewrite E in Hpend. by destruct (osc_body id o s). }
    destruct (osc_body id o s) as [o' s']. by apply IH.
Qed.

(** With at least two layouts, the fields read by the tasks that are still
    pending are, after any number of passes, all in one layout, the one whose
    index is the loop variable [L], and [L] is a layout index. *)
Theorem oscillation_keeps_fields_together
    (hs : list nat) (id : Q) (s : State) (n : nat) :
  (1 <= Lmax s)%nat ->
  let o0 := fst (first_attempts id (all_tasks s hs) s) in
  let s0 := snd (first_attempts id (all_tasks s hs) s) in
  let o := fst (osc_rounds id n o0 s0) in
  let s' := snd (osc_rounds id n o0 s0) in
  0 <= osc_L o <= Z.of_nat (Lmax s) /\
  forall t f, t ∈ osc_tasks o -> f ∈ field_set (operator t) ->
    Z.of_nat (layouts s' f) = osc_L o.
Proof.
  intros HL o0 s0 o s'.
  destruct (first_attempts_spec id (all_tasks s hs) s) as (HL0 & HLm & _ & _).
  fold o0 in HL0. fold s0 in HLm.
  destruct (first_attempts_lockstep id (all_tasks s hs) s) as [Hat0 _].
  fold o0 s0 in Hat0.
  destruct (osc_rounds_together id n o0 s0) as ([Hrange _] & _ & Hat).
  - by rewrite HLm.
  - split; rewrite HL0; lia.
  - intros t Ht. rewrite HL0. by apply Hat0.
  - fold o s' in Hrange, Hat. rewrite HLm in Hrange. split; [exact Hrange|].
    intros t f Ht Hf. rewrite (Hat t Ht f Hf). lia.
Qed.

Lemma oscillation_keeps_fields_together_witness :
  let s := one_task 3 (computable_in 3 7 1) in
  let o0 := fst (first_attempts 0 (all_tasks s [0%nat]) s) in
  let s0 := snd (first_attempts 0 (all_tasks s [0%nat]) s) in
  (1 <= Lmax s)%nat /\
  osc_L (fst (osc_rounds 0 2 o0 s0)) = 2 /\
  layouts (snd (osc_rounds 0 2 o0 s0)) 7%nat = 2%nat.
Proof.
  intros s o0 s0.
  assert (1 <= Lmax s)%nat as HL by (simpl; lia).
  split; [exact HL|]. split; [reflexivity|].
  destruct (oscillation_keeps_fields_together [0%nat] 0 s 2 HL) as [_ Hat].
  apply Nat2Z.inj.
  apply (Hat {| operator := computable_in 3 7 1; layout := 3; name := "task";
                tid := 0 |} 7%nat).
  - apply elem_of_cons. by left.
  - apply elem_of_cons. by left.
Defined.

(** A task that is computable neither in the starting layouts nor with its
    fields together in any of the layouts [0 .. Lmax] is pending after every
    pass: the evaluation never returns and never raises, whatever the other
    tasks are. *)
Theorem task_blocked_in_every_layout_is_never_resolved
    (hs : list nat) (id : Q) (s : State) (t : Task) :
  (1 <= Lmax s)%nat ->
  t ∈ all_tasks s hs ->
  attempt (operator t) id (layouts s) = None ->
  (forall k, (k <= Lmax s)%nat -> blocked_at id (operator t) k) ->
  let o0 := fst (first_attempts id (all_tasks s hs) s) in
  let s0 := snd (first_attempts id (all_tasks s hs) s) in
  (forall n, t ∈ osc_tasks (fst (osc_rounds id n o0 s0))) /\
  (forall fuel env wall_time iteration,
     fst (evaluate_handlers fuel env hs wall_time id iteration s) = OutOfFuel).
Proof.
  intros HL Ht Hfirst Hb o0 s0.
  destruct (first_attempts_spec id (all_tasks s hs) s) as (HL0 & HLm & Hin & Hzero).
  fold o0 in HL0, Hin. fold s0 in HLm, Hin, Hzero.
  destruct (first_attempts_lockstep id (all_tasks s hs) s) as [Hat0 _].
  fold o0 s0 in Hat0.
  assert (forall n, t ∈ osc_tasks (fst (osc_rounds id n o0 s0))) as Hpend.
  { intros n. apply osc_rounds_blocked.
    - by rewrite HLm.
    - by rewrite HLm.
    - split; rewrite HL0; lia.
    - intros t' Ht'. rewrite HL0. by apply Hat0.
    - apply Hin. split; [exact Ht|]. split; [exact Hfirst|].
      apply (Hb 0%nat); [lia|]. by apply Hzero. }
  split; [exact Hpend|].
  intros fuel env wall_time iteration.
  assert (fst (oscillate fuel id o0 s0) = OutOfFuel) as Hosc.
  { apply oscillate_never. intros n Hempty. specialize (Hpend n).
    rewrite Hempty in Hpend. inversion Hpend. }
  unfold evaluate_handlers, resolve, mbind, M_bind.
  replace (first_attempts id (all_tasks s hs) s) with (o0, s0)
    by (unfold o0, s0; by destruct (first_attempts id (all_tasks s hs) s)).
  destruct (oscillate fuel id o0 s0) as [r s1]. simpl in Hosc. by subst r.
Qed.

Lemma task_blocked_in_every_layout_is_never_resolved_witness :
  let t := {| operator := computable_in 5 0 1; layout := 2; name := "task";
              tid := 0 |} in
  let s := one_task 2 (computable_in 5 0 1) in
  ((1 <= Lmax s)%nat /\ t ∈ all_tasks s [0%nat] /\
   attempt (operator t) 0 (layouts s) = None /\
   forall k, (k <= Lmax s)%nat -> blocked_at 0 (operator t) k) /\
  forall fuel, fst (evaluate_handlers fuel no_stat [0%nat] 0 0 0 s) = OutOfFuel.
Proof.
  intros t s.
  assert (1 <= Lmax s)%nat as HL by (simpl; lia).
  assert (t ∈ all_tasks s [0%nat]) as Ht by (apply elem_of_cons; by left).
  assert (forall k, (k <= Lmax s)%nat -> blocked_at 0 (operator t) k) as Hb.
  { intros k Hk ls Hat. simpl in *.
    rewrite (Hat 0%nat) by (apply elem_of_cons; by left).
    rewrite decide_False; [reflexivity|lia]. }
  split; [by repeat split|]. intros fuel.
  exact (proj2 (task_blocked_in_every_layout_is_never_resolved
                  [0%nat] 0 s t HL Ht eq_refl Hb) fuel no_stat 0%Q 0).
Defined.

(** * Handler.process, further *)

Lemma stored_outs (s s' : State) (ts : list Task) (d : gmap string nat) :
  outs s' = outs s -> stored s' ts d = stored s ts d.
Proof. intros H. unfold stored. by rewrite H. Qed.

Lemma stored_other (s : State) (ts : list Task) (d : gmap string nat)
    (n : string) :
  n ∉ name <$> ts -> stored s ts d !! n = d !! n.
Proof.
  revert d. induction ts as [|t ts IH]; intros d Hn; [reflexivity|].
  rewrite fmap_cons, not_elem_of_cons in Hn. destruct Hn as [Hne Hn].
  cbn [stored foldl]. fold (stored s ts). 
  destruct (outs s !! tid t) as [out|].
  - change (stored s ts (<[name t := out]> d) !! n = d !! n).
    rewrite IH by exact Hn. by rewrite lookup_insert_ne.
  - change (stored s ts d !! n = d !! n). by apply IH.
Qed.

(** The loop of [DictionaryHandler.process] over tasks that have their
    ['out']: it returns, and rewrites the dictionary of the handler only. *)
Lemma process_dictionary_steps (i : nat) (ts : list Task) (s : State)
    (h : Handler) (d : gmap string nat) :
  handlers s !! i = Some h -> sink h = DictionarySink d ->
  (forall t, t ∈ ts -> has_out s t) ->
  exists s',
    for_each (fun t => out ← require_task_layout t; dictionary_store i t out)
             ts s = (Done tt, s') /\
    outs s' = outs s /\ groups s' = groups s /\
    handlers s' !! i = Some (set_sink (DictionarySink (stored s ts d)) h) /\
    (forall j, j <> i -> handlers s' !! j = handlers s !! j).
Proof.
  revert s h d. induction ts as [|t ts IH]; intros s h d Hh Hsink Hall.
  { exists s. repeat split; try done. rewrite Hh. f_equal.
    destruct h. simpl in *. by subst. }
  destruct (Hall t) as [out Hout]; [apply elem_of_cons; by left|].
  set (s1 := with_handlers
               (alter (fun h => match sink h with
                                | DictionarySink d =>
                                    set_sink (DictionarySink (<[name t := out]> d)) h
                                | _ => h
                                end) i (handlers s))
               (with_layouts (require_layout out (layout t) (layouts s)) s)).
  assert ((out ← require_task_layout t; dictionary_store i t out) s
          = (Done tt, s1)) as Estep.
  { unfold mbind, M_bind. by rewrite (require_task_layout_spec t s out Hout). }
  destruct (IH s1 (set_sink (DictionarySink (<[name t := out]> d)) h)
              (<[name t := out]> d)) as (s' & E & Ho & Hg & Hi & Hj).
  { subst s1. simpl. rewrite list_lookup_alter_eq, Hh. simpl. by rewrite Hsink. }
  { reflexivity. }
  { intros t' Ht'. apply (Hall t'). apply elem_of_cons. by right. }
  exists s'. split.
  { cbn [for_each]. unfold mbind at 1, M_bind at 1. by rewrite Estep. }
  split; [by rewrite Ho|]. split; [by rewrite Hg|]. split.
  - rewrite Hi. f_equal. cbn [stored foldl]. rewrite Hout.
    rewrite (stored_outs s s1) by reflexivity. reflexivity.
  - intros j Hne. rewrite (Hj j Hne). subst s1. simpl.
    by rewrite list_lookup_alter_ne.
Qed.

(** [DictionaryHandler.process], called when every task of the handler has
    its ['out'] and the task names are distinct: it returns, the dictionary
    then maps the name of each task to the ['out'] of that task and keeps its
    other entries, and no other handler, no ['out'] and no group is changed. *)
Theorem dictionary_process_stores_outputs
    (env : nat -> Stat) (i : nat) (wall_time sim_time : Q) (iteration : Z)
    (s : State) (h : Handler) (d : gmap string nat) :
  handlers s !! i = Some h -> sink h = DictionarySink d ->
  (forall t, t ∈ tasks h -> has_out s t) ->
  NoDup (name <$> tasks h) ->
  exists s' d',
    process env i wall_time sim_time iteration s = (Done tt, s') /\
    handlers s' !! i = Some (set_sink (DictionarySink d') h) /\
    (forall t, t ∈ tasks h -> d' !! name t = outs s !! tid t) /\
    (forall n, n ∉ name <$> tasks h -> d' !! n = d !! n) /\
    (forall j, j <> i -> handlers s' !! j = handlers s !! j) /\
    outs s' = outs s /\ groups s' = groups s.
Proof.
  intros Hh Hsink Hall Hnd.
  destruct (process_dictionary_steps i (tasks h) s h d Hh Hsink Hall)
    as (s' & E & Ho & Hg & Hi & Hj).
  exists s', (stored s (tasks h) d). split.
  { unfold process, process_dictionary, handler_tasks. by rewrite Hh, Hsink. }
  split; [exact Hi|]. split; [|split; [apply stored_other|done]].
  clear -Hall Hnd. revert d Hall Hnd.
  induction (tasks h) as [|t0 ts IH]; intros d Hall Hnd t Ht; [inversion Ht|].
  rewrite fmap_cons in Hnd. apply NoDup_cons in Hnd as [Hfresh Hnd].
  destruct (Hall t0) as [out0 Hout0]; [apply elem_of_cons; by left|].
  cbn [stored foldl]. rewrite Hout0.
  change (stored s ts (<[name t0 := out0]> d) !! name t = outs s !! tid t).
  apply elem_of_cons in Ht as [->|Ht].
  - rewrite stored_other by exact Hfresh. by rewrite lookup_insert_eq.
  - apply IH; [|exact Hnd|exact Ht].
    intros t' Ht'. apply Hall. apply elem_of_cons. by right.
Qed.

Lemma dictionary_process_stores_outputs_witness :
  let t := {| operator := computable_in 1 0 1; layout := 1; name := "task";
              tid := 0 |} in
  let h := add_task_to t (Handler_init None Inf Inf Inf (DictionarySink ∅)) in
  let s := snd (resolve 1 [0%nat] 0 (one_task 1 (computable_in 1 0 1))) in
  (handlers s !! 0%nat = Some h /\ sink h = DictionarySink ∅ /\
   (forall t, t ∈ tasks h -> has_out s t) /\ NoDup (name <$> tasks h)) /\
  exists s' d',
    process no_stat 0 0 0 0 s = (Done tt, s') /\
    handlers s' !! 0%nat = Some (set_sink (DictionarySink d') h) /\
    d' !! "task" = Some 1%nat.
Proof.
  intros t h s.
  assert (handlers s !! 0%nat = Some h) as Hh by reflexivity.
  assert (forall t, t ∈ tasks h -> has_out s t) as Hall.
  { intros t' Ht'. apply list_elem_of_singleton in Ht'. subst t'.
    exists 1%nat. reflexivity. }
  assert (NoDup (name <$> tasks h)) as Hnd by apply NoDup_singleton.
  split; [by repeat split|].
  destruct (dictionary_process_stores_outputs no_stat 0 0 0 0 s h ∅
              Hh eq_refl Hall Hnd) as (s' & d' & E & Hi & Hd & _).
  exists s', d'. split; [exact E|]. split; [exact Hi|].
  apply (Hd t). apply elem_of_cons. by left.
Defined.

(** A loop body that reads [task['out']] first raises [KeyError] at the
    first task without one. *)
Lemma for_each_missing_out (body : Task -> M unit) (ts : list Task) (s : State) :
  (forall t s, outs s !! tid t = None -> fst (body t s) = Raised KeyError) ->
  (forall t s, is_Some (outs s !! tid t) ->
     fst (body t s) = Done tt /\ outs (snd (body t s)) = outs s) ->
  (exists t, t ∈ ts /\ outs s !! tid t = None) ->
  fst (for_each body ts s) = Raised KeyError.
Proof.
  intros Hnone Hsome. revert s.
  induction ts as [|t ts IH]; intros s (t' & Ht' & Hout); [inversion Ht'|].
  cbn [for_each]. unfold mbind, M_bind.
  destruct (outs s !! tid t) as [out|] eqn:E.
  - destruct (Hsome t s) as [Hdone Houts]; [by rewrite E|].
    destruct (body t s) as [r s1]. simpl in *. subst r.
    apply IH. exists t'. apply elem_of_cons in Ht' as [->|Ht'];
      [congruence|]. split; [exact Ht'|by rewrite Houts].
  - specialize (Hnone t s E). destruct (body t s) as [r s1]. simpl in *.
    by subst r.
Qed.

(** [process] called while a task of the handler has no ['out'] (no
    evaluation has set it): a [DictionaryHandler] and a [FileHandler] raise
    [KeyError].  The [FileHandler] has by then opened its file and counted
    the write: its counters are those of a completed write.  A
    [SystemHandler] whose system was never built does not get that far: it
    raises [AttributeError], and changes nothing. *)
Theorem process_without_output_raises_KeyError
    (env : nat -> Stat) (i : nat) (wall_time sim_time : Q) (iteration : Z)
    (s : State) (h : Handler) (t : Task) :
  handlers s !! i = Some h ->
  t ∈ tasks h -> outs s !! tid t = None ->
  let r := fst (process env i wall_time sim_time iteration s) in
  let s' := snd (process env i wall_time sim_time iteration s) in
  (forall d, sink h = DictionarySink d -> r = Raised KeyError) /\
  (sink h = SystemSink None -> r = Raised AttributeError /\ s' = s) /\
  (forall fh fh', sink h = FileSink fh ->
     begin_write fh (env i) = Done fh' ->
     r = Raised KeyError /\
     handlers s' !! i = Some (set_sink (FileSink fh') h) /\
     total_write_num fh' = total_write_num fh + 1).
Proof.
  intros Hh Ht Hout r s'. subst r s'. unfold process. rewrite Hh.
  assert (handler_tasks s i = tasks h) as Hts
    by (unfold handler_tasks; by rewrite Hh).
  assert (forall t s, outs s !! tid t = None ->
            fst (require_task_layout t s) = Raised KeyError) as Hreq.
  { intros t0 s0 E. by rewrite (require_task_layout_missing t0 s0 E). }
  split; [|split].
  - intros d ->. unfold process_dictionary. rewrite Hts.
    apply for_each_missing_out.
    + intros t0 s0 E. unfold mbind, M_bind. specialize (Hreq t0 s0 E).
      destruct (require_task_layout t0 s0) as [r0 s1]. simpl in Hreq. by subst r0.
    + intros t0 s0 [out E]. unfold mbind, M_bind.
      by rewrite (require_task_layout_spec t0 s0 out E).
    + by exists t.
  - by intros ->.
  - intros fh fh' -> Efh. unfold process_file. rewrite Efh, Hts.
    set (s1 := with_handlers (alter (set_sink (FileSink fh')) i (handlers s)) s).
    change ((modify (fun s => with_handlers
               (alter (set_sink (FileSink fh')) i (handlers s)) s) ;;
             for_each (fun t => require_task_layout t ;; mret tt) (tasks h)) s)
      with (for_each (fun t => require_task_layout t ;; mret tt) (tasks h) s1).
    split; [|split].
    + apply for_each_missing_out.
      * intros t0 s0 E. unfold mbind, M_bind. specialize (Hreq t0 s0 E).
        destruct (require_task_layout t0 s0) as [r0 s2]. simpl in Hreq.
        by subst r0.
      * intros t0 s0 [out E]. unfold mbind, M_bind.
        by rewrite (require_task_layout_spec t0 s0 out E).
      * by exists t.
    + assert (preserves handlers
                (for_each (fun t => require_task_layout t ;; mret tt) (tasks h)))
        as Hpres.
      { apply preserves_for_each. intros t0. apply preserves_bind.
        - by apply preserves_require_task_layout.
        - intros _. apply preserves_ret. }
      rewrite Hpres. subst s1. simpl. by rewrite list_lookup_alter_eq, Hh.
    + unfold begin_write in Efh.
      destruct (get_file fh (env i)) as [[f fh1]| |] eqn:Eg; try discriminate.
      injection Efh as <-. simpl.
      unfold get_file in Eg. destruct (current_path fh).
      * destruct (check_file_limits fh (env i)) as [[|]| |]; try discriminate;
          by injection Eg as <- <-.
      * by injection Eg as <- <-.
Qed.

Lemma process_without_output_raises_KeyError_witness :
  let t := {| operator := computable_in 1 0 1; layout := 1; name := "task";
              tid := 0 |} in
  let hd := add_task_to t (Handler_init None Inf Inf Inf (DictionarySink ∅)) in
  let hs := add_task_to t (Handler_init None Inf Inf Inf (SystemSink None)) in
  let s := add_handlers [hd; hs] (Evaluator_init 1 (fun _ => 0%nat)) in
  (handlers s !! 0%nat = Some hd /\ handlers s !! 1%nat = Some hs /\
   t ∈ tasks hd /\ t ∈ tasks hs /\ outs s !! tid t = None) /\
  fst (process no_stat 0 0 0 0 s) = Raised KeyError /\
  process no_stat 1 0 0 0 s = (Raised AttributeError, s).
Proof.
  intros t hd hs s.
  assert (t ∈ tasks hd) as Htd by (apply elem_of_cons; by left).
  assert (t ∈ tasks hs) as Hts by (apply elem_of_cons; by left).
  split; [by repeat split|]. split.
  - exact (proj1 (process_without_output_raises_KeyError no_stat 0 0 0 0 s hd t
                    eq_refl Htd eq_refl) ∅ eq_refl).
  - destruct (proj1 (proj2 (process_without_output_raises_KeyError
                              no_stat 1 0 0 0 s hs t eq_refl Hts eq_refl))
                eq_refl) as [Hr Hs].
    destruct (process no_stat 1 0 0 0 s) as [r s']. simpl in *. by subst.
Defined.

Lemma attempt_tasks_partitions_witness :
  let t1 := {| operator := computable_in 0 0 5; layout := 1; name := "a";
               tid := 0 |} in
  let t2 := {| operator := computable_in 1 1 6; layout := 1; name := "b";
               tid := 1 |} in
  let s := Evaluator_init 1 (fun _ => 0%nat) in
  NoDup (tid <$> [t1; t2]) /\
  fst (attempt_tasks 0 [t1; t2] s) = [t2] /\
  outs (snd (attempt_tasks 0 [t1; t2] s)) !! 0%nat = Some 5%nat.
Proof.
  intros t1 t2 s.
  assert (NoDup (tid <$> [t1; t2])) as Hnd.
  { apply NoDup_cons. split; [|apply NoDup_singleton].
    intros H. apply list_elem_of_singleton in H. discriminate H. }
  split; [exact Hnd|].
  destruct (attempt_tasks_partitions 0 [t1; t2] s Hnd) as (Hu & Hout & _).
  split; [rewrite Hu; reflexivity|].
  apply (Hout t1 5%nat); [apply elem_of_cons; by left|reflexivity].
Defined.

(** * The whole evaluation *)

(** [process] of a [DictionaryHandler] all of whose tasks have their
    ['out']: it returns, and keeps the ['out'] entries, the tasks and the
    kind of every handler. *)
Lemma process_of_dictionary (env : nat -> Stat) (i : nat) (wt st : Q) (it : Z)
    (s : State) :
  (forall h, handlers s !! i = Some h -> is_dictionary h) ->
  (forall t, t ∈ handler_tasks s i -> has_out s t) ->
  exists s',
    process env i wt st it s = (Done tt, s') /\ outs s' = outs s /\
    (forall j, handler_tasks s' j = handler_tasks s j) /\
    (forall j h', handlers s' !! j = Some h' ->
       exists h, handlers s !! j = Some h /\ (is_dictionary h -> is_dictionary h')).
Proof.
  intros Hmem Hall. unfold process.
  destruct (handlers s !! i) as [h|] eqn:Hh; [|exists s; eauto 10].
  assert (handler_tasks s i = tasks h) as Hts
    by (unfold handler_tasks; by rewrite Hh).
  specialize (Hmem h eq_refl). unfold is_dictionary in Hmem.
  destruct (sink h) as [d|sys|fh] eqn:Hsink; [|done|done].
  destruct (process_dictionary_steps i (tasks h) s h d Hh Hsink)
    as (s' & E & Ho & _ & Hi & Hj); [by rewrite <- Hts|].
  exists s'. split; [unfold process_dictionary; by rewrite Hts|].
  split; [exact Ho|]. split.
  - intros j. unfold handler_tasks. destruct (decide (j = i)) as [->|Hne].
    + by rewrite Hi, Hh.
    + by rewrite Hj.
  - intros j h' Hh'. destruct (decide (j = i)) as [->|Hne].
    + exists h. split; [exact Hh|]. intros _. rewrite Hi in Hh'.
      by injection Hh' as <-.
    + rewrite Hj in Hh' by done. eauto.
Qed.

Lemma for_each_process_of_dictionary (env : nat -> Stat) (wt st : Q) (it : Z)
    (hs todo : list nat) (s : State) :
  (forall i h, i ∈ hs -> handlers s !! i = Some h -> is_dictionary h) ->
  (forall i t, i ∈ hs -> t ∈ handler_tasks s i -> has_out s t) ->
  (forall i, i ∈ todo -> i ∈ hs) ->
  exists s',
    for_each (fun i => process env i wt st it) todo s = (Done tt, s') /\
    outs s' = outs s /\
    (forall j, handler_tasks s' j = handler_tasks s j).
Proof.
  revert s. induction todo as [|i todo IH]; intros s Hmem Hall Hsub.
  { exists s. done. }
  destruct (process_of_dictionary env i wt st it s) as (s1 & E1 & Ho1 & Ht1 & Hk1).
  { intros h. apply Hmem, Hsub. apply elem_of_cons. by left. }
  { intros t. apply Hall, Hsub. apply elem_of_cons. by left. }
  destruct (IH s1) as (s' & E' & Ho' & Ht').
  - intros j h' Hj Hh'. destruct (Hk1 j h' Hh') as (h & Hh & Himp).
    apply Himp. by apply (Hmem j).
  - intros j t Hj Ht. unfold has_out. rewrite Ho1. apply (Hall j); [exact Hj|].
    by rewrite <- Ht1.
  - intros j Hj. apply Hsub. apply elem_of_cons. by right.
  - exists s'. split.
    { cbn [for_each]. unfold mbind at 1, M_bind at 1. by rewrite E1. }
    split; [congruence|]. intros j. by rewrite Ht', Ht1.
Qed.

(** When every task is resolvable with its fields in some layout, and the
    handlers are all [DictionaryHandler]s, [evaluate_handlers] returns after
    at most [Lmax] passes of its loop: it raises nothing, and leaves every
    task of the handlers with its ['out']. *)
Theorem evaluate_handlers_returns
    (env : nat -> Stat) (hs : list nat) (wall_time sim_time : Q)
    (iteration : Z) (s : State) :
  (forall t, t ∈ all_tasks s hs ->
     exists k, (k <= Lmax s)%nat /\ resolvable_at sim_time (operator t) k) ->
  (forall i h, i ∈ hs -> handlers s !! i = Some h -> is_dictionary h) ->
  let r := evaluate_handlers (Lmax s) env hs wall_time sim_time iteration s in
  fst r = Done tt /\
  forall i t, i ∈ hs -> t ∈ handler_tasks s i -> has_out (snd r) t.
Proof.
  intros Hres Hmem r. subst r.
  pose proof (all_resolved sim_time hs s Hres) as Hempty.
  assert (fst (resolve (Lmax s) hs sim_time s) = Done tt) as Hdone.
  { apply resolve_finished. unfold resolve.
    destruct (first_attempts sim_time (all_tasks s hs) s) as [o0 s0] eqn:E0.
    simpl in Hempty. unfold mbind, M_bind.
    rewrite (oscillate_rounds sim_time (Lmax s) (Lmax s) o0 s0 Hempty) by lia.
    assert (forall l st, fst (dealias l st) <> OutOfFuel) as Hd.
    { assert (forall ts st, fst (for_each dealias_task ts st) <> OutOfFuel)
        as Hts.
      { induction ts as [|t ts IH]; intros st; simpl; [done|].
        unfold mbind, M_bind, dealias_task at 1, mbind, M_bind, task_out, modify.
        destruct (outs st !! tid t); simpl; [apply IH|done]. }
      unfold dealias. induction l as [|i l IH]; intros st; simpl; [done|].
      unfold mbind at 1, M_bind at 1.
      pose proof (Hts (handler_tasks st i) st) as H1.
      destruct (for_each dealias_task (handler_tasks st i) st) as [[[]|e|] st'];
        simpl in *; [apply IH|done|done]. }
    pose proof (Hd hs (snd (osc_rounds sim_time (Lmax s) o0 s0))) as Hd'.
    by destruct (dealias hs (snd (osc_rounds sim_time (Lmax s) o0 s0))). }
  destruct (resolve_finished (Lmax s) hs sim_time s) as [_ Hout];
    [by rewrite Hdone|].
  pose proof (preserves_resolve handlers (fun _ _ => eq_refl)
                (fun _ _ => eq_refl) (Lmax s) hs sim_time s) as Hhs.
  unfold evaluate_handlers, mbind, M_bind.
  destruct (resolve (Lmax s) hs sim_time s) as [r1 s1]. simpl in *. subst r1.
  destruct (for_each_process_of_dictionary env wall_time sim_time iteration hs hs s1)
    as (s' & E & Ho & Ht).
  - intros i h Hi Hh. apply (Hmem i); [exact Hi|by rewrite <- Hhs].
  - intros i t Hi Ht. destruct (Hout i t Hi) as (out & Hsome & _).
    + by rewrite <- (handler_tasks_handlers s1 s i).
    + by exists out.
  - done.
  - rewrite E. split; [reflexivity|]. simpl.
    intros i t Hi Ht'. unfold has_out. rewrite Ho.
    destruct (Hout i t Hi Ht') as (out & Hsome & _). by exists out.
Qed.

Lemma evaluate_handlers_returns_witness :
  let s := one_task 2 (computable_in 2 0 1) in
  ((forall t, t ∈ all_tasks s [0%nat] ->
      exists k, (k <= Lmax s)%nat /\ resolvable_at 0 (operator t) k) /\
   (forall i h, i ∈ [0%nat] -> handlers s !! i = Some h -> is_dictionary h)) /\
  fst (evaluate_handlers 2 no_stat [0%nat] 0 0 0 s) = Done tt.
Proof.
  intros s.
  assert (forall t, t ∈ all_tasks s [0%nat] ->
            exists k, (k <= Lmax s)%nat /\ resolvable_at 0 (operator t) k) as Hres.
  { intros t Ht. apply list_elem_of_singleton in Ht. subst t. exists 2%nat.
    split; [simpl; lia|]. intros ls Hat. simpl.
    rewrite (Hat 0%nat) by (apply elem_of_cons; by left).
    by rewrite decide_True. }
  assert (forall i h, i ∈ [0%nat] -> handlers s !! i = Some h -> is_dictionary h)
    as Hmem.
  { intros i h Hi Hh. apply list_elem_of_singleton in Hi. subst i.
    simpl in Hh. by injection Hh as <-. }
  split; [by split|].
  exact (proj1 (evaluate_handlers_returns no_stat [0%nat] 0 0 0 s Hres Hmem)).
Defined.

(** * evaluate_scheduled, called again *)

Lemma schedule_handler_not_fired (wt st : Q) (it : Z) (h h' : Handler) :
  schedule_handler wt st it h = Done (false, h') -> h' = h.
Proof.
  unfold schedule_handler.
  destruct (floordiv wt (wall_dt h)); try discriminate.
  destruct (floordiv st (sim_dt h)); try discriminate.
  destruct (floordiv (inject_Z it) (iter h)); try discriminate.
  destruct (_ || _ || _); intros H; by injection H.
Qed.

Lemma select_scheduled_quiet (wt st : Q) (it : Z) (hs1 hs2 : list Handler)
    (k : nat) :
  cadence_state <$> hs1 = cadence_state <$> hs2 ->
  select_scheduled wt st it k hs2 = (Done [], hs2) ->
  select_scheduled wt st it k hs1 = (Done [], hs1).
Proof.
  revert hs2 k. induction hs1 as [|h1 hs1 IH]; intros [|h2 hs2] k Hc H;
    try discriminate; [reflexivity|].
  rewrite !fmap_cons in Hc. apply (inj2 cons) in Hc as [Hh Hhs].
  simpl in H |- *.
  pose proof (schedule_handler_cadence_state wt st it h1 h2 Hh) as Hstep.
  destruct (schedule_handler wt st it h2) as [[b2 h2']| |] eqn:E2;
    try discriminate.
  destruct (select_scheduled wt st it (S k) hs2) as [[l2| |] hs2'] eqn:Er;
    try discriminate.
  destruct b2; [discriminate|]. injection H as -> -> ->.
  destruct (schedule_handler wt st it h1) as [[b1 h1']| |] eqn:E1;
    try contradiction.
  destruct Hstep as [-> _].
  apply schedule_handler_not_fired in E1 as ->.
  by rewrite (IH hs2 (S k) Hhs Er).
Qed.

Lemma evaluate_handlers_none (fuel : nat) (env : nat -> Stat)
    (wt st : Q) (it : Z) (s : State) :
  evaluate_handlers fuel env [] wt st it s = (Done tt, s).
Proof. destruct s, fuel; reflexivity. Qed.

(** When [evaluate_scheduled] has returned, calling it again with the same
    times and iteration does nothing: no handler is selected (the evaluation
    and the [process] calls of the first call left the recorded divisors as
    the scheduling loop set them), nothing is evaluated, and the state is
    unchanged. *)
Theorem evaluate_scheduled_again_does_nothing
    (fuel fuel' : nat) (env env' : nat -> Stat)
    (wall_time sim_time : Q) (iteration : Z) (s s1 : State) :
  evaluate_scheduled fuel env wall_time sim_time iteration s = (Done tt, s1) ->
  scheduled_handlers wall_time sim_time iteration s1 = (Done [], s1) /\
  evaluate_scheduled fuel' env' wall_time sim_time iteration s1 = (Done tt, s1).
Proof.
  intros H. unfold evaluate_scheduled, mbind, M_bind in H.
  unfold scheduled_handlers in H at 1.
  destruct (select_scheduled wall_time sim_time iteration 0 (handlers s))
    as [[l| |] hs'] eqn:Esel; try discriminate.
  pose proof (preserves_cadences_evaluate_handlers fuel env l wall_time
                sim_time iteration (with_handlers hs' s)) as Hc.
  rewrite H in Hc. unfold cadences in Hc. simpl in Hc.
  pose proof (select_scheduled_again _ _ _ _ _ _ _ Esel) as Hquiet.
  pose proof (select_scheduled_quiet _ _ _ _ _ _ Hc Hquiet) as Hquiet1.
  assert (scheduled_handlers wall_time sim_time iteration s1 = (Done [], s1))
    as Hsched.
  { unfold scheduled_handlers. rewrite Hquiet1. by destruct s1. }
  split; [exact Hsched|].
  unfold evaluate_scheduled, mbind, M_bind. rewrite Hsched.
  apply evaluate_handlers_none.
Qed.

Lemma evaluate_scheduled_again_does_nothing_witness :
  let s := one_task 1 (computable_in 1 0 1) in
  let s1 := snd (evaluate_scheduled 1 no_stat 0 0 0 s) in
  evaluate_scheduled 1 no_stat 0 0 0 s = (Done tt, s1) /\
  evaluate_scheduled 0 no_stat 0 0 0 s1 = (Done tt, s1).
Proof.
  intros s s1.
  assert (evaluate_scheduled 1 no_stat 0 0 0 s = (Done tt, s1)) as H
    by reflexivity.
  split; [exact H|].
  exact (proj2 (evaluate_scheduled_again_does_nothing 1 0 no_stat no_stat
                  0 0 0 s s1 H)).
Defined.
